(** * AuctionHousesApp: query hooks, pages, database schema and scraping tasks

    A shallow embedding of these parts of the repository:

    - the React query hooks of the frontend ([useLots.ts], [useAuctions.ts],
      [useHouses.ts]): which request a hook issues, and when its query is
      switched off;
    - the list pages of lots, auctions and houses and the navigation bar:
      what they show for the result of their query and for the current
      path;
    - the PostgreSQL schema of the initial migration: the tables
      [auction_houses], [categories], [artists], [auctions], [lots] and
      [scraping_logs] with their column constraints, defaults, UNIQUE keys
      and the [update_updated_at_column] trigger;
    - the adapter of Bogotá Auctions, the Celery task [scrape_house_data]
      and [ScrapingOrchestrator.schedule_scraping_jobs] of the development
      plan.

    Definitions come first, the theorems about them follow. *)

From Stdlib Require Import ZArith List String Bool Arith Lia Btauto Sorted.
From Stdlib Require Import Floats.SpecFloat.
Import ListNotations.
Local Open Scope string_scope.
Local Open Scope list_scope.

Set Implicit Arguments.

(* ===================================================================== *)
(** * Part I. Definitions *)
(* ===================================================================== *)

(* --------------------------------------------------------------------- *)
(** ** JavaScript values used by the hooks *)
(* --------------------------------------------------------------------- *)

Module Js.

(** A JavaScript [number] is an IEEE 754 double: zeros of both signs,
    infinities, NaN and the finite values. *)
Definition number : Type := spec_float.

(** [!!x] on a number: [0], [-0] and [NaN] are falsy, all else is truthy. *)
Definition truthy_number (x : number) : bool :=
  match x with
  | S754_zero _ => false
  | S754_nan => false
  | S754_infinity _ => true
  | S754_finite _ _ _ => true
  end.

(** [!!s] on a string: only the empty string is falsy. *)
Definition truthy_string (s : string) : bool :=
  match s with
  | EmptyString => false
  | String _ _ => true
  end.

(** [s.length]; a character of the model stands for one UTF-16 code unit. *)
Definition length (s : string) : nat := String.length s.

(** An own property of an object literal: missing, present with the value
    [undefined], or present with a value. *)
Inductive prop (A : Type) : Type :=
| Absent
| Undefined
| Value (a : A).
Arguments Absent {A}.
Arguments Undefined {A}.
Arguments Value {A} a.

(** [{ p: own, ...rest }] read at [p]: a property of the spread object,
    even one holding [undefined], replaces the one written before it.
    The result is [None] for [undefined]. *)
Definition spread_over {A : Type} (own : A) (rest : prop A) : option A :=
  match rest with
  | Absent => Some own
  | Undefined => None
  | Value a => Some a
  end.

(** The integer ids the pages pass around, as doubles ([53] bits of
    precision, exponents up to [1024]). *)
Definition of_Z (z : Z) : number :=
  match z with
  | Z0 => S754_zero false
  | Zpos p => binary_normalize 53 1024 (Zpos p) 0 false
  | Zneg p => binary_normalize 53 1024 (Zneg p) 0 true
  end.

End Js.

(* --------------------------------------------------------------------- *)
(** ** The query hooks *)
(* --------------------------------------------------------------------- *)

Module Hooks.
Import Js.

(** [{ limit?: number; offset?: number }] *)
Record page_params : Type := {
  limit : option number;
  offset : option number }.

(** The calls on the [api] client made by the query functions below.  The
    client itself ([@/lib/api]) sends one HTTP request per call. *)
Inductive api_call : Type :=
| lots_getById (id : number)
| lots_search (q : string) (limit offset : option number)
| lots_getByAuction (auctionId : number) (params : option page_params)
| auctions_getById (id : number)
| auctions_getBySlug (slug : string)
| houses_getById (id : number)
| houses_getStats (id : number).

(** One element of a [queryKey] array. *)
Inductive key_part : Type :=
| KString (s : string)
| KNumber (n : number)
| KParams (p : option page_params).

(** The caller's [options]: everything of [UseQueryOptions] but [queryKey]
    and [queryFn], which the type of the hooks omits.  [enabled] is not
    omitted. *)
Record use_query_options : Type := {
  opt_enabled : prop bool;
  opt_staleTime : prop number;
  opt_refetchInterval : prop number }.

(** The object a hook hands to [useQuery]. *)
Record query_config : Type := {
  queryKey : list key_part;
  queryFn : unit -> api_call;
  enabled : option bool;
  staleTime : option number;
  refetchInterval : option number }.

(** [{ queryKey, queryFn, enabled: own, ...options }] with an optional
    [options] argument: spreading [undefined] adds nothing. *)
Definition with_options (key : list key_part) (fn : unit -> api_call)
  (own_enabled : bool) (options : option use_query_options) : query_config :=
  match options with
  | None =>
      {| queryKey := key; queryFn := fn; enabled := Some own_enabled;
         staleTime := None; refetchInterval := None |}
  | Some o =>
      {| queryKey := key; queryFn := fn;
         enabled := spread_over own_enabled (opt_enabled o);
         staleTime := match opt_staleTime o with Value n => Some n | _ => None end;
         refetchInterval :=
           match opt_refetchInterval o with Value n => Some n | _ => None end |}
  end.

(** [useQuery] runs a query unless its [enabled] option is [false]; a
    missing or [undefined] option counts as enabled. *)
Definition is_enabled (q : query_config) : bool :=
  match enabled q with
  | Some false => false
  | _ => true
  end.

(** The calls [useQuery] makes when the hook mounts on an empty cache:
    the query function once if the query is enabled, nothing otherwise. *)
Definition requests_on_mount (q : query_config) : list api_call :=
  if is_enabled q then [queryFn q tt] else [].

(** useLots.ts *)
Definition useLot (id : number) (options : option use_query_options) : query_config :=
  with_options [KString "lot"; KNumber id]
    (fun _ => lots_getById id)
    (truthy_number id)
    options.

(** [{ q: query, ...params }] *)
Definition search_call (q : string) (params : option page_params) : api_call :=
  match params with
  | None => lots_search q None None
  | Some p => lots_search q (limit p) (offset p)
  end.

Definition useSearchLots (query : string) (params : option page_params)
  (options : option use_query_options) : query_config :=
  with_options [KString "lots"; KString "search"; KString query; KParams params]
    (fun _ => search_call query params)
    (truthy_string query && Nat.ltb 2 (Js.length query))
    options.

Definition useLotsByAuction (auctionId : number) (params : option page_params)
  (options : option use_query_options) : query_config :=
  with_options [KString "lots"; KString "auction"; KNumber auctionId; KParams params]
    (fun _ => lots_getByAuction auctionId params)
    (truthy_number auctionId)
    options.

(** useAuctions.ts *)
Definition useAuction (id : number) (options : option use_query_options) : query_config :=
  with_options [KString "auction"; KNumber id]
    (fun _ => auctions_getById id)
    (truthy_number id)
    options.

Definition useAuctionBySlug (slug : string) (options : option use_query_options) : query_config :=
  with_options [KString "auction"; KString "slug"; KString slug]
    (fun _ => auctions_getBySlug slug)
    (truthy_string slug)
    options.

(** useHouses.ts *)
Definition useHouse (id : number) (options : option use_query_options) : query_config :=
  with_options [KString "house"; KNumber id]
    (fun _ => houses_getById id)
    (truthy_number id)
    options.

Definition useHouseStats (id : number) (options : option use_query_options) : query_config :=
  with_options [KString "house"; KNumber id; KString "stats"]
    (fun _ => houses_getStats id)
    (truthy_number id)
    options.

(** Options whose only entry is [enabled: true]. *)
Definition enabled_true : use_query_options :=
  {| opt_enabled := Value true; opt_staleTime := Absent; opt_refetchInterval := Absent |}.

(** Options that leave [enabled] to the hook. *)
Definition leaves_enabled (options : option use_query_options) : Prop :=
  match options with
  | None => True
  | Some o => opt_enabled o = Absent
  end.

End Hooks.

(* --------------------------------------------------------------------- *)
(** ** The list hooks *)
(* --------------------------------------------------------------------- *)

(** The hooks of the three files that take filters or page parameters and
    write no [enabled] of their own: [useLots], [useRecentLots],
    [useAuctions], [useUpcomingAuctions], [useLiveAuctions],
    [useRecentAuctions] and [useHouses]. *)
Module ListHooks.
Import Js.

(** [LotSearchFilters & { limit?: number; offset?: number }] *)
Record lot_filters : Type := {
  lf_auction_id : option number;
  lf_artist_id : option number;
  lf_category_id : option number;
  lf_min_price : option number;
  lf_max_price : option number;
  lf_currency : option string;
  lf_sold : option bool;
  lf_search : option string;
  lf_limit : option number;
  lf_offset : option number }.

(** [AuctionSearchFilters & { limit?: number; offset?: number }] *)
Record auction_filters : Type := {
  af_house_id : option number;
  af_status : option (list string);
  af_auction_type : option (list string);
  af_country : option string;
  af_currency : option string;
  af_start_date_from : option string;
  af_start_date_to : option string;
  af_search : option string;
  af_limit : option number;
  af_offset : option number }.

(** [{ limit?: number; offset?: number; country?: string; verified?: boolean }] *)
Record house_params : Type := {
  hp_limit : option number;
  hp_offset : option number;
  hp_country : option string;
  hp_verified : option bool }.

Inductive api_call : Type :=
| lots_getAll (filters : option lot_filters)
| lots_getRecent (params : option Hooks.page_params)
| auctions_getAll (filters : option auction_filters)
| auctions_getUpcoming (params : option Hooks.page_params)
| auctions_getLive (params : option Hooks.page_params)
| auctions_getRecent (params : option Hooks.page_params)
| houses_getAll (params : option house_params).

Inductive key_part : Type :=
| KString (s : string)
| KLotFilters (f : option lot_filters)
| KAuctionFilters (f : option auction_filters)
| KHouseParams (p : option house_params)
| KParams (p : option Hooks.page_params).

Record query_config : Type := {
  queryKey : list key_part;
  queryFn : unit -> api_call;
  enabled : option bool;
  staleTime : option number;
  refetchInterval : option number }.

(** [{ p: own, ...rest }] read at [p], where the literal may leave [p]
    out ([own] is then [None]). *)
Definition spread {A : Type} (own : option A) (rest : prop A) : option A :=
  match rest with
  | Absent => own
  | Undefined => None
  | Value a => Some a
  end.

(** [{ queryKey, queryFn, ...options }], with [refetchInterval: own]
    before the spread where the hook writes one. *)
Definition with_options (key : list key_part) (fn : unit -> api_call)
  (own_refetchInterval : option number) (options : option Hooks.use_query_options)
  : query_config :=
  match options with
  | None =>
      {| queryKey := key; queryFn := fn; enabled := None;
         staleTime := None; refetchInterval := own_refetchInterval |}
  | Some o =>
      {| queryKey := key; queryFn := fn;
         enabled := spread None (Hooks.opt_enabled o);
         staleTime := spread None (Hooks.opt_staleTime o);
         refetchInterval := spread own_refetchInterval (Hooks.opt_refetchInterval o) |}
  end.

Definition is_enabled (q : query_config) : bool :=
  match enabled q with
  | Some false => false
  | _ => true
  end.

Definition requests_on_mount (q : query_config) : list api_call :=
  if is_enabled q then [queryFn q tt] else [].

(** useLots.ts *)
Definition useLots (filters : option lot_filters)
  (options : option Hooks.use_query_options) : query_config :=
  with_options [KString "lots"; KLotFilters filters]
    (fun _ => lots_getAll filters) None options.

Definition useRecentLots (params : option Hooks.page_params)
  (options : option Hooks.use_query_options) : query_config :=
  with_options [KString "lots"; KString "recent"; KParams params]
    (fun _ => lots_getRecent params) None options.

(** useAuctions.ts *)
Definition useAuctions (filters : option auction_filters)
  (options : option Hooks.use_query_options) : query_config :=
  with_options [KString "auctions"; KAuctionFilters filters]
    (fun _ => auctions_getAll filters) None options.

Definition useUpcomingAuctions (params : option Hooks.page_params)
  (options : option Hooks.use_query_options) : query_config :=
  with_options [KString "auctions"; KString "upcoming"; KParams params]
    (fun _ => auctions_getUpcoming params) None options.

Definition useLiveAuctions (params : option Hooks.page_params)
  (options : option Hooks.use_query_options) : query_config :=
  with_options [KString "auctions"; KString "live"; KParams params]
    (fun _ => auctions_getLive params) (Some (of_Z 30000)) options.

Definition useRecentAuctions (params : option Hooks.page_params)
  (options : option Hooks.use_query_options) : query_config :=
  with_options [KString "auctions"; KString "recent"; KParams params]
    (fun _ => auctions_getRecent params) None options.

(** useHouses.ts *)
Definition useHouses (params : option house_params)
  (options : option Hooks.use_query_options) : query_config :=
  with_options [KString "houses"; KHouseParams params]
    (fun _ => houses_getAll params) None options.

(** The caller's options say [enabled: false]. *)
Definition switched_off (options : option Hooks.use_query_options) : bool :=
  match options with
  | Some o =>
      match Hooks.opt_enabled o with
      | Value false => true
      | _ => false
      end
  | None => false
  end.

End ListHooks.

(* --------------------------------------------------------------------- *)
(** ** The pages *)
(* --------------------------------------------------------------------- *)

(** What the pages need of JavaScript and of React: the values the
    [&&] of a JSX expression yields and what React shows for them. *)
Module React.
Import Js.

(** What React puts on the page for a child: nothing, a text, an element
    with its children, or a link with its target.  Tags, class names and
    the other attributes are left out; an icon is an element without
    children. *)
#[warnings="-register-all"] Inductive child : Type :=
| nothing
| text (s : string)
| element (children : list child)
| anchor (href : string) (children : list child).

Inductive value : Type :=
| undefined
| boolean (b : bool)
| num (n : number)
| str (s : string)
| jsx (c : child).

Definition truthy (v : value) : bool :=
  match v with
  | undefined => false
  | boolean b => b
  | num n => truthy_number n
  | str s => truthy_string s
  | jsx _ => true
  end.

(** [a && b]: [a] when it is falsy, else [b], which is not evaluated
    before.  [None] stands for a TypeError thrown on the way. *)
Definition and_ (a : value) (b : unit -> option value) : option value :=
  if truthy a then b tt else Some a.

(** An optional field of the response, read. *)
Definition num_field (x : option number) : value :=
  match x with
  | Some n => num n
  | None => undefined
  end.

Definition str_field (x : option string) : value :=
  match x with
  | Some s => str s
  | None => undefined
  end.

Section Browser.
(** [String(n)] for a finite [n] other than zero. *)
Variable digits : number -> string.

(** [String(n)] *)
Definition to_text (n : number) : string :=
  match n with
  | S754_zero _ => "0"
  | S754_nan => "NaN"
  | S754_infinity false => "Infinity"
  | S754_infinity true => "-Infinity"
  | S754_finite _ _ _ => digits n
  end.

(** A value as a child: booleans and [undefined] show nothing, strings
    and numbers show as text. *)
Definition as_child (v : value) : child :=
  match v with
  | undefined => nothing
  | boolean _ => nothing
  | num n => text (to_text n)
  | str s => text s
  | jsx c => c
  end.
End Browser.

(** [x.m()] on an optional field: reading a property of [undefined]
    throws. *)
Definition call {A B : Type} (m : A -> B) (x : option A) : option B :=
  option_map m x.

(** [PaginatedResponse<T>] *)
Record PaginatedResponse (A : Type) : Type := {
  items : list A;
  total : number;
  page : number;
  per_page : number;
  pages : number }.

(** What a page takes of the result of [useQuery]; the error by its
    [message]. *)
Record query_result (A : Type) : Type := {
  data : option (PaginatedResponse A);
  isLoading : bool;
  error : option string }.

(** The four returns of a list page: the three messages and the grid of
    cards. *)
Inductive view : Type :=
| Loading (label : string)
| Failed (label message : string)
| NoItems (label : string)
| Cards (cards : list child).

(** [items.map(card)]; a card that throws ends the rendering. *)
Fixpoint map_cards {A : Type} (card : A -> option child) (l : list A)
  : option (list child) :=
  match l with
  | [] => Some []
  | a :: l' =>
      match card a with
      | None => None
      | Some c =>
          match map_cards card l' with
          | None => None
          | Some cs => Some (c :: cs)
          end
      end
  end.

(** The body the three list pages share: [response?.items || []], then
    the tests on [isLoading], [error] and the length, in this order. *)
Definition list_page {A : Type} (loading failed none : string)
  (card : A -> option child) (r : query_result A) : option view :=
  let items := match data r with Some d => items d | None => [] end in
  if isLoading r then Some (Loading loading)
  else match error r with
       | Some message => Some (Failed failed message)
       | None =>
           match items with
           | [] => Some (NoItems none)
           | _ => option_map Cards (map_cards card items)
           end
       end.

(** A page that renders whatever its query holds, and shows cards
    exactly when the query is not loading, reports no error and holds at
    least one item: then one card for each item. *)
Definition lists_its_items {A : Type} (page : query_result A -> option view) : Prop :=
  forall r : query_result A,
    exists v, page r = Some v
      /\ ((exists cards, v = Cards cards)
          <-> isLoading r = false /\ error r = None
              /\ exists d, data r = Some d /\ items d <> [])
      /\ (forall cards d, v = Cards cards -> data r = Some d ->
            List.length cards = List.length (items d)).

End React.

(** LotsPage *)
Module LotsPage.
Import Js React.

(** What the page reads of a lot. *)
Record Lot : Type := {
  id : number;
  lot_number : string;
  title : string;
  sold : bool;
  artist_name : option string;
  medium : option string;
  dimensions : option string;
  estimated_price_min : option number;
  estimated_price_max : option number;
  final_price : option number;
  description : option string }.

Section Browser.
Variable digits : number -> string.
(** [n.toLocaleString()], which depends on the locale of the browser. *)
Variable toLocaleString : number -> string.

(** [{lot.artist_name && (<div>{lot.artist_name}</div>)}], and the cells
    of [dimensions] and [description] alike. *)
Definition text_cell (x : option string) : option value :=
  and_ (str_field x) (fun _ => Some (jsx (element [as_child digits (str_field x)]))).

(** [{lot.medium && (<div><Tag /><span>{lot.medium}</span></div>)}] *)
Definition medium_cell (lot : Lot) : option value :=
  and_ (str_field (medium lot))
    (fun _ => Some (jsx (element [element [];
                                  element [as_child digits (str_field (medium lot))]]))).

(** [{lot.estimated_price_min && lot.estimated_price_max && (<div>
    Estimación: €{lot.estimated_price_min.toLocaleString()} -
    €{lot.estimated_price_max.toLocaleString()}</div>)}] *)
Definition estimate_cell (lot : Lot) : option value :=
  match and_ (num_field (estimated_price_min lot))
             (fun _ => Some (num_field (estimated_price_max lot))) with
  | None => None
  | Some both =>
      and_ both
        (fun _ =>
           match call toLocaleString (estimated_price_min lot),
                 call toLocaleString (estimated_price_max lot) with
           | Some low, Some high =>
               Some (jsx (element [text "Estimación: €"; text low;
                                   text " - €"; text high]))
           | _, _ => None
           end)
  end.

(** [{lot.final_price && (<div>Precio final:
    €{lot.final_price.toLocaleString()}</div>)}] *)
Definition final_price_cell (lot : Lot) : option value :=
  and_ (num_field (final_price lot))
    (fun _ =>
       match call toLocaleString (final_price lot) with
       | Some price => Some (jsx (element [text "Precio final: €"; text price]))
       | None => None
       end).

(** [<Badge variant={lot.sold ? 'success' : 'secondary'}>
    {lot.sold ? 'Vendido' : 'Disponible'}</Badge>] *)
Definition badge (lot : Lot) : string * string :=
  (if sold lot then "success" else "secondary",
   if sold lot then "Vendido" else "Disponible").

(** [`/lots/${lot.id}`] *)
Definition href (lot : Lot) : string := "/lots/" ++ to_text digits (id lot).

(** The card of a lot: the header with number, title and badge, and the
    content with the cells and the link. *)
Definition card (lot : Lot) : option child :=
  match text_cell (artist_name lot), medium_cell lot, text_cell (dimensions lot),
        estimate_cell lot, final_price_cell lot, text_cell (description lot) with
  | Some artist, Some medium, Some dimensions, Some estimate, Some final,
    Some description =>
      Some (element
              [element
                 [element [element [element [text "Lote "; text (lot_number lot)];
                                    element [text (title lot)]];
                           element [text (snd (badge lot))]]];
               element
                 [element [as_child digits artist;
                           as_child digits medium;
                           as_child digits dimensions;
                           element [as_child digits estimate; as_child digits final];
                           as_child digits description;
                           element [anchor (href lot) [text "Ver Detalles"]]]]])
  | _, _, _, _, _, _ => None
  end.

Definition LotsPage (r : query_result Lot) : option view :=
  list_page "Cargando lotes..." "Error al cargar los lotes: "
    "No se encontraron lotes." card r.

End Browser.

(** [useLots()] *)
Definition query : ListHooks.query_config := ListHooks.useLots None None.

End LotsPage.

(** AuctionsPage *)
Module AuctionsPage.
Import Js React.

(** What the page reads of an auction. *)
Record Auction : Type := {
  id : number;
  title : string;
  status : string;
  house_name : option string;
  start_date : option string;
  location : option string;
  description : option string;
  total_lots : option number;
  total_realized : option number }.

Definition getStatusColor (status : string) : string :=
  if String.eqb status "upcoming" then "primary"
  else if String.eqb status "active" then "success"
  else if String.eqb status "completed" then "secondary"
  else "secondary".

Definition getStatusText (status : string) : string :=
  if String.eqb status "upcoming" then "Próxima"
  else if String.eqb status "active" then "En vivo"
  else if String.eqb status "completed" then "Finalizada"
  else status.

(** [x > 0]; [undefined] turns into NaN, which compares false. *)
Definition positive (x : option number) : bool :=
  match x with
  | Some n => SFltb (S754_zero false) n
  | None => false
  end.

Section Browser.
Variable digits : number -> string.
Variable toLocaleString : number -> string.
(** [new Date(s).toLocaleDateString('es-ES', ...)] *)
Variable toLocaleDateString : string -> string.

Definition text_cell (x : option string) : option value :=
  and_ (str_field x) (fun _ => Some (jsx (element [as_child digits (str_field x)]))).

(** [{auction.start_date && (<div><Calendar /><span>{new
    Date(auction.start_date).toLocaleDateString(...)}</span></div>)}] *)
Definition date_cell (auction : Auction) : option value :=
  and_ (str_field (start_date auction))
    (fun _ =>
       match call toLocaleDateString (start_date auction) with
       | Some day => Some (jsx (element [element []; element [text day]]))
       | None => None
       end).

(** [{auction.location && (<div><MapPin /><span>{auction.location}</span>
    </div>)}] *)
Definition location_cell (auction : Auction) : option value :=
  and_ (str_field (location auction))
    (fun _ => Some (jsx (element [element [];
                                  element [as_child digits (str_field (location auction))]]))).

(** [{auction.total_lots > 0 && (<div>{auction.total_lots} lotes</div>)}] *)
Definition total_lots_cell (auction : Auction) : option value :=
  and_ (boolean (positive (total_lots auction)))
    (fun _ => Some (jsx (element [as_child digits (num_field (total_lots auction));
                                  text " lotes"]))).

(** [{auction.total_realized && (<div>
    €{auction.total_realized.toLocaleString()}</div>)}] *)
Definition total_realized_cell (auction : Auction) : option value :=
  and_ (num_field (total_realized auction))
    (fun _ =>
       match call toLocaleString (total_realized auction) with
       | Some total => Some (jsx (element [text "€"; text total]))
       | None => None
       end).

(** [`/auctions/${auction.id}`] *)
Definition href (auction : Auction) : string :=
  "/auctions/" ++ to_text digits (id auction).

(** The card of an auction: the header with title and badge, and the
    content with the cells, the totals and the link. *)
Definition card (auction : Auction) : option child :=
  match text_cell (house_name auction), date_cell auction, location_cell auction,
        text_cell (description auction), total_lots_cell auction,
        total_realized_cell auction with
  | Some house, Some date, Some location, Some description, Some lots,
    Some realized =>
      Some (element
              [element
                 [element [element [text (title auction)];
                           element [text (getStatusText (status auction))]]];
               element
                 [element [as_child digits house;
                           as_child digits date;
                           as_child digits location;
                           as_child digits description;
                           element [as_child digits lots; as_child digits realized];
                           element [anchor (href auction) [text "Ver Lotes"]]]]])
  | _, _, _, _, _, _ => None
  end.

Definition AuctionsPage (r : query_result Auction) : option view :=
  list_page "Cargando subastas..." "Error al cargar las subastas: "
    "No se encontraron subastas." card r.

End Browser.

(** [useAuctions()] *)
Definition query : ListHooks.query_config := ListHooks.useAuctions None None.

End AuctionsPage.

(** HousesPage *)
Module HousesPage.
Import Js React.

(** What the page reads of a house. *)
Record House : Type := {
  id : number;
  name : string;
  status : option string;
  country : string;
  website : option string;
  description : option string;
  last_scrape : option string }.

Section Browser.
Variable digits : number -> string.
(** [new Date(s).toLocaleDateString('es-ES')] *)
Variable toLocaleDateString : string -> string.

(** [{house.website && (<div><Globe /><a href={house.website}>Sitio web
    </a></div>)}] *)
Definition website_cell (house : House) : option value :=
  and_ (str_field (website house))
    (fun _ =>
       match website house with
       | Some site => Some (jsx (element [element []; anchor site [text "Sitio web"]]))
       | None => None
       end).

(** [{house.description && (<p>{house.description}</p>)}] *)
Definition description_cell (house : House) : option value :=
  and_ (str_field (description house))
    (fun _ => Some (jsx (element [as_child digits (str_field (description house))]))).

(** [{house.last_scrape && (<div>Última actualización: {new
    Date(house.last_scrape).toLocaleDateString('es-ES')}</div>)}] *)
Definition last_scrape_cell (house : House) : option value :=
  and_ (str_field (last_scrape house))
    (fun _ =>
       match call toLocaleDateString (last_scrape house) with
       | Some day => Some (jsx (element [text "Última actualización: "; text day]))
       | None => None
       end).

(** [`/houses/${house.id}`] *)
Definition href (house : House) : string := "/houses/" ++ to_text digits (id house).

(** The card of a house: the header with name and status, and the
    content with the country, the cells and the link. *)
Definition card (house : House) : option child :=
  match website_cell house, description_cell house, last_scrape_cell house with
  | Some website, Some description, Some last =>
      Some (element
              [element
                 [element [element [text (name house)];
                           element [as_child digits (str_field (status house))]]];
               element
                 [element [element [element []; element [text (country house)]];
                           as_child digits website;
                           as_child digits description;
                           element [anchor (href house) [text "Ver Subastas"]];
                           as_child digits last]]])
  | _, _, _ => None
  end.

Definition HousesPage (r : query_result House) : option view :=
  list_page "Cargando casas de subastas..."
    "Error al cargar las casas de subastas: "
    "No se encontraron casas de subastas." card r.

End Browser.

(** [useHouses()] *)
Definition query : ListHooks.query_config := ListHooks.useHouses None None.

End HousesPage.

(** Navigation *)
Module Navigation.

Record item : Type := {
  href : string;
  label : string;
  icon : string }.

Definition navigationItems : list item :=
  [{| href := "/"; label := "Home"; icon := "Home" |};
   {| href := "/houses"; label := "Auction Houses"; icon := "Building2" |};
   {| href := "/auctions"; label := "Auctions"; icon := "Hammer" |};
   {| href := "/lots"; label := "Artworks"; icon := "Palette" |};
   {| href := "/search"; label := "Search"; icon := "Search" |};
   {| href := "/analytics"; label := "Analytics"; icon := "BarChart3" |}].

(** A [<Link>] of the bar. *)
Record link : Type := {
  key : string;
  to : string;
  className : string;
  shows : string }.

(** The links of the desktop bar for the path [usePathname()] gives. *)
Definition desktop (pathname : string) : list link :=
  map (fun i =>
         {| key := href i;
            to := href i;
            className :=
              "inline-flex items-center px-1 pt-1 border-b-2 text-sm font-medium "
              ++ (if String.eqb pathname (href i)
                  then "border-blue-500 text-gray-900"
                  else "border-transparent text-gray-500 hover:border-gray-300 hover:text-gray-700");
            shows := label i |})
    navigationItems.

(** The links of the mobile menu. *)
Definition mobile (pathname : string) : list link :=
  map (fun i =>
         {| key := href i;
            to := href i;
            className :=
              "block pl-3 pr-4 py-2 border-l-4 text-base font-medium "
              ++ (if String.eqb pathname (href i)
                  then "bg-blue-50 border-blue-500 text-blue-700"
                  else "border-transparent text-gray-500 hover:bg-gray-50 hover:border-gray-300 hover:text-gray-700");
            shows := label i |})
    navigationItems.

(** The class names of the link of the current page. *)
Definition desktop_current : string :=
  "inline-flex items-center px-1 pt-1 border-b-2 text-sm font-medium border-blue-500 text-gray-900".

Definition mobile_current : string :=
  "block pl-3 pr-4 py-2 border-l-4 text-base font-medium bg-blue-50 border-blue-500 text-blue-700".

(** The items whose target is the path. *)
Definition at_path (pathname : string) : list item :=
  filter (fun i => String.eqb pathname (href i)) navigationItems.

(** The links shown as current. *)
Definition current (class : string) (links : list link) : list link :=
  filter (fun l => String.eqb (className l) class) links.

End Navigation.

(* --------------------------------------------------------------------- *)
(** ** PostgreSQL: rows, constraints and single-row statements *)
(* --------------------------------------------------------------------- *)

(** The part of the database engine the migration relies on.  A table is
    the list of its rows in insertion order together with the state of
    the sequence behind its SERIAL key.  A statement is atomic: it is
    applied whole or rejected whole.  REFERENCES clauses are outside the
    model; they can only reject further statements. *)
Module Sql.

(** TIMESTAMP values, as seconds on some clock. *)
Definition timestamp : Type := Z.

(** DECIMAL(p,2) values, as a count of hundredths. *)
Definition decimal : Type := Z.

(** A column holds a value or NULL ([None]). *)

(** NOT NULL *)
Definition not_null {A : Type} (v : option A) : bool :=
  match v with
  | None => false
  | Some _ => true
  end.

(** VARCHAR(n): a longer string is an error; NULL passes.  The length is
    counted in the characters of the model, where a string literal has
    one for each of its bytes, so that a letter outside ASCII counts for
    more than one.  PostgreSQL also takes a string whose excess is
    spaces, cut to [n]; such a value is refused here. *)
Definition varchar (n : nat) (v : option string) : bool :=
  match v with
  | None => true
  | Some s => (String.length s <=? n)%nat
  end.

(** CHECK (col IN (...)): NULL passes, as the test is then unknown. *)
Definition one_of (allowed : list string) (v : option string) : bool :=
  match v with
  | None => true
  | Some s => existsb (String.eqb s) allowed
  end.

(** INTEGER: 32 bits, signed. *)
Definition integer (v : option Z) : bool :=
  match v with
  | None => true
  | Some z => ((-2147483648 <=? z) && (z <=? 2147483647))%Z
  end.

(** DECIMAL(p,2): at most [p] digits, two of them after the point. *)
Definition numeric (p : nat) (v : option decimal) : bool :=
  match v with
  | None => true
  | Some z => (Z.abs z <? 10 ^ Z.of_nat p)%Z
  end.

(** DEFAULT d, for a column the INSERT leaves out. *)
Definition default {A : Type} (d : A) (v : option A) : option A :=
  match v with
  | None => Some d
  | Some _ => v
  end.

(** What a CREATE TABLE fixes for the engine. *)
Record schema (Row Key : Type) : Type := {
  (** id SERIAL PRIMARY KEY *)
  row_id : Row -> nat;
  (** the columns of UNIQUE(...), [None] when one of them is NULL or the
      table has no UNIQUE clause: NULLs never collide *)
  unique_key : Row -> option Key;
  key_eqb : Key -> Key -> bool;
  key_eqb_eq : forall k k', key_eqb k k' = true <-> k = k';
  (** NOT NULL, CHECK and the bounds of the column types *)
  constraints : Row -> bool;
  (** the row an INSERT builds: id from the sequence, DEFAULTs for the
      columns left out *)
  complete : nat -> timestamp -> Row -> Row;
  complete_id : forall i now v, row_id (complete i now v) = i;
  (** BEFORE UPDATE ... FOR EACH ROW trigger, the identity without one;
      the triggers of the migration leave id and key columns alone *)
  before_update : timestamp -> Row -> Row;
  before_update_id : forall now r, row_id (before_update now r) = row_id r;
  before_update_key : forall now r, unique_key (before_update now r) = unique_key r }.

Record table (Row : Type) : Type := {
  rows : list Row;
  next_id : nat }.

(** A sequence starts at 1. *)
Definition empty (Row : Type) : table Row := {| rows := []; next_id := 1 |}.

Inductive violation : Type :=
| constraint_violation
| primary_key_violation
| unique_violation.

Inductive outcome (Row : Type) : Type :=
| Inserted (r : Row)
| Updated (r : Row)
| NoRow
| Rejected (v : violation).
Arguments NoRow {Row}.
Arguments Rejected {Row} v.

Section Engine.
Variables Row Key : Type.
Variable sch : schema Row Key.

Definition has_id (i : nat) (r : Row) : bool := (row_id sch r =? i)%nat.

Definition has_key (k : Key) (r : Row) : bool :=
  match unique_key sch r with
  | Some k' => key_eqb sch k k'
  | None => false
  end.

Definition key_taken (k : option Key) (rs : list Row) : bool :=
  match k with
  | None => false
  | Some k => existsb (has_key k) rs
  end.

(** The checks on a new or changed row against the other rows. *)
Definition vet (r : Row) (others : list Row) : option violation :=
  if negb (constraints sch r) then Some constraint_violation
  else if existsb (has_id (row_id sch r)) others then Some primary_key_violation
  else if key_taken (unique_key sch r) others then Some unique_violation
  else None.

(** INSERT INTO t (...) VALUES (...).  [values] gives the listed columns;
    a column at [None] is one the statement leaves out, which takes its
    DEFAULT, or NULL without one.  The id of [values] is not read.  A
    refused INSERT moves the sequence like an accepted one, as
    PostgreSQL does when a CHECK, a NOT NULL or a key refuses the row;
    when a value does not fit the type of its column PostgreSQL may
    refuse before it draws from the sequence, which is not told apart
    here. *)
Definition sql_insert (now : timestamp) (values : Row) (t : table Row)
  : table Row * outcome Row :=
  let r := complete sch (next_id t) now values in
  match vet r (rows t) with
  | Some v => ({| rows := rows t; next_id := S (next_id t) |}, Rejected v)
  | None => ({| rows := rows t ++ [r]; next_id := S (next_id t) |}, Inserted r)
  end.

(** The first row with id [i], and the rows before and after it. *)
Fixpoint split_at (i : nat) (l : list Row) : option (list Row * Row * list Row) :=
  match l with
  | [] => None
  | r :: l' =>
      if has_id i r then Some ([], r, l')
      else match split_at i l' with
           | Some (before, x, after) => Some (r :: before, x, after)
           | None => None
           end
  end.

(** UPDATE t SET ... WHERE id = i.  [set] is the SET clause; the trigger
    runs on its result, then the row is checked. *)
Definition sql_update (now : timestamp) (i : nat) (set : Row -> Row) (t : table Row)
  : table Row * outcome Row :=
  match split_at i (rows t) with
  | None => (t, NoRow)
  | Some (before, r, after) =>
      let r' := before_update sch now (set r) in
      match vet r' (before ++ after) with
      | Some v => (t, Rejected v)
      | None => ({| rows := before ++ r' :: after; next_id := next_id t |}, Updated r')
      end
  end.

Inductive statement : Type :=
| INSERT (values : Row)
| UPDATE (id : nat) (set : Row -> Row).

Definition execute (now : timestamp) (s : statement) (t : table Row)
  : table Row * outcome Row :=
  match s with
  | INSERT values => sql_insert now values t
  | UPDATE i set => sql_update now i set t
  end.

(** Statements applied one after the other, each at its own time, whoever
    issued them: every interleaving of the statements of several
    sessions is such a list. *)
Fixpoint execute_all (ss : list (timestamp * statement)) (t : table Row) : table Row :=
  match ss with
  | [] => t
  | (now, s) :: ss' => execute_all ss' (fst (execute now s t))
  end.

(** SELECT ... WHERE (unique columns) = k *)
Definition select_by_key (k : Key) (t : table Row) : option Row :=
  find (has_key k) (rows t).

(** The rows carrying key [k]. *)
Definition with_key (k : Key) (t : table Row) : list Row :=
  filter (has_key k) (rows t).

(** Every id of the table was handed out by its sequence. *)
Definition ids_issued (t : table Row) : Prop :=
  Forall (fun r => row_id sch r < next_id t) (rows t).

Definition ids_unique (t : table Row) : Prop :=
  NoDup (map (row_id sch) (rows t)).

Definition keys_unique (t : table Row) : Prop :=
  forall k, List.length (with_key k t) <= 1.

Definition rows_valid (t : table Row) : Prop :=
  Forall (fun r => constraints sch r = true) (rows t).

(** What the constraints promise of every table. *)
Record sound (t : table Row) : Prop := {
  s_ids : ids_unique t;
  s_keys : keys_unique t;
  s_valid : rows_valid t }.

(** A sound table whose ids all come from its sequence, as when no
    statement ever wrote an id. *)
Record consistent (t : table Row) : Prop := {
  c_sound : sound t;
  c_issued : ids_issued t }.

(** Insert-or-update on the UNIQUE key [k]: one read by key, then one
    statement, in one transaction.  [values] are the columns of the
    INSERT, [set] is the SET clause of the UPDATE. *)
Definition upsert (now : timestamp) (k : Key) (values : Row) (set : Row -> Row)
  (t : table Row) : table Row * outcome Row :=
  match select_by_key k t with
  | None => sql_insert now values t
  | Some r => sql_update now (row_id sch r) set t
  end.

End Engine.

End Sql.

(** Statements that leave the id of a row to its sequence. *)
Module Statements.
Import Sql.

Section Statements.
Variables Row Key : Type.
Variable sch : schema Row Key.



(** The ids of a table, in the order of its rows. *)
Definition ids (t : table Row) : list nat := map (row_id sch) (rows t).


End Statements.

End Statements.

(* --------------------------------------------------------------------- *)
(** ** The tables of the initial migration *)
(* --------------------------------------------------------------------- *)

(** Keys of the two UNIQUE clauses: an id and a string. *)
Definition pair_eqb (k k' : nat * string) : bool :=
  (fst k =? fst k')%nat && String.eqb (snd k) (snd k').

Lemma pair_eqb_eq (k k' : nat * string) : pair_eqb k k' = true <-> k = k'.
Proof.
  destruct k as [n s], k' as [n' s']; unfold pair_eqb; simpl.
  rewrite andb_true_iff, Nat.eqb_eq, String.eqb_eq.
  split; [intros [-> ->]; reflexivity | intros [= -> ->]; split; reflexivity].
Qed.

Lemma unit_eqb_eq (k k' : unit) : true = true <-> k = k'.
Proof. destruct k, k'; split; reflexivity. Qed.

(** CREATE TABLE artists *)
Module Artists.
Import Sql.

Record row : Type := {
  id : nat;
  name : option string;
  birth_year : option Z;
  death_year : option Z;
  nationality : option string;
  movement : option string;
  biography : option string;
  verified : option bool;
  created_at : option timestamp;
  updated_at : option timestamp }.

Definition constraints (r : row) : bool :=
  not_null (name r) && varchar 300 (name r)
  && integer (birth_year r)
  && integer (death_year r)
  && varchar 100 (nationality r)
  && varchar 100 (movement r).

Definition complete (i : nat) (now : timestamp) (v : row) : row :=
  {| id := i;
     name := name v;
     birth_year := birth_year v;
     death_year := death_year v;
     nationality := nationality v;
     movement := movement v;
     biography := biography v;
     verified := default false (verified v);
     created_at := default now (created_at v);
     updated_at := default now (updated_at v) |}.

(** update_artists_updated_at: NEW.updated_at = NOW() *)
Definition update_updated_at_column (now : timestamp) (r : row) : row :=
  {| id := id r;
     name := name r;
     birth_year := birth_year r;
     death_year := death_year r;
     nationality := nationality r;
     movement := movement r;
     biography := biography r;
     verified := verified r;
     created_at := created_at r;
     updated_at := Some now |}.

Definition schema : Sql.schema row unit :=
  {| row_id := id;
     unique_key := fun _ => None;
     key_eqb := fun _ _ => true;
     key_eqb_eq := unit_eqb_eq;
     Sql.constraints := constraints;
     Sql.complete := complete;
     complete_id := fun _ _ _ => eq_refl;
     before_update := update_updated_at_column;
     before_update_id := fun _ _ => eq_refl;
     before_update_key := fun _ _ => eq_refl |}.

End Artists.

(** CREATE TABLE auctions *)
Module Auctions.
Import Sql.

Record row : Type := {
  id : nat;
  house_id : option nat;
  title : option string;
  description : option string;
  start_date : option timestamp;
  end_date : option timestamp;
  exhibition_start : option timestamp;
  exhibition_end : option timestamp;
  status : option string;
  location : option string;
  auction_type : option string;
  slug : option string;
  external_id : option string;
  total_lots : option Z;
  total_estimate_min : option decimal;
  total_estimate_max : option decimal;
  total_realized : option decimal;
  currency : option string;
  sale_rate : option decimal;
  created_at : option timestamp;
  updated_at : option timestamp }.

Definition constraints (r : row) : bool :=
  not_null (house_id r)
  && not_null (title r) && varchar 500 (title r)
  && varchar 20 (status r)
  && one_of ["upcoming"; "active"; "completed"; "cancelled"] (status r)
  && varchar 200 (location r)
  && varchar 50 (auction_type r)
  && one_of ["live"; "online"; "hybrid"] (auction_type r)
  && varchar 300 (slug r)
  && varchar 100 (external_id r)
  && integer (total_lots r)
  && numeric 15 (total_estimate_min r)
  && numeric 15 (total_estimate_max r)
  && numeric 15 (total_realized r)
  && varchar 3 (currency r)
  && numeric 5 (sale_rate r).

Definition complete (i : nat) (now : timestamp) (v : row) : row :=
  {| id := i;
     house_id := house_id v;
     title := title v;
     description := description v;
     start_date := start_date v;
     end_date := end_date v;
     exhibition_start := exhibition_start v;
     exhibition_end := exhibition_end v;
     status := default "upcoming" (status v);
     location := location v;
     auction_type := default "live" (auction_type v);
     slug := slug v;
     external_id := external_id v;
     total_lots := default 0%Z (total_lots v);
     total_estimate_min := total_estimate_min v;
     total_estimate_max := total_estimate_max v;
     total_realized := total_realized v;
     currency := default "USD" (currency v);
     sale_rate := sale_rate v;
     created_at := default now (created_at v);
     updated_at := default now (updated_at v) |}.

(** update_auctions_updated_at: NEW.updated_at = NOW() *)
Definition update_updated_at_column (now : timestamp) (r : row) : row :=
  {| id := id r;
     house_id := house_id r;
     title := title r;
     description := description r;
     start_date := start_date r;
     end_date := end_date r;
     exhibition_start := exhibition_start r;
     exhibition_end := exhibition_end r;
     status := status r;
     location := location r;
     auction_type := auction_type r;
     slug := slug r;
     external_id := external_id r;
     total_lots := total_lots r;
     total_estimate_min := total_estimate_min r;
     total_estimate_max := total_estimate_max r;
     total_realized := total_realized r;
     currency := currency r;
     sale_rate := sale_rate r;
     created_at := created_at r;
     updated_at := Some now |}.

(** UNIQUE(house_id, external_id) *)
Definition natural_key (r : row) : option (nat * string) :=
  match house_id r, external_id r with
  | Some h, Some e => Some (h, e)
  | _, _ => None
  end.

Definition schema : Sql.schema row (nat * string) :=
  {| row_id := id;
     unique_key := natural_key;
     key_eqb := pair_eqb;
     key_eqb_eq := pair_eqb_eq;
     Sql.constraints := constraints;
     Sql.complete := complete;
     complete_id := fun _ _ _ => eq_refl;
     before_update := update_updated_at_column;
     before_update_id := fun _ _ => eq_refl;
     before_update_key := fun _ _ => eq_refl |}.

End Auctions.

(** CREATE TABLE lots *)
Module Lots.
Import Sql.

Record row : Type := {
  id : nat;
  auction_id : option nat;
  lot_number : option string;
  title : option string;
  description : option string;
  artist_id : option nat;
  category_id : option nat;
  estimated_price_min : option decimal;
  estimated_price_max : option decimal;
  final_price : option decimal;
  hammer_price : option decimal;
  buyers_premium : option decimal;
  currency : option string;
  sold : option bool;
  (** JSONB, as its text *)
  images : option string;
  dimensions : option string;
  medium : option string;
  provenance : option string;
  exhibition_history : option string;
  literature : option string;
  condition_report : option string;
  signature : option string;
  external_id : option string;
  external_url : option string;
  created_at : option timestamp;
  updated_at : option timestamp }.

Definition constraints (r : row) : bool :=
  not_null (auction_id r)
  && not_null (lot_number r) && varchar 50 (lot_number r)
  && not_null (title r) && varchar 500 (title r)
  && numeric 12 (estimated_price_min r)
  && numeric 12 (estimated_price_max r)
  && numeric 12 (final_price r)
  && numeric 12 (hammer_price r)
  && numeric 12 (buyers_premium r)
  && varchar 3 (currency r)
  && varchar 200 (dimensions r)
  && varchar 200 (medium r)
  && varchar 100 (external_id r)
  && varchar 500 (external_url r).

Definition complete (i : nat) (now : timestamp) (v : row) : row :=
  {| id := i;
     auction_id := auction_id v;
     lot_number := lot_number v;
     title := title v;
     description := description v;
     artist_id := artist_id v;
     category_id := category_id v;
     estimated_price_min := estimated_price_min v;
     estimated_price_max := estimated_price_max v;
     final_price := final_price v;
     hammer_price := hammer_price v;
     buyers_premium := buyers_premium v;
     currency := default "USD" (currency v);
     sold := default false (sold v);
     images := default "[]" (images v);
     dimensions := dimensions v;
     medium := medium v;
     provenance := provenance v;
     exhibition_history := exhibition_history v;
     literature := literature v;
     condition_report := condition_report v;
     signature := signature v;
     external_id := external_id v;
     external_url := external_url v;
     created_at := default now (created_at v);
     updated_at := default now (updated_at v) |}.

(** update_lots_updated_at: NEW.updated_at = NOW() *)
Definition update_updated_at_column (now : timestamp) (r : row) : row :=
  {| id := id r;
     auction_id := auction_id r;
     lot_number := lot_number r;
     title := title r;
     description := description r;
     artist_id := artist_id r;
     category_id := category_id r;
     estimated_price_min := estimated_price_min r;
     estimated_price_max := estimated_price_max r;
     final_price := final_price r;
     hammer_price := hammer_price r;
     buyers_premium := buyers_premium r;
     currency := currency r;
     sold := sold r;
     images := images r;
     dimensions := dimensions r;
     medium := medium r;
     provenance := provenance r;
     exhibition_history := exhibition_history r;
     literature := literature r;
     condition_report := condition_report r;
     signature := signature r;
     external_id := external_id r;
     external_url := external_url r;
     created_at := created_at r;
     updated_at := Some now |}.

(** UNIQUE(auction_id, lot_number) *)
Definition natural_key (r : row) : option (nat * string) :=
  match auction_id r, lot_number r with
  | Some a, Some n => Some (a, n)
  | _, _ => None
  end.

Definition schema : Sql.schema row (nat * string) :=
  {| row_id := id;
     unique_key := natural_key;
     key_eqb := pair_eqb;
     key_eqb_eq := pair_eqb_eq;
     Sql.constraints := constraints;
     Sql.complete := complete;
     complete_id := fun _ _ _ => eq_refl;
     before_update := update_updated_at_column;
     before_update_id := fun _ _ => eq_refl;
     before_update_key := fun _ _ => eq_refl |}.

End Lots.

(** CREATE TABLE scraping_logs *)
Module ScrapingLogs.
Import Sql.

Record row : Type := {
  id : nat;
  house_id : option nat;
  (** 'auctions', 'lots', 'full' *)
  task_type : option string;
  status : option string;
  start_time : option timestamp;
  end_time : option timestamp;
  items_processed : option Z;
  items_created : option Z;
  items_updated : option Z;
  error_message : option string;
  (** JSONB, as its text *)
  metadata : option string }.

(** The values of the CHECK on [status]. *)
Definition statuses : list string := ["started"; "completed"; "failed"; "cancelled"].

Definition constraints (r : row) : bool :=
  not_null (task_type r) && varchar 50 (task_type r)
  && not_null (status r) && varchar 20 (status r)
  && one_of statuses (status r)
  && integer (items_processed r)
  && integer (items_created r)
  && integer (items_updated r).

Definition complete (i : nat) (now : timestamp) (v : row) : row :=
  {| id := i;
     house_id := house_id v;
     task_type := task_type v;
     status := status v;
     start_time := default now (start_time v);
     end_time := end_time v;
     items_processed := default 0%Z (items_processed v);
     items_created := default 0%Z (items_created v);
     items_updated := default 0%Z (items_updated v);
     error_message := error_message v;
     metadata := default "{}" (metadata v) |}.

(** No trigger is declared on this table. *)
Definition schema : Sql.schema row unit :=
  {| row_id := id;
     unique_key := fun _ => None;
     key_eqb := fun _ _ => true;
     key_eqb_eq := unit_eqb_eq;
     Sql.constraints := constraints;
     Sql.complete := complete;
     complete_id := fun _ _ _ => eq_refl;
     before_update := fun _ r => r;
     before_update_id := fun _ _ => eq_refl;
     before_update_key := fun _ _ => eq_refl |}.

(** SET status = s *)
Definition set_status (s : string) (r : row) : row :=
  {| id := id r;
     house_id := house_id r;
     task_type := task_type r;
     status := Some s;
     start_time := start_time r;
     end_time := end_time r;
     items_processed := items_processed r;
     items_created := items_created r;
     items_updated := items_updated r;
     error_message := error_message r;
     metadata := metadata r |}.

(** INSERT INTO scraping_logs (house_id, task_type, status) VALUES (...) *)
Definition started_values (house : option nat) (task status : string) : row :=
  {| id := 0; house_id := house; task_type := Some task; status := Some status;
     start_time := None; end_time := None; items_processed := None;
     items_created := None; items_updated := None; error_message := None;
     metadata := None |}.

(** The states the specification lists for a scrape job. *)
Definition spec_states : list string :=
  ["pending"; "running"; "completed"; "failed"; "cancelled"].

End ScrapingLogs.

(** Keys of UNIQUE(name, country): two strings. *)
Definition names_eqb (k k' : string * string) : bool :=
  String.eqb (fst k) (fst k') && String.eqb (snd k) (snd k').

Lemma names_eqb_eq (k k' : string * string) : names_eqb k k' = true <-> k = k'.
Proof.
  destruct k as [n c], k' as [n' c']; unfold names_eqb; simpl.
  rewrite andb_true_iff, !String.eqb_eq.
  split; [intros [-> ->]; reflexivity | intros [= -> ->]; split; reflexivity].
Qed.

(** CREATE TABLE auction_houses *)
Module AuctionHouses.
Import Sql.

Record row : Type := {
  id : nat;
  name : option string;
  country : option string;
  website : option string;
  description : option string;
  (** JSONB, as its text *)
  scraping_config : option string;
  last_scrape : option timestamp;
  status : option string;
  created_at : option timestamp;
  updated_at : option timestamp }.

Definition constraints (r : row) : bool :=
  not_null (name r) && varchar 255 (name r)
  && not_null (country r) && varchar 100 (country r)
  && not_null (website r) && varchar 500 (website r)
  && varchar 20 (status r)
  && one_of ["active"; "inactive"; "maintenance"] (status r).

Definition complete (i : nat) (now : timestamp) (v : row) : row :=
  {| id := i;
     name := name v;
     country := country v;
     website := website v;
     description := description v;
     scraping_config := default "{}" (scraping_config v);
     last_scrape := last_scrape v;
     status := default "active" (status v);
     created_at := default now (created_at v);
     updated_at := default now (updated_at v) |}.

(** update_auction_houses_updated_at: NEW.updated_at = NOW() *)
Definition update_updated_at_column (now : timestamp) (r : row) : row :=
  {| id := id r;
     name := name r;
     country := country r;
     website := website r;
     description := description r;
     scraping_config := scraping_config r;
     last_scrape := last_scrape r;
     status := status r;
     created_at := created_at r;
     updated_at := Some now |}.

(** UNIQUE(name, country) *)
Definition natural_key (r : row) : option (string * string) :=
  match name r, country r with
  | Some n, Some c => Some (n, c)
  | _, _ => None
  end.

Definition schema : Sql.schema row (string * string) :=
  {| row_id := id;
     unique_key := natural_key;
     key_eqb := names_eqb;
     key_eqb_eq := names_eqb_eq;
     Sql.constraints := constraints;
     Sql.complete := complete;
     complete_id := fun _ _ _ => eq_refl;
     before_update := update_updated_at_column;
     before_update_id := fun _ _ => eq_refl;
     before_update_key := fun _ _ => eq_refl |}.

(** INSERT INTO auction_houses (name, country, website) VALUES (...) *)
Definition listed (n c w : string) : row :=
  {| id := 0; name := Some n; country := Some c; website := Some w;
     description := None; scraping_config := None; last_scrape := None;
     status := None; created_at := None; updated_at := None |}.

(** SET updated_at = stamp *)
Definition set_updated_at (stamp : timestamp) (r : row) : row :=
  {| id := id r;
     name := name r;
     country := country r;
     website := website r;
     description := description r;
     scraping_config := scraping_config r;
     last_scrape := last_scrape r;
     status := status r;
     created_at := created_at r;
     updated_at := Some stamp |}.

End AuctionHouses.

(** CREATE TABLE categories *)
Module Categories.
Import Sql.

Record row : Type := {
  id : nat;
  name : option string;
  parent_category_id : option nat;
  level : option Z;
  description : option string;
  created_at : option timestamp }.

Definition constraints (r : row) : bool :=
  not_null (name r) && varchar 200 (name r)
  && integer (level r).

Definition complete (i : nat) (now : timestamp) (v : row) : row :=
  {| id := i;
     name := name v;
     parent_category_id := parent_category_id v;
     level := default 0%Z (level v);
     description := description v;
     created_at := default now (created_at v) |}.

(** UNIQUE(name, parent_category_id), as the pair of the parent and the
    name; a category without a parent has no key. *)
Definition natural_key (r : row) : option (nat * string) :=
  match parent_category_id r, name r with
  | Some p, Some n => Some (p, n)
  | _, _ => None
  end.

(** No trigger is declared on this table. *)
Definition schema : Sql.schema row (nat * string) :=
  {| row_id := id;
     unique_key := natural_key;
     key_eqb := pair_eqb;
     key_eqb_eq := pair_eqb_eq;
     Sql.constraints := constraints;
     Sql.complete := complete;
     complete_id := fun _ _ _ => eq_refl;
     before_update := fun _ r => r;
     before_update_id := fun _ _ => eq_refl;
     before_update_key := fun _ _ => eq_refl |}.

(** A category without a parent, as the seed inserts them:
    [(name, NULL, 0)]. *)
Definition root (n : string) : row :=
  {| id := 0; name := Some n; parent_category_id := None; level := Some 0%Z;
     description := None; created_at := None |}.

End Categories.

(* --------------------------------------------------------------------- *)
(** ** Normalizer and upsert engine *)
(* --------------------------------------------------------------------- *)

(** The backend package ([backend/app/scraping]) is not among the sources
    at hand: the functions [save_auction] and [save_lots] the task calls
    and the artist resolution are written from the specification, on top
    of the statements of the schema above. *)
Module Pipeline.
Import Sql.

Section Artist.

(** The normalisation of names, which the specification leaves open. *)
Variable normalize : string -> string.

Definition named (n : string) (r : Artists.row) : bool :=
  match Artists.name r with
  | Some s => String.eqb s n
  | None => false
  end.

Inductive resolution : Type :=
| Resolved (r : Artists.row)
| Fresh (r : Artists.row)
| Refused (v : violation).

(** Modelled from the spec: the artist resolution of the Normalizer, whose
    code is missing.  "Exact normalized-name match against existing
    records; otherwise create an unverified Artist": the first record
    whose name is the normalized name is taken, and without one
    INSERT INTO artists (name) VALUES (...) runs, which leaves [verified]
    to the DEFAULT of the column. *)
Definition resolve_artist (now : timestamp) (raw : string) (t : table Artists.row)
  : table Artists.row * resolution :=
  let n := normalize raw in
  match find (named n) (rows t) with
  | Some r => (t, Resolved r)
  | None =>
      let values :=
        {| Artists.id := 0; Artists.name := Some n; Artists.birth_year := None;
           Artists.death_year := None; Artists.nationality := None;
           Artists.movement := None; Artists.biography := None;
           Artists.verified := None; Artists.created_at := None;
           Artists.updated_at := None |} in
      match sql_insert Artists.schema now values t with
      | (t', Inserted r) => (t', Fresh r)
      | (t', Rejected v) => (t', Refused v)
      | (t', _) => (t', Refused constraint_violation)
      end
  end.

End Artist.

(** A canonical auction on its way into the store: the natural key and
    the fields a re-scrape overwrites (title, dates, status, totals). *)
Record auction_candidate : Type := {
  house_id : nat;
  external_id : string;
  title : string;
  start_date : option timestamp;
  end_date : option timestamp;
  exhibition_start : option timestamp;
  exhibition_end : option timestamp;
  status : option string;
  total_lots : option Z;
  total_estimate_min : option decimal;
  total_estimate_max : option decimal;
  total_realized : option decimal }.

(** INSERT INTO auctions (house_id, external_id, title, ...) VALUES (...) *)
Definition auction_values (c : auction_candidate) : Auctions.row :=
  {| Auctions.id := 0;
     Auctions.house_id := Some (house_id c);
     Auctions.title := Some (title c);
     Auctions.description := None;
     Auctions.start_date := start_date c;
     Auctions.end_date := end_date c;
     Auctions.exhibition_start := exhibition_start c;
     Auctions.exhibition_end := exhibition_end c;
     Auctions.status := status c;
     Auctions.location := None;
     Auctions.auction_type := None;
     Auctions.slug := None;
     Auctions.external_id := Some (external_id c);
     Auctions.total_lots := total_lots c;
     Auctions.total_estimate_min := total_estimate_min c;
     Auctions.total_estimate_max := total_estimate_max c;
     Auctions.total_realized := total_realized c;
     Auctions.currency := None;
     Auctions.sale_rate := None;
     Auctions.created_at := None;
     Auctions.updated_at := None |}.

(** A column of the SET clause.  A field the candidate carries is
    written; one it does not carry is not in the clause, as it is not
    among the columns of the INSERT, and the column stays as it is. *)
Definition carried {A : Type} (new old : option A) : option A :=
  match new with
  | Some _ => new
  | None => old
  end.

(** Modelled from the spec: "overwrite only the designated mutable
    fields" (title, dates, status, totals), as
    UPDATE auctions SET title = ..., start_date = ..., ... over the
    mutable fields the candidate carries. *)
Definition auction_set (c : auction_candidate) (r : Auctions.row) : Auctions.row :=
  {| Auctions.id := Auctions.id r;
     Auctions.house_id := Auctions.house_id r;
     Auctions.title := Some (title c);
     Auctions.description := Auctions.description r;
     Auctions.start_date := carried (start_date c) (Auctions.start_date r);
     Auctions.end_date := carried (end_date c) (Auctions.end_date r);
     Auctions.exhibition_start :=
       carried (exhibition_start c) (Auctions.exhibition_start r);
     Auctions.exhibition_end := carried (exhibition_end c) (Auctions.exhibition_end r);
     Auctions.status := carried (status c) (Auctions.status r);
     Auctions.location := Auctions.location r;
     Auctions.auction_type := Auctions.auction_type r;
     Auctions.slug := Auctions.slug r;
     Auctions.external_id := Auctions.external_id r;
     Auctions.total_lots := carried (total_lots c) (Auctions.total_lots r);
     Auctions.total_estimate_min :=
       carried (total_estimate_min c) (Auctions.total_estimate_min r);
     Auctions.total_estimate_max :=
       carried (total_estimate_max c) (Auctions.total_estimate_max r);
     Auctions.total_realized :=
       carried (total_realized c) (Auctions.total_realized r);
     Auctions.currency := Auctions.currency r;
     Auctions.sale_rate := Auctions.sale_rate r;
     Auctions.created_at := Auctions.created_at r;
     Auctions.updated_at := Auctions.updated_at r |}.

(** The column constraints on what the candidate brings. *)
Definition auction_candidate_ok (c : auction_candidate) : bool :=
  varchar 500 (Some (title c))
  && varchar 100 (Some (external_id c))
  && varchar 20 (status c)
  && one_of ["upcoming"; "active"; "completed"; "cancelled"] (status c)
  && integer (total_lots c)
  && numeric 15 (total_estimate_min c)
  && numeric 15 (total_estimate_max c)
  && numeric 15 (total_realized c).

(** Modelled from the spec: the Upsert Engine for auctions, whose code is
    missing.  "If no existing record matches the natural key, insert and
    report created; otherwise overwrite only the designated mutable
    fields and report updated."  The outcome [Inserted] is the report
    "created", [Updated] the report "updated"; [Rejected] is the error
    the database raises. *)
Definition upsert_auction (now : timestamp) (c : auction_candidate)
  (t : table Auctions.row) : table Auctions.row * outcome Auctions.row :=
  upsert Auctions.schema now (house_id c, external_id c)
    (auction_values c) (auction_set c) t.

(** A canonical lot on its way into the store. *)
Record lot_candidate : Type := {
  auction_id : nat;
  lot_number : string;
  lot_title : string;
  description : option string;
  estimated_price_min : option decimal;
  estimated_price_max : option decimal;
  images : option string }.

Definition lot_values (c : lot_candidate) : Lots.row :=
  {| Lots.id := 0;
     Lots.auction_id := Some (auction_id c);
     Lots.lot_number := Some (lot_number c);
     Lots.title := Some (lot_title c);
     Lots.description := description c;
     Lots.artist_id := None;
     Lots.category_id := None;
     Lots.estimated_price_min := estimated_price_min c;
     Lots.estimated_price_max := estimated_price_max c;
     Lots.final_price := None;
     Lots.hammer_price := None;
     Lots.buyers_premium := None;
     Lots.currency := None;
     Lots.sold := None;
     Lots.images := images c;
     Lots.dimensions := None;
     Lots.medium := None;
     Lots.provenance := None;
     Lots.exhibition_history := None;
     Lots.literature := None;
     Lots.condition_report := None;
     Lots.signature := None;
     Lots.external_id := None;
     Lots.external_url := None;
     Lots.created_at := None;
     Lots.updated_at := None |}.

(** Modelled from the spec: the SET clause of a lot, over the mutable
    fields the candidate carries. *)
Definition lot_set (c : lot_candidate) (r : Lots.row) : Lots.row :=
  {| Lots.id := Lots.id r;
     Lots.auction_id := Lots.auction_id r;
     Lots.lot_number := Lots.lot_number r;
     Lots.title := Some (lot_title c);
     Lots.description := carried (description c) (Lots.description r);
     Lots.artist_id := Lots.artist_id r;
     Lots.category_id := Lots.category_id r;
     Lots.estimated_price_min :=
       carried (estimated_price_min c) (Lots.estimated_price_min r);
     Lots.estimated_price_max :=
       carried (estimated_price_max c) (Lots.estimated_price_max r);
     Lots.final_price := Lots.final_price r;
     Lots.hammer_price := Lots.hammer_price r;
     Lots.buyers_premium := Lots.buyers_premium r;
     Lots.currency := Lots.currency r;
     Lots.sold := Lots.sold r;
     Lots.images := carried (images c) (Lots.images r);
     Lots.dimensions := Lots.dimensions r;
     Lots.medium := Lots.medium r;
     Lots.provenance := Lots.provenance r;
     Lots.exhibition_history := Lots.exhibition_history r;
     Lots.literature := Lots.literature r;
     Lots.condition_report := Lots.condition_report r;
     Lots.signature := Lots.signature r;
     Lots.external_id := Lots.external_id r;
     Lots.external_url := Lots.external_url r;
     Lots.created_at := Lots.created_at r;
     Lots.updated_at := Lots.updated_at r |}.

(** The same lot under another auction id. *)
Definition lot_under (a : nat) (c : lot_candidate) : lot_candidate :=
  {| auction_id := a;
     lot_number := lot_number c;
     lot_title := lot_title c;
     description := description c;
     estimated_price_min := estimated_price_min c;
     estimated_price_max := estimated_price_max c;
     images := images c |}.

Definition lot_candidate_ok (c : lot_candidate) : bool :=
  varchar 50 (Some (lot_number c))
  && varchar 500 (Some (lot_title c))
  && numeric 12 (estimated_price_min c)
  && numeric 12 (estimated_price_max c).

(** Modelled from the spec: the Upsert Engine for lots, "same
    create-vs-update discipline as auctions", on the key
    (auction id, lot number). *)
Definition upsert_lot (now : timestamp) (c : lot_candidate)
  (t : table Lots.row) : table Lots.row * outcome Lots.row :=
  upsert Lots.schema now (auction_id c, lot_number c)
    (lot_values c) (lot_set c) t.





(** The artists of the seed data. *)
Definition seeded : table Artists.row :=
  let artist n b d nat_ mov :=
    {| Artists.id := 0; Artists.name := Some n; Artists.birth_year := Some b;
       Artists.death_year := d; Artists.nationality := Some nat_;
       Artists.movement := Some mov; Artists.biography := None;
       Artists.verified := Some true; Artists.created_at := None;
       Artists.updated_at := None |} in
  execute_all Artists.schema
    [(0%Z, INSERT (artist "Diego Rivera" 1886%Z (Some 1957%Z) "Mexicana" "Muralismo"));
     (0%Z, INSERT (artist "Frida Kahlo" 1907%Z (Some 1954%Z) "Mexicana" "Surrealismo"));
     (0%Z, INSERT (artist "Fernando Botero" 1932%Z (Some 2023%Z) "Colombiana"
                     "Figurativismo"));
     (0%Z, INSERT (artist "Salvador Dalí" 1904%Z (Some 1989%Z) "Española"
                     "Surrealismo"));
     (0%Z, INSERT (artist "Pablo Picasso" 1881%Z (Some 1973%Z) "Española" "Cubismo"));
     (0%Z, INSERT (artist "Andy Warhol" 1928%Z (Some 1987%Z) "Estadounidense"
                     "Pop Art"));
     (0%Z, INSERT (artist "Emilio Pettoruti" 1892%Z (Some 1971%Z) "Argentina"
                     "Cubismo"));
     (0%Z, INSERT (artist "Julio Le Parc" 1928%Z None "Argentina" "Arte Cinético"))]
    (empty Artists.row).







End Pipeline.

(* --------------------------------------------------------------------- *)
(** ** The Celery task and the orchestrator (development plan, 2.2-2.3) *)
(* --------------------------------------------------------------------- *)

Module Tasks.
Import Sql.

(** The exceptions of the model; all of them derive from [Exception]. *)
Inductive exn : Type :=
| KeyError (key : string)
| TypeError (msg : string)
| ValidationError (field : string)
| IntegrityError (v : violation)
| ScrapeError (msg : string).

(** [str(e)].  A KeyError shows the repr of its key, which for a string
    is the key between single quotes; an exception raised with a message
    shows the message.  Modelled from the spec: the texts of
    ValidationError and IntegrityError are written by libraries that are
    not among the sources, and the name of the field and of the kind of
    violation stand in their place. *)
Definition str (e : exn) : string :=
  match e with
  | KeyError k => String.append "'" (String.append k "'")
  | TypeError m => m
  | ValidationError f => f
  | IntegrityError constraint_violation => "constraint"
  | IntegrityError primary_key_violation => "primary key"
  | IntegrityError unique_violation => "unique"
  | ScrapeError m => m
  end.

(** The dict an adapter returns for an auction; a key may be missing. *)
Record AuctionData : Type := {
  url : option string;
  external_id : option string;
  title : option string;
  start_date : option timestamp;
  end_date : option timestamp;
  exhibition_start : option timestamp;
  exhibition_end : option timestamp;
  status : option string;
  total_lots : option Z;
  total_estimate_min : option decimal;
  total_estimate_max : option decimal;
  total_realized : option decimal }.

(** The dict an adapter returns for a lot; [estimated_price] is the range
    the price parser gives. *)
Record LotData : Type := {
  lot_number : option string;
  lot_title : option string;
  description : option string;
  estimated_price : option (decimal * decimal);
  images : option string }.

(** class ScrapingAdapter: the house it is configured for and its two
    methods, each returning a list or raising. *)
Record ScrapingAdapter : Type := {
  house : nat;
  scrape_auctions : exn + list AuctionData;
  scrape_lots : string -> exn + list LotData }.

Record database : Type := {
  auctions : table Auctions.row;
  lots : table Lots.row }.

(** processed / created / updated of one kind of item. *)
Record tally : Type := {
  processed : nat;
  created : nat;
  updated : nat }.

Definition no_tally : tally := {| processed := 0; created := 0; updated := 0 |}.

(** Modelled from the spec: the tallies of the run ledger, "incremented as
    the Upsert Engine reports", one for each report "created" or
    "updated"; the task of the plan keeps no counts and returns
    nothing. *)
Definition count {Row : Type} (o : outcome Row) (t : tally) : tally :=
  match o with
  | Inserted _ =>
      {| processed := S (processed t); created := S (created t); updated := updated t |}
  | Updated _ =>
      {| processed := S (processed t); created := created t; updated := S (updated t) |}
  | _ => t
  end.

(** What a running task holds: the store and its counts so far. *)
Record job : Type := {
  db : database;
  auctions_count : tally;
  lots_count : tally }.

(** Modelled from the spec: the Normalizer, whose code is missing, takes
    one raw auction and the owning source and gives a candidate or a
    validation failure; the required fields are the external id and the
    title. *)
Definition normalize_auction (source : nat) (d : AuctionData)
  : exn + Pipeline.auction_candidate :=
  match external_id d, title d with
  | None, _ => inl (ValidationError "external_id")
  | _, None => inl (ValidationError "title")
  | Some e, Some t =>
      inr {| Pipeline.house_id := source;
             Pipeline.external_id := e;
             Pipeline.title := t;
             Pipeline.start_date := start_date d;
             Pipeline.end_date := end_date d;
             Pipeline.exhibition_start := exhibition_start d;
             Pipeline.exhibition_end := exhibition_end d;
             Pipeline.status := status d;
             Pipeline.total_lots := total_lots d;
             Pipeline.total_estimate_min := total_estimate_min d;
             Pipeline.total_estimate_max := total_estimate_max d;
             Pipeline.total_realized := total_realized d |}
  end.

Definition normalize_lot (auction_id : nat) (d : LotData)
  : exn + Pipeline.lot_candidate :=
  match lot_number d, lot_title d with
  | None, _ => inl (ValidationError "lot_number")
  | _, None => inl (ValidationError "title")
  | Some n, Some t =>
      inr {| Pipeline.auction_id := auction_id;
             Pipeline.lot_number := n;
             Pipeline.lot_title := t;
             Pipeline.description := description d;
             Pipeline.estimated_price_min := option_map fst (estimated_price d);
             Pipeline.estimated_price_max := option_map snd (estimated_price d);
             Pipeline.images := images d |}
  end.

(** Modelled from the spec: [save_auction], whose code is missing, is the
    Normalizer followed by the upsert; the owning source is the house of
    the adapter.  It returns the stored row. *)
Definition save_auction (now : timestamp) (source : nat) (d : AuctionData) (j : job)
  : job * (exn + Auctions.row) :=
  match normalize_auction source d with
  | inl e => (j, inl e)
  | inr c =>
      let (t', o) := Pipeline.upsert_auction now c (auctions (db j)) in
      let j' :=
        {| db := {| auctions := t'; lots := lots (db j) |};
           auctions_count := count o (auctions_count j);
           lots_count := lots_count j |} in
      match o with
      | Inserted r => (j', inr r)
      | Updated r => (j', inr r)
      | Rejected v => (j', inl (IntegrityError v))
      | NoRow => (j', inl (IntegrityError constraint_violation))
      end
  end.

(** One lot of [save_lots]. *)
Definition save_lot (now : timestamp) (auction_id : nat) (d : LotData) (j : job)
  : job * option exn :=
  match normalize_lot auction_id d with
  | inl e => (j, Some e)
  | inr c =>
      let (t', o) := Pipeline.upsert_lot now c (lots (db j)) in
      let j' :=
        {| db := {| auctions := auctions (db j); lots := t' |};
           auctions_count := auctions_count j;
           lots_count := count o (lots_count j) |} in
      match o with
      | Rejected v => (j', Some (IntegrityError v))
      | NoRow => (j', Some (IntegrityError constraint_violation))
      | _ => (j', None)
      end
  end.

(** Modelled from the spec: [save_lots(auction.id, lots)], whose code is
    missing, upserts the lots in the order given and stops at the first
    error. *)
Fixpoint save_lots (now : timestamp) (auction_id : nat) (lots : list LotData) (j : job)
  : job * option exn :=
  match lots with
  | [] => (j, None)
  | d :: rest =>
      match save_lot now auction_id d j with
      | (j', Some e) => (j', Some e)
      | (j', None) => save_lots now auction_id rest j'
      end
  end.

(** The body of [for auction_data in auctions]; [Some e] when [e] was
    raised, which leaves the loop. *)
Fixpoint for_auction_data (now : timestamp) (adapter : ScrapingAdapter)
  (auctions : list AuctionData) (j : job) : job * option exn :=
  match auctions with
  | [] => (j, None)
  | auction_data :: rest =>
      match save_auction now (house adapter) auction_data j with
      | (j1, inl e) => (j1, Some e)
      | (j1, inr auction) =>
          match url auction_data with
          | None => (j1, Some (KeyError "url"))
          | Some u =>
              match scrape_lots adapter u with
              | inl e => (j1, Some e)
              | inr lots =>
                  match save_lots now (Auctions.id auction) lots j1 with
                  | (j2, Some e) => (j2, Some e)
                  | (j2, None) => for_auction_data now adapter rest j2
                  end
              end
          end
      end
  end.

(** The two calls that end the task. *)
Inductive log_entry : Type :=
| log_scraping_success (house_name : string)
| log_scraping_error (house_name : string) (message : string).

Record world : Type := {
  store : database;
  log : list log_entry }.

(** What one run of the task leaves behind besides the store. *)
Record run : Type := {
  entry : log_entry;
  auctions_tally : tally;
  lots_tally : tally }.

(** [self.adapters], a dict in insertion order. *)
Definition adapters : Type := list (string * ScrapingAdapter).

(** [get_adapter(house_name)]: the adapter registered under the name. *)
Definition get_adapter (registry : adapters) (house_name : string)
  : option ScrapingAdapter :=
  match find (fun p => String.eqb (fst p) house_name) registry with
  | Some p => Some (snd p)
  | None => None
  end.

(** A task starts on the store as it is, with its counts at zero. *)
Definition starting (d : database) : job :=
  {| db := d; auctions_count := no_tally; lots_count := no_tally |}.

(** The try block: [adapter.scrape_auctions()], then the loop. *)
Definition try_block (now : timestamp) (adapter : ScrapingAdapter) (j : job)
  : job * option exn :=
  match scrape_auctions adapter with
  | inl e => (j, Some e)
  | inr auctions => for_auction_data now adapter auctions j
  end.

(** [scrape_house_data(house_name)].  [get_adapter] is called before the
    try block, so a name without an adapter makes the task itself fail;
    everything raised inside the block ends in [log_scraping_error]. *)
Definition scrape_house_data (now : timestamp) (registry : adapters)
  (house_name : string) (w : world) : world * (exn + run) :=
  match get_adapter registry house_name with
  | None => (w, inl (KeyError house_name))
  | Some adapter =>
      let (j, raised) :=
        try_block now adapter (starting (store w)) in
      let e :=
        match raised with
        | None => log_scraping_success house_name
        | Some e => log_scraping_error house_name (str e)
        end in
      ({| store := db j; log := log w ++ [e] |},
       inr {| entry := e;
              auctions_tally := auctions_count j;
              lots_tally := lots_count j |})
  end.

(** The broker: the queue of task messages (task id, house name) and the
    next task id. *)
Record broker : Type := {
  queue : list (nat * string);
  next_task : nat }.

(** [scrape_house_data.delay(house_name)]: a message with a new id goes
    on the queue, and the id comes back. *)
Definition delay (house_name : string) (b : broker) : broker * nat :=
  ({| queue := queue b ++ [(next_task b, house_name)];
      next_task := S (next_task b) |},
   next_task b).

(** [ScrapingOrchestrator.schedule_scraping_jobs] *)
Definition schedule_scraping_jobs (registry : adapters) (b : broker) : broker :=
  fold_left (fun b p => fst (delay (fst p) b)) registry b.

(** A worker process with the messages it has taken, and the results of
    the tasks it has finished. *)
Record system : Type := {
  messages : broker;
  state : world;
  results : list (nat * string * (exn + run)) }.

(** The worker takes the message at the head of the queue and runs the
    task at the time its clock shows; a failure of the task is recorded
    as its result and the worker goes on. *)
Definition work (clock : nat -> timestamp) (registry : adapters) (s : system)
  : system :=
  match queue (messages s) with
  | [] => s
  | (task_id, house_name) :: rest =>
      let (w, r) := scrape_house_data (clock task_id) registry house_name (state s) in
      {| messages := {| queue := rest; next_task := next_task (messages s) |};
         state := w;
         results := results s ++ [(task_id, house_name, r)] |}
  end.

(** The worker runs until the queue is empty; tasks enqueue nothing. *)
Fixpoint drain (fuel : nat) (clock : nat -> timestamp) (registry : adapters)
  (s : system) : system :=
  match fuel with
  | O => s
  | S fuel' => drain fuel' clock registry (work clock registry s)
  end.

Definition run_all (clock : nat -> timestamp) (registry : adapters) (s : system)
  : system :=
  drain (List.length (queue (messages s))) clock registry s.

(** Both tables are consistent. *)
Record db_consistent (d : database) : Prop := {
  dc_auctions : consistent Auctions.schema (auctions d);
  dc_lots : consistent Lots.schema (lots d) }.

(** [d'] has a row wherever [d] has one, under the same id. *)
Definition extends (d d' : database) : Prop :=
  (forall k r, select_by_key Auctions.schema k (auctions d) = Some r ->
     exists r', select_by_key Auctions.schema k (auctions d') = Some r'
                /\ Auctions.id r' = Auctions.id r)
  /\ (forall k r, select_by_key Lots.schema k (lots d) = Some r ->
     exists r', select_by_key Lots.schema k (lots d') = Some r'
                /\ Lots.id r' = Lots.id r).

(** A lot of the page of auction [a] is in the store [s]: a row is found
    under the id of the auction and the number of the lot. *)
Definition lot_committed (a : Auctions.row) (s : database) (l : LotData) : Prop :=
  exists c r,
    normalize_lot (Auctions.id a) l = inr c
    /\ select_by_key Lots.schema (Auctions.id a, Pipeline.lot_number c) (lots s)
       = Some r.

(** An item of the listing is in the store [s]: its auction is found
    under the house of the adapter and its external id, and every lot of
    its lot page under that auction. *)
Definition committed (adapter : ScrapingAdapter) (s : database) (d : AuctionData)
  : Prop :=
  exists c a u ls,
    normalize_auction (house adapter) d = inr c
    /\ select_by_key Auctions.schema (house adapter, Pipeline.external_id c)
         (auctions s) = Some a
    /\ url d = Some u
    /\ scrape_lots adapter u = inr ls
    /\ Forall (lot_committed a s) ls.

(** Lots refer to auctions that exist or existed: to ids the sequence of
    [auctions] has handed out. *)
Definition refers_back (d : database) : Prop :=
  Forall (fun l => forall a, Lots.auction_id l = Some a -> a < next_id (auctions d))
    (rows (lots d)).

Record db_ok (d : database) : Prop := {
  ok_consistent : db_consistent d;
  ok_refers : refers_back d }.

(** What a source has to do with a row: everything but the ids the
    database hands out and the times it stamps. *)
Definition auction_content (r : Auctions.row) : Auctions.row :=
  {| Auctions.id := 0;
     Auctions.house_id := Auctions.house_id r;
     Auctions.title := Auctions.title r;
     Auctions.description := Auctions.description r;
     Auctions.start_date := Auctions.start_date r;
     Auctions.end_date := Auctions.end_date r;
     Auctions.exhibition_start := Auctions.exhibition_start r;
     Auctions.exhibition_end := Auctions.exhibition_end r;
     Auctions.status := Auctions.status r;
     Auctions.location := Auctions.location r;
     Auctions.auction_type := Auctions.auction_type r;
     Auctions.slug := Auctions.slug r;
     Auctions.external_id := Auctions.external_id r;
     Auctions.total_lots := Auctions.total_lots r;
     Auctions.total_estimate_min := Auctions.total_estimate_min r;
     Auctions.total_estimate_max := Auctions.total_estimate_max r;
     Auctions.total_realized := Auctions.total_realized r;
     Auctions.currency := Auctions.currency r;
     Auctions.sale_rate := Auctions.sale_rate r;
     Auctions.created_at := None;
     Auctions.updated_at := None |}.

Definition lot_content (r : Lots.row) : Lots.row :=
  {| Lots.id := 0;
     Lots.auction_id := option_map (fun _ => 0) (Lots.auction_id r);
     Lots.lot_number := Lots.lot_number r;
     Lots.title := Lots.title r;
     Lots.description := Lots.description r;
     Lots.artist_id := Lots.artist_id r;
     Lots.category_id := Lots.category_id r;
     Lots.estimated_price_min := Lots.estimated_price_min r;
     Lots.estimated_price_max := Lots.estimated_price_max r;
     Lots.final_price := Lots.final_price r;
     Lots.hammer_price := Lots.hammer_price r;
     Lots.buyers_premium := Lots.buyers_premium r;
     Lots.currency := Lots.currency r;
     Lots.sold := Lots.sold r;
     Lots.images := Lots.images r;
     Lots.dimensions := Lots.dimensions r;
     Lots.medium := Lots.medium r;
     Lots.provenance := Lots.provenance r;
     Lots.exhibition_history := Lots.exhibition_history r;
     Lots.literature := Lots.literature r;
     Lots.condition_report := Lots.condition_report r;
     Lots.signature := Lots.signature r;
     Lots.external_id := Lots.external_id r;
     Lots.external_url := Lots.external_url r;
     Lots.created_at := None;
     Lots.updated_at := None |}.

(** The auction of house [h] with external id [e]. *)
Definition auction_of (h : nat) (d : database) (e : string) : option Auctions.row :=
  select_by_key Auctions.schema (h, e) (auctions d).

(** The data of house [h]: its auctions by external id, and their lots by
    external id and lot number. *)
Definition auction_view (h : nat) (d : database) (e : string) : option Auctions.row :=
  option_map auction_content (auction_of h d e).

Definition lot_view (h : nat) (d : database) (e n : string) : option Lots.row :=
  match auction_of h d e with
  | Some a => option_map lot_content (select_by_key Lots.schema (Auctions.id a, n) (lots d))
  | None => None
  end.

Definition same_for (h : nat) (d d' : database) : Prop :=
  (forall e, auction_view h d e = auction_view h d' e)
  /\ (forall e n, lot_view h d e n = lot_view h d' e n).

(** Two stores in order that hold the same data for house [h]. *)
Definition alike (h : nat) (d d' : database) : Prop :=
  db_ok d /\ db_ok d' /\ same_for h d d'.

(** What the log and the results say of one house. *)
Definition about (house_name : string) (e : log_entry) : bool :=
  match e with
  | log_scraping_success n => String.eqb n house_name
  | log_scraping_error n _ => String.eqb n house_name
  end.

Definition log_of (house_name : string) (w : world) : list log_entry :=
  filter (about house_name) (log w).

Definition results_of (house_name : string) (s : system)
  : list (nat * string * (exn + run)) :=
  filter (fun r => String.eqb (snd (fst r)) house_name) (results s).

(** Two systems between which house [b], of id [h], sees no difference:
    the same messages wait, the stores hold the same for the house, and
    the log and the results say the same of it. *)
Definition undisturbed (b : string) (h : nat) (s s' : system) : Prop :=
  messages s = messages s'
  /\ alike h (store (state s)) (store (state s'))
  /\ log_of b (state s) = log_of b (state s')
  /\ results_of b s = results_of b s'.

(** Messages on the queue for a house. *)
Definition queued_for (house_name : string) (b : broker) : list (nat * string) :=
  filter (fun m => String.eqb (snd m) house_name) (queue b).

(** An empty store and an idle broker. *)
Definition no_data : database :=
  {| auctions := empty Auctions.row; lots := empty Lots.row |}.

Definition idle : broker := {| queue := []; next_task := 0 |}.

(** An auction as an adapter returns it. *)
Definition auction_data (ext title url : string) : AuctionData :=
  {| url := Some url; external_id := Some ext; title := Some title;
     start_date := None; end_date := None; exhibition_start := None;
     exhibition_end := None; status := None; total_lots := None;
     total_estimate_min := None; total_estimate_max := None;
     total_realized := None |}.

(** An adapter for house [h] that lists [l] and finds no lots, except on
    the page [broken], where it raises. *)
Definition listing (h : nat) (l : list AuctionData) (broken : option string)
  : ScrapingAdapter :=
  {| house := h;
     scrape_auctions := inr l;
     scrape_lots := fun u =>
       match broken with
       | Some b => if String.eqb u b then inl (ScrapeError "lot page") else inr []
       | None => inr []
       end |}.

(** An adapter whose methods are [pass], as the plan leaves those of
    Durán, Setdart and Morton: a call returns None, and the loop of the
    task over it, like a loop over its lots, raises TypeError. *)
Definition unwritten (h : nat) : ScrapingAdapter :=
  {| house := h;
     scrape_auctions := inl (TypeError "'NoneType' object is not iterable");
     scrape_lots := fun _ => inl (TypeError "'NoneType' object is not iterable") |}.

(** [self.adapters] of the orchestrator: the four names of the plan in
    the order of the dict.  The adapter of Bogotá Auctions reads a site;
    one that finds nothing listed stands here for it.  The orchestrator
    reads the names only. *)
Definition plan_registry : adapters :=
  [("bogota_auctions", listing 1 [] None);
   ("duran_subastas", unwritten 2);
   ("setdart", unwritten 4);
   ("morton_subastas", unwritten 9)].

(** Five auctions of one house. *)
Definition five_auctions : list AuctionData :=
  [auction_data "101" "Spring Sale" "/s/101";
   auction_data "102" "Summer Sale" "/s/102";
   auction_data "103" "Autumn Sale" "/s/103";
   auction_data "104" "Winter Sale" "/s/104";
   auction_data "105" "Online Sale" "/s/105"].

(** The same five, the third without a title. *)
Definition five_auctions_third_untitled : list AuctionData :=
  [auction_data "101" "Spring Sale" "/s/101";
   auction_data "102" "Summer Sale" "/s/102";
   {| url := Some "/s/103"; external_id := Some "103"; title := None;
      start_date := None; end_date := None; exhibition_start := None;
      exhibition_end := None; status := None; total_lots := None;
      total_estimate_min := None; total_estimate_max := None;
      total_realized := None |};
   auction_data "104" "Winter Sale" "/s/104";
   auction_data "105" "Online Sale" "/s/105"].

(** Five auctions, the lot page of the third one fails. *)
Definition third_page_fails : adapters :=
  [("bogota_auctions", listing 1 five_auctions (Some "/s/103"))].

Definition third_untitled : adapters :=
  [("bogota_auctions", listing 1 five_auctions_third_untitled None)].

Definition fresh_world : world := {| store := no_data; log := [] |}.

(** Two houses, and the same two when the adapter of the first cannot
    reach its entry page. *)
Definition two_houses : adapters :=
  [("a", listing 1 [auction_data "77" "Libros" "/a/77"] None);
   ("b", listing 2 [auction_data "101" "Spring Sale" "/b/101";
                    auction_data "102" "Summer Sale" "/b/102"] None)].

Definition first_house_down : adapters :=
  [("a", {| house := 1;
            scrape_auctions := inl (ScrapeError "connection refused");
            scrape_lots := fun _ => inl (ScrapeError "connection refused") |});
   ("b", listing 2 [auction_data "101" "Spring Sale" "/b/101";
                    auction_data "102" "Summer Sale" "/b/102"] None)].

(** Both tasks scheduled on an empty store. *)
Definition both_scheduled : system :=
  {| messages := schedule_scraping_jobs two_houses idle;
     state := fresh_world;
     results := [] |}.

(** The external ids stored for a house. *)
Definition stored_ids (d : database) : list (option string) :=
  map Auctions.external_id (rows (auctions d)).

End Tasks.

(* --------------------------------------------------------------------- *)
(** ** The adapter of Bogotá Auctions (development plan, 2.1) *)
(* --------------------------------------------------------------------- *)

Module BogotaAuctionsAdapter.
Import Sql Tasks.

Section Site.
(** A parsed document or one of its elements. *)
Variable Tag : Type.
(** [requests.get(url)] followed by [BeautifulSoup(response.content,
    'html.parser')]: the document, or what the request raised.  The
    status of the response is not looked at. *)
Variable get : string -> exn + Tag.
(** [tag.select(css)]: the matches in document order. *)
Variable select : string -> Tag -> list Tag.
(** [tag.get_text(strip=True)] *)
Variable get_text : Tag -> string.
(** [tag[attribute]], [None] without the attribute. *)
Variable attribute : string -> Tag -> option string.
(** The three methods the class calls and does not define. *)
Variable _parse_auction_page : string -> exn + AuctionData.
Variable _parse_price : option Tag -> exn + option (decimal * decimal).
Variable _extract_images : Tag -> exn + option string.

(** [tag.select_one(css)]: the first match, or [None]. *)
Definition select_one (css : string) (tag : Tag) : option Tag :=
  hd_error (select css tag).

(** [tag.select_one(css).get_text(strip=True)]: without a match the
    method is looked up on [None]. *)
Definition text_of (css : string) (tag : Tag) : exn + string :=
  match select_one css tag with
  | Some t => inr (get_text t)
  | None => inl (ScrapeError "'NoneType' object has no attribute 'get_text'")
  end.

(** The body of a loop that appends to a list: the results in order, or
    what the first failing item raised. *)
Fixpoint for_each {A B : Type} (f : A -> exn + B) (l : list A) : exn + list B :=
  match l with
  | [] => inr []
  | a :: l' =>
      match f a with
      | inl e => inl e
      | inr b =>
          match for_each f l' with
          | inl e => inl e
          | inr bs => inr (b :: bs)
          end
      end
  end.

(** [link['href']] and the page behind it. *)
Definition auction_of_link (link : Tag) : exn + AuctionData :=
  match attribute "href" link with
  | None => inl (KeyError "href")
  | Some href => _parse_auction_page href
  end.

Definition scrape_auctions : exn + list AuctionData :=
  match get "https://www.bogotaauctions.com/es/subastas-activas" with
  | inl e => inl e
  | inr soup => for_each auction_of_link (select "a.titulo-subasta" soup)
  end.

(** The dict built for one [div.lote], its entries evaluated in the
    order written. *)
Definition lot_of_element (lot_element : Tag) : exn + LotData :=
  match text_of "span.numero" lot_element with
  | inl e => inl e
  | inr number =>
      match text_of "h3" lot_element with
      | inl e => inl e
      | inr title =>
          match text_of ".descripcion" lot_element with
          | inl e => inl e
          | inr description =>
              match _parse_price (select_one ".precio" lot_element) with
              | inl e => inl e
              | inr price =>
                  match _extract_images lot_element with
                  | inl e => inl e
                  | inr images =>
                      inr {| lot_number := Some number;
                             lot_title := Some title;
                             Tasks.description := Some description;
                             estimated_price := price;
                             Tasks.images := images |}
                  end
              end
          end
      end
  end.

Definition scrape_lots (auction_url : string) : exn + list LotData :=
  match get auction_url with
  | inl e => inl e
  | inr soup => for_each lot_of_element (select "div.lote" soup)
  end.

(** The adapter, for the house of id [h]. *)
Definition adapter (h : nat) : ScrapingAdapter :=
  {| house := h;
     Tasks.scrape_auctions := scrape_auctions;
     Tasks.scrape_lots := scrape_lots |}.

End Site.

End BogotaAuctionsAdapter.

(** What the log says about which house, entry by entry. *)
Module Logs.
Import Tasks.

Definition house_name_of (e : log_entry) : string :=
  match e with
  | log_scraping_success n => n
  | log_scraping_error n _ => n
  end.

(** A worker about to start on the tasks of one scheduling round. *)
Definition scheduled (registry : adapters) (w : world) : system :=
  {| messages := schedule_scraping_jobs registry idle;
     state := w;
     results := [] |}.

End Logs.

(* ===================================================================== *)
(** * Part II. Theorems *)
(* ===================================================================== *)

Unset Implicit Arguments.

(* --------------------------------------------------------------------- *)
(** ** The query hooks *)
(* --------------------------------------------------------------------- *)

Module HooksFacts.
Import Js Hooks.

Lemma truthy_number_false (x : number) :
  truthy_number x = false <-> (exists s, x = S754_zero s) \/ x = S754_nan.
Proof.
  destruct x; simpl; split; intros H; try discriminate; eauto.
  - destruct H as [[s' H] | H]; discriminate.
  - destruct H as [[s' H] | H]; discriminate.
Qed.

Lemma truthy_string_length (s : string) :
  truthy_string s = true <-> 1 <= Js.length s.
Proof.
  destruct s; simpl; split; intros H; try discriminate; try lia; reflexivity.
Qed.

Lemma with_options_own key fn own options :
  leaves_enabled options ->
  enabled (with_options key fn own options) = Some own
  /\ queryFn (with_options key fn own options) = fn.
Proof.
  destruct options as [o |]; simpl; intros H; [rewrite H |]; split; reflexivity.
Qed.

Lemma requests_of_own key fn own options :
  leaves_enabled options ->
  requests_on_mount (with_options key fn own options)
  = if own then [fn tt] else [].
Proof.
  intros H. destruct (with_options_own key fn own options H) as [He Hf].
  unfold requests_on_mount, is_enabled. rewrite He, Hf. destruct own; reflexivity.
Qed.

Lemma is_enabled_own key fn own options :
  leaves_enabled options ->
  is_enabled (with_options key fn own options) = own.
Proof.
  intros H. destruct (with_options_own key fn own options H) as [He _].
  unfold is_enabled. rewrite He. destruct own; reflexivity.
Qed.

Example of_Z_seven : truthy_number (of_Z 7) = true /\ truthy_number (of_Z 0) = false.
Proof. split; reflexivity. Qed.

(** C9, as the code has it: when the caller's options carry no [enabled]
    entry of their own, [useSearchLots] switches its query off and calls
    nothing for every search string of length 2 or less (the empty one
    included), and calls [api.lots.search] with the string and the page
    parameters for every string of length 3 or more. *)
Theorem useSearchLots_three_characters (query : string)
  (params : option page_params) (options : option use_query_options) :
  leaves_enabled options ->
  (Js.length query <= 2 ->
     is_enabled (useSearchLots query params options) = false
     /\ requests_on_mount (useSearchLots query params options) = [])
  /\ (3 <= Js.length query ->
     requests_on_mount (useSearchLots query params options)
     = [search_call query params]).
Proof.
  intros H. unfold useSearchLots.
  split; intros Hlen.
  - assert (Hown : truthy_string query && Nat.ltb 2 (Js.length query) = false).
    { apply andb_false_iff; right. apply Nat.ltb_ge. exact Hlen. }
    rewrite requests_of_own, is_enabled_own by exact H.
    rewrite Hown. split; reflexivity.
  - assert (Hown : truthy_string query && Nat.ltb 2 (Js.length query) = true).
    { apply andb_true_iff; split.
      - apply truthy_string_length; lia.
      - apply Nat.ltb_lt; lia. }
    rewrite requests_of_own by exact H. rewrite Hown. reflexivity.
Qed.

Lemma useSearchLots_three_characters_witness :
  requests_on_mount (useSearchLots "ab" None None) = []
  /\ requests_on_mount (useSearchLots "abc" None None) = [lots_search "abc" None None].
Proof.
  split.
  - apply (proj1 (useSearchLots_three_characters "ab" None None I)). simpl; lia.
  - apply (proj2 (useSearchLots_three_characters "abc" None None I)). simpl; lia.
Defined.

(** C9 as stated fails: options are spread after the hook's own [enabled],
    so a caller passing [enabled: true] has the search run on the empty
    string. *)
Lemma useSearchLots_options_override :
  Js.length "" <= 2
  /\ is_enabled (useSearchLots "" None (Some enabled_true)) = true
  /\ requests_on_mount (useSearchLots "" None (Some enabled_true))
     = [lots_search "" None None].
Proof. repeat split. simpl; lia. Qed.

(** C10, as the code has it: when the caller's options carry no [enabled]
    entry of their own, [useLot], [useAuction] and [useHouse] switch their
    query off and call nothing for every falsy id ([0], [-0], [NaN]), and
    call the matching [getById] for every other id. *)
Theorem single_entity_hooks_need_id (id : number)
  (options : option use_query_options) :
  leaves_enabled options ->
  (truthy_number id = false ->
     requests_on_mount (useLot id options) = []
     /\ requests_on_mount (useAuction id options) = []
     /\ requests_on_mount (useHouse id options) = [])
  /\ (truthy_number id = true ->
     requests_on_mount (useLot id options) = [lots_getById id]
     /\ requests_on_mount (useAuction id options) = [auctions_getById id]
     /\ requests_on_mount (useHouse id options) = [houses_getById id]).
Proof.
  intros H. unfold useLot, useAuction, useHouse.
  rewrite !requests_of_own by exact H.
  split; intros ->; repeat split.
Qed.

Lemma single_entity_hooks_need_id_witness :
  requests_on_mount (useLot (of_Z 0) None) = []
  /\ requests_on_mount (useHouse (of_Z 12) None) = [houses_getById (of_Z 12)].
Proof.
  split.
  - apply (proj1 (proj1 (single_entity_hooks_need_id (of_Z 0) None I) eq_refl)).
  - apply (proj2 (proj2 (proj2 (single_entity_hooks_need_id (of_Z 12) None I) eq_refl))).
Defined.

(** C10 as stated fails: with [enabled: true] among the options the three
    hooks fetch the entity of id [0]; and [NaN], which is not zero, is
    falsy, so that without options nothing is fetched for it. *)
Lemma single_entity_hooks_options_override :
  truthy_number (of_Z 0) = false
  /\ requests_on_mount (useLot (of_Z 0) (Some enabled_true)) = [lots_getById (of_Z 0)]
  /\ requests_on_mount (useAuction (of_Z 0) (Some enabled_true)) = [auctions_getById (of_Z 0)]
  /\ requests_on_mount (useHouse (of_Z 0) (Some enabled_true)) = [houses_getById (of_Z 0)]
  /\ S754_nan <> of_Z 0
  /\ requests_on_mount (useLot S754_nan None) = [].
Proof. repeat split. discriminate. Qed.

End HooksFacts.

(* --------------------------------------------------------------------- *)
(** ** Statements keep the constraints of a table *)
(* --------------------------------------------------------------------- *)

Module SqlFacts.
Import Sql.

Lemma filter_none {A : Type} (f : A -> bool) (l : list A) :
  (forall x, In x l -> f x = false) -> filter f l = [].
Proof.
  induction l as [| a l IH]; simpl; intros H; [reflexivity |].
  rewrite (H a (or_introl eq_refl)). apply IH. intros x Hx. apply H. right; exact Hx.
Qed.

Lemma filter_at_most_one {A : Type} (f : A -> bool) (l : list A) (x y : A) :
  List.length (filter f l) <= 1 ->
  In x l -> In y l -> f x = true -> f y = true -> x = y.
Proof.
  induction l as [| a l IH]; simpl; intros Hlen Hx Hy Fx Fy; [contradiction |].
  destruct (f a) eqn:Fa.
  - simpl in Hlen.
    assert (Hnil : filter f l = []) by (destruct (filter f l); [reflexivity | simpl in Hlen; lia]).
    assert (Hno : forall z, In z l -> f z = true -> False).
    { intros z Hz Fz.
      assert (Hin : In z (filter f l)) by (apply filter_In; split; assumption).
      rewrite Hnil in Hin. exact Hin. }
    destruct Hx as [-> | Hx]; destruct Hy as [-> | Hy]; try reflexivity.
    + exfalso; eapply Hno; eassumption.
    + exfalso; eapply Hno; eassumption.
    + exfalso; eapply Hno; eassumption.
  - destruct Hx as [-> | Hx]; [congruence |].
    destruct Hy as [-> | Hy]; [congruence |].
    apply IH; assumption.
Qed.

Section Facts.
Variables Row Key : Type.
Variable sch : schema Row Key.

Lemma has_id_spec (i : nat) (r : Row) :
  has_id sch i r = true <-> row_id sch r = i.
Proof. unfold has_id. apply Nat.eqb_eq. Qed.

Lemma has_key_spec (k : Key) (r : Row) :
  has_key sch k r = true <-> unique_key sch r = Some k.
Proof.
  unfold has_key. destruct (unique_key sch r) as [k' |].
  - rewrite (key_eqb_eq sch). split; [intros -> | intros [= ->]]; reflexivity.
  - split; discriminate.
Qed.

Lemma split_at_some (i : nat) (l before after : list Row) (r : Row) :
  split_at sch i l = Some (before, r, after) ->
  l = before ++ r :: after /\ row_id sch r = i
  /\ forall x, In x before -> row_id sch x <> i.
Proof.
  revert before. induction l as [| a l IH]; simpl; intros before H; [discriminate |].
  destruct (has_id sch i a) eqn:Ha.
  - injection H as <- <- <-. apply has_id_spec in Ha.
    repeat split; [exact Ha | intros x []].
  - destruct (split_at sch i l) as [[[b x] c] |]; [| discriminate].
    injection H as <- <- <-.
    destruct (IH b eq_refl) as (-> & Hid & Hb).
    repeat split; [exact Hid |].
    intros y [<- | Hy]; [| apply Hb; exact Hy].
    intros E. apply has_id_spec in E. congruence.
Qed.

Lemma split_at_none (i : nat) (l : list Row) :
  split_at sch i l = None -> forall x, In x l -> row_id sch x <> i.
Proof.
  induction l as [| a l IH]; simpl; intros H x Hx; [contradiction |].
  destruct (has_id sch i a) eqn:Ha; [discriminate |].
  destruct (split_at sch i l) as [[[b y] c] |]; [discriminate |].
  destruct Hx as [<- | Hx]; [| apply IH; [reflexivity | exact Hx]].
  intros E. apply has_id_spec in E. congruence.
Qed.

Lemma split_at_found (r : Row) (l : list Row) :
  In r l -> exists before x after, split_at sch (row_id sch r) l = Some (before, x, after).
Proof.
  intros Hr. destruct (split_at sch (row_id sch r) l) as [[[b x] c] |] eqn:E.
  - eauto.
  - exfalso. exact (split_at_none _ _ E r Hr eq_refl).
Qed.

(** With ids all different, the row found under the id of [r] is [r]. *)
Lemma split_at_self (r : Row) (l before after : list Row) (x : Row) :
  NoDup (map (row_id sch) l) -> In r l ->
  split_at sch (row_id sch r) l = Some (before, x, after) -> x = r.
Proof.
  intros Hnd Hr E. destruct (split_at_some _ _ _ _ _ E) as (-> & Hid & _).
  rewrite map_app in Hnd; simpl in Hnd.
  apply NoDup_remove_2 in Hnd.
  apply in_elt_inv in Hr. destruct Hr as [-> | Hr]; [reflexivity |].
  exfalso. apply Hnd. rewrite Hid, <- map_app. apply in_map. exact Hr.
Qed.

Lemma vet_none (r : Row) (others : list Row) :
  vet sch r others = None <->
  constraints sch r = true
  /\ (forall x, In x others -> row_id sch x <> row_id sch r)
  /\ (forall k, unique_key sch r = Some k ->
        forall x, In x others -> unique_key sch x <> Some k).
Proof.
  unfold vet. destruct (constraints sch r); simpl.
  2: { split; [discriminate | intros [H _]; discriminate]. }
  destruct (existsb (has_id sch (row_id sch r)) others) eqn:Hid.
  { split; [discriminate |]. intros (_ & H & _).
    apply existsb_exists in Hid. destruct Hid as (x & Hx & Hx').
    apply has_id_spec in Hx'. exfalso. exact (H x Hx Hx'). }
  unfold key_taken. destruct (unique_key sch r) as [k |].
  - destruct (existsb (has_key sch k) others) eqn:Hk.
    + split; [discriminate |]. intros (_ & _ & H).
      apply existsb_exists in Hk. destruct Hk as (x & Hx & Hx').
      apply has_key_spec in Hx'. exfalso. exact (H k eq_refl x Hx Hx').
    + split; [| reflexivity]. intros _. split; [reflexivity |]. split.
      * intros x Hx E. apply has_id_spec in E.
        assert (existsb (has_id sch (row_id sch r)) others = true)
          by (apply existsb_exists; eauto).
        congruence.
      * intros k' [= <-] x Hx E. apply has_key_spec in E.
        assert (existsb (has_key sch k) others = true)
          by (apply existsb_exists; eauto).
        congruence.
  - split; [| reflexivity]. intros _. split; [reflexivity |]. split.
    + intros x Hx E. apply has_id_spec in E.
      assert (existsb (has_id sch (row_id sch r)) others = true)
        by (apply existsb_exists; eauto).
      congruence.
    + intros k' [=].
Qed.

Lemma empty_sound : sound sch (empty Row).
Proof.
  split.
  - constructor.
  - intros k. simpl. lia.
  - constructor.
Qed.

Lemma sql_insert_cases (now : timestamp) (values : Row) (t : table Row) :
  let r := complete sch (next_id t) now values in
  (exists v, vet sch r (rows t) = Some v
     /\ sql_insert sch now values t
        = ({| rows := rows t; next_id := S (next_id t) |}, Rejected v))
  \/ (vet sch r (rows t) = None
     /\ sql_insert sch now values t
        = ({| rows := rows t ++ [r]; next_id := S (next_id t) |}, Inserted r)).
Proof.
  intros r. unfold sql_insert. fold r.
  destruct (vet sch r (rows t)) as [v |]; [left; eauto | right; eauto].
Qed.

Lemma sql_insert_sound (now : timestamp) (values : Row) (t : table Row) :
  sound sch t -> sound sch (fst (sql_insert sch now values t)).
Proof.
  intros [Hids Hkeys Hvalid].
  destruct (sql_insert_cases now values t) as [(v & _ & ->) | (Hvet & ->)]; simpl.
  - split; assumption.
  - apply vet_none in Hvet. destruct Hvet as (Hc & Hid & Hk).
    set (r := complete sch (next_id t) now values) in *.
    split.
    + unfold ids_unique in *; simpl. rewrite map_app; simpl.
      apply NoDup_app; [exact Hids | repeat constructor; intros [] |].
      intros a Ha [<- | []]. apply in_map_iff in Ha.
      destruct Ha as (x & Hx & Hin). exact (Hid x Hin Hx).
    + intros k. unfold with_key; simpl. rewrite filter_app, length_app; simpl.
      destruct (has_key sch k r) eqn:Hr; simpl.
      * apply has_key_spec in Hr. rewrite filter_none; [simpl; lia |].
        intros x Hx. destruct (has_key sch k x) eqn:E; [| reflexivity].
        apply has_key_spec in E. exfalso. exact (Hk k Hr x Hx E).
      * specialize (Hkeys k). unfold with_key in Hkeys. lia.
    + unfold rows_valid; simpl. apply Forall_app. split; [exact Hvalid |].
      constructor; [exact Hc | constructor].
Qed.

Lemma sql_update_cases (now : timestamp) (i : nat) (set : Row -> Row) (t : table Row) :
  (sql_update sch now i set t = (t, NoRow)
     /\ forall x, In x (rows t) -> row_id sch x <> i)
  \/ (exists before r after,
        rows t = before ++ r :: after /\ row_id sch r = i
        /\ split_at sch i (rows t) = Some (before, r, after)
        /\ let r' := before_update sch now (set r) in
           (exists v, vet sch r' (before ++ after) = Some v
              /\ sql_update sch now i set t = (t, Rejected v))
           \/ (vet sch r' (before ++ after) = None
              /\ sql_update sch now i set t
                 = ({| rows := before ++ r' :: after; next_id := next_id t |},
                    Updated r'))).
Proof.
  unfold sql_update. destruct (split_at sch i (rows t)) as [[[b r] a] |] eqn:E.
  - right. destruct (split_at_some _ _ _ _ _ E) as (Hrows & Hid & _).
    exists b, r, a. repeat split; try assumption.
    destruct (vet sch (before_update sch now (set r)) (b ++ a)) as [v |];
      [left; eauto | right; eauto].
  - left. split; [reflexivity |]. apply split_at_none. exact E.
Qed.

Lemma sql_update_sound (now : timestamp) (i : nat) (set : Row -> Row) (t : table Row) :
  sound sch t -> sound sch (fst (sql_update sch now i set t)).
Proof.
  intros Hs.
  destruct (sql_update_cases now i set t)
    as [[-> _] | (b & r & a & Hrows & Hi & _ & [(v & _ & ->) | (Hvet & ->)])];
    simpl; try exact Hs.
  destruct Hs as [Hids Hkeys Hvalid].
  apply vet_none in Hvet. destruct Hvet as (Hc & Hid & Hk).
  set (r' := before_update sch now (set r)) in *.
  split.
  - unfold ids_unique in *; simpl. rewrite Hrows in Hids.
    rewrite map_app in *; simpl in *.
    apply NoDup_remove_1 in Hids.
    assert (Hnot : ~ In (row_id sch r') (map (row_id sch) b ++ map (row_id sch) a)).
    { rewrite <- map_app. intros Hin. apply in_map_iff in Hin.
      destruct Hin as (x & Hx & Hin). exact (Hid x Hin Hx). }
    clear - Hids Hnot.
    induction (map (row_id sch) b) as [| y l IH]; simpl in *.
    + constructor; assumption.
    + inversion Hids; subst. constructor.
      * intros Hin. apply in_elt_inv in Hin. destruct Hin as [E | Hin].
        -- apply Hnot. left. exact E.
        -- contradiction.
      * apply IH; [assumption |]. intros Hin. apply Hnot. right. exact Hin.
  - intros k. specialize (Hkeys k). unfold with_key in *; simpl.
    rewrite Hrows in Hkeys.
    rewrite filter_app, length_app in *; simpl in *.
    destruct (has_key sch k r') eqn:Hr'; simpl.
    + apply has_key_spec in Hr'.
      assert (Hno : forall x, In x (b ++ a) -> has_key sch k x = false).
      { intros x Hx. destruct (has_key sch k x) eqn:E; [| reflexivity].
        apply has_key_spec in E. exfalso. exact (Hk k Hr' x Hx E). }
      rewrite !filter_none; [simpl; lia | |];
        intros x Hx; apply Hno; apply in_or_app; [right | left]; exact Hx.
    + destruct (has_key sch k r); simpl in Hkeys; lia.
  - unfold rows_valid in *; simpl. rewrite Hrows in Hvalid.
    apply Forall_app in Hvalid. destruct Hvalid as [Hb Ha].
    apply Forall_app. split; [exact Hb |].
    inversion Ha; subst. constructor; assumption.
Qed.

Lemma execute_sound (now : timestamp) (s : statement Row) (t : table Row) :
  sound sch t -> sound sch (fst (execute sch now s t)).
Proof.
  destruct s; simpl; [apply sql_insert_sound | apply sql_update_sound].
Qed.

Lemma execute_all_sound (ss : list (timestamp * statement Row)) (t : table Row) :
  sound sch t -> sound sch (execute_all sch ss t).
Proof.
  revert t. induction ss as [| [now s] ss IH]; simpl; intros t Ht; [exact Ht |].
  apply IH. apply execute_sound. exact Ht.
Qed.

End Facts.

Lemma find_app_none {A : Type} (f : A -> bool) (l l' : list A) :
  find f l = None -> find f (l ++ l') = find f l'.
Proof.
  induction l as [| a l IH]; simpl; [reflexivity |].
  destruct (f a); [discriminate | exact IH].
Qed.

Lemma find_replace_false {A : Type} (f : A -> bool) (b a : list A) (r r' : A) :
  f r = false -> f r' = false -> find f (b ++ r' :: a) = find f (b ++ r :: a).
Proof.
  intros Hr Hr'. induction b as [| x b IH]; simpl.
  - rewrite Hr, Hr'. reflexivity.
  - rewrite IH. reflexivity.
Qed.

Lemma find_replace_true {A : Type} (f : A -> bool) (b a : list A) (r' : A) :
  (forall x, In x b -> f x = false) -> f r' = true ->
  find f (b ++ r' :: a) = Some r'.
Proof.
  intros Hb Hr'. induction b as [| x b IH]; simpl.
  - rewrite Hr'. reflexivity.
  - rewrite (Hb x (or_introl eq_refl)). apply IH. intros y Hy. apply Hb. right; exact Hy.
Qed.

(** ** Insert-or-update on a UNIQUE key *)

Section Upsert.
Variables Row Key : Type.
Variable sch : schema Row Key.
Variable k : Key.
Variable values : Row.
Variable set : Row -> Row.

(** The INSERT gives the key columns the value [k]; the SET clause leaves
    the id and the key columns alone. *)
Hypothesis values_key :
  forall i now, unique_key sch (complete sch i now values) = Some k.
Hypothesis set_id : forall r, row_id sch (set r) = row_id sch r.
Hypothesis set_key : forall r, unique_key sch (set r) = unique_key sch r.

Lemma select_some (k' : Key) (t : table Row) (r : Row) :
  select_by_key sch k' t = Some r -> In r (rows t) /\ unique_key sch r = Some k'.
Proof.
  unfold select_by_key. intros H. apply find_some in H.
  destruct H as [Hin Hk]. apply has_key_spec in Hk. split; assumption.
Qed.

Lemma select_none (k' : Key) (t : table Row) :
  select_by_key sch k' t = None ->
  forall x, In x (rows t) -> unique_key sch x <> Some k'.
Proof.
  unfold select_by_key. intros H x Hx E. apply (has_key_spec _ _ sch) in E.
  rewrite (find_none _ _ H x Hx) in E. discriminate.
Qed.

(** Under the UNIQUE constraint the read by key finds the one row that
    has the key. *)
Lemma select_the_row (k' : Key) (t : table Row) (r : Row) :
  keys_unique sch t -> In r (rows t) -> unique_key sch r = Some k' ->
  select_by_key sch k' t = Some r.
Proof.
  intros Hu Hin Hk. unfold select_by_key.
  destruct (find (has_key sch k') (rows t)) as [x |] eqn:E.
  - apply find_some in E. destruct E as [Hx Fx]. f_equal.
    apply (filter_at_most_one (has_key sch k') (rows t)); try assumption.
    + apply Hu.
    + apply has_key_spec. exact Hk.
  - apply (has_key_spec _ _ sch) in Hk. rewrite (find_none _ _ E r Hin) in Hk. discriminate.
Qed.

Lemma others_lack_key (k' : Key) (t : table Row) (b a : list Row) (r : Row) :
  keys_unique sch t -> rows t = b ++ r :: a -> unique_key sch r = Some k' ->
  forall x, In x (b ++ a) -> unique_key sch x <> Some k'.
Proof.
  intros Hu Hrows Hk x Hx E. specialize (Hu k'). unfold with_key in Hu.
  rewrite Hrows, filter_app, length_app in Hu. simpl in Hu.
  apply (has_key_spec _ _ sch) in Hk. rewrite Hk in Hu. simpl in Hu.
  apply (has_key_spec _ _ sch) in E.
  apply in_app_or in Hx. destruct Hx as [Hx | Hx].
  - assert (Hin : In x (filter (has_key sch k') b)) by (apply filter_In; split; assumption).
    destruct (filter (has_key sch k') b); [exact Hin | simpl in Hu; lia].
  - assert (Hin : In x (filter (has_key sch k') a)) by (apply filter_In; split; assumption).
    destruct (filter (has_key sch k') a); [exact Hin | simpl in Hu; lia].
Qed.

Lemma vet_free (r : Row) (others : list Row) :
  (forall x, In x others -> row_id sch x <> row_id sch r) ->
  (forall k', unique_key sch r = Some k' ->
     forall x, In x others -> unique_key sch x <> Some k') ->
  vet sch r others
  = if constraints sch r then None else Some constraint_violation.
Proof.
  intros Hid Hk. destruct (constraints sch r) eqn:Hc.
  - apply vet_none. repeat split; assumption.
  - unfold vet. rewrite Hc. reflexivity.
Qed.

(** The key is there: the row is updated in place, or the statement is
    refused by a column constraint. *)
Lemma upsert_found (now : timestamp) (t : table Row) (r : Row) :
  sound sch t -> select_by_key sch k t = Some r ->
  exists b a,
    rows t = b ++ r :: a
    /\ (forall x, In x b -> has_key sch k x = false)
    /\ upsert sch now k values set t
       = if constraints sch (before_update sch now (set r))
         then ({| rows := b ++ before_update sch now (set r) :: a;
                  next_id := next_id t |},
               Updated (before_update sch now (set r)))
         else (t, Rejected constraint_violation).
Proof.
  intros [Hids Hkeys _] Hsel.
  destruct (select_some _ _ _ Hsel) as [Hin Hk].
  unfold upsert. rewrite Hsel. unfold sql_update.
  destruct (split_at_found _ _ sch r (rows t) Hin) as (b & x & a & E).
  pose proof (split_at_self _ _ sch r (rows t) b a x Hids Hin E) as ->.
  rewrite E. destruct (split_at_some _ _ sch _ _ _ _ _ E) as (Hrows & _ & _).
  exists b, a. split; [exact Hrows |]. split.
  { intros y Hy. destruct (has_key sch k y) eqn:Fy; [| reflexivity].
    apply has_key_spec in Fy. exfalso.
    apply (others_lack_key k t b a r Hkeys Hrows Hk y); [| exact Fy].
    apply in_or_app. left. exact Hy. }
  rewrite vet_free.
  - destruct (constraints sch (before_update sch now (set r))); reflexivity.
  - rewrite before_update_id, set_id. intros y Hy.
    unfold ids_unique in Hids. rewrite Hrows, map_app in Hids. simpl in Hids.
    apply NoDup_remove_2 in Hids. intros Ey. apply Hids.
    rewrite <- Ey, <- map_app. apply in_map. exact Hy.
  - rewrite before_update_key, set_key, Hk. intros k' [= <-].
    apply (others_lack_key k t b a r Hkeys Hrows Hk).
Qed.

(** The key is missing: a row is appended under the next id of the
    sequence, or the statement is refused by a column constraint. *)
Lemma upsert_missing (now : timestamp) (t : table Row) :
  ids_issued sch t -> select_by_key sch k t = None ->
  upsert sch now k values set t
  = if constraints sch (complete sch (next_id t) now values)
    then ({| rows := rows t ++ [complete sch (next_id t) now values];
             next_id := S (next_id t) |},
          Inserted (complete sch (next_id t) now values))
    else ({| rows := rows t; next_id := S (next_id t) |},
          Rejected constraint_violation).
Proof.
  intros Hissued Hsel. unfold upsert. rewrite Hsel. unfold sql_insert.
  rewrite vet_free.
  - destruct (constraints sch (complete sch (next_id t) now values)); reflexivity.
  - rewrite complete_id. intros x Hx.
    unfold ids_issued in Hissued. rewrite Forall_forall in Hissued.
    specialize (Hissued x Hx). lia.
  - rewrite values_key. intros k' [= <-]. apply select_none. exact Hsel.
Qed.

Lemma upsert_consistent (now : timestamp) (t : table Row) :
  consistent sch t -> consistent sch (fst (upsert sch now k values set t)).
Proof.
  intros [Hs Hi]. split.
  - unfold upsert. destruct (select_by_key sch k t);
      [apply sql_update_sound | apply sql_insert_sound]; exact Hs.
  - destruct (select_by_key sch k t) as [r |] eqn:Hsel.
    + destruct (upsert_found now t r Hs Hsel) as (b & a & Hrows & _ & ->).
      destruct (constraints sch (before_update sch now (set r))); simpl; [| exact Hi].
      unfold ids_issued in *; simpl. rewrite Hrows in Hi.
      apply Forall_app in Hi. destruct Hi as [Hb Ha].
      apply Forall_app. split; [exact Hb |].
      inversion Ha; subst. constructor; [| assumption].
      rewrite before_update_id, set_id. assumption.
    + rewrite (upsert_missing now t Hi Hsel).
      unfold ids_issued in *.
      destruct (constraints sch (complete sch (next_id t) now values)); simpl.
      * apply Forall_app. split.
        -- eapply Forall_impl; [| exact Hi]. simpl. intros; lia.
        -- constructor; [rewrite complete_id; lia | constructor].
      * eapply Forall_impl; [| exact Hi]. simpl. intros; lia.
Qed.

(** Rows under another key are read as before. *)
Lemma upsert_other (now : timestamp) (t : table Row) (k' : Key) :
  consistent sch t -> k' <> k ->
  select_by_key sch k' (fst (upsert sch now k values set t))
  = select_by_key sch k' t.
Proof.
  intros [Hs Hi] Hne.
  destruct (select_by_key sch k t) as [r |] eqn:Hsel.
  - destruct (upsert_found now t r Hs Hsel) as (b & a & Hrows & _ & ->).
    destruct (select_some _ _ _ Hsel) as [_ Hk].
    destruct (constraints sch (before_update sch now (set r))); simpl; [| reflexivity].
    unfold select_by_key; simpl. rewrite Hrows.
    apply find_replace_false.
    + destruct (has_key sch k' r) eqn:E; [| reflexivity].
      apply has_key_spec in E. congruence.
    + destruct (has_key sch k' (before_update sch now (set r))) eqn:E; [| reflexivity].
      apply has_key_spec in E. rewrite before_update_key, set_key in E. congruence.
  - rewrite (upsert_missing now t Hi Hsel).
    destruct (constraints sch (complete sch (next_id t) now values)); simpl;
      [| reflexivity].
    unfold select_by_key; simpl.
    destruct (find (has_key sch k') (rows t)) as [x |] eqn:E.
    + clear - E. revert E. generalize (rows t). intros l.
      induction l as [| y l IH]; simpl; [discriminate |].
      destruct (has_key sch k' y); [trivial |]. exact IH.
    + rewrite find_app_none by exact E. simpl.
      destruct (has_key sch k' (complete sch (next_id t) now values)) eqn:F;
        [| reflexivity].
      apply has_key_spec in F. rewrite values_key in F. congruence.
Qed.

(** After an accepted upsert the key reads the row it stored. *)
Lemma upsert_this (now : timestamp) (t : table Row) (r' : Row) :
  consistent sch t ->
  snd (upsert sch now k values set t) = Inserted r'
  \/ snd (upsert sch now k values set t) = Updated r' ->
  select_by_key sch k (fst (upsert sch now k values set t)) = Some r'.
Proof.
  intros [Hs Hi] Hout.
  destruct (select_by_key sch k t) as [r |] eqn:Hsel.
  - destruct (upsert_found now t r Hs Hsel) as (b & a & Hrows & Hb & E).
    rewrite E in *. destruct (select_some _ _ _ Hsel) as [_ Hk].
    destruct (constraints sch (before_update sch now (set r))); simpl in *.
    + destruct Hout as [[=] | [= <-]].
      unfold select_by_key; simpl. apply find_replace_true; [exact Hb |].
      apply has_key_spec. rewrite before_update_key, set_key. exact Hk.
    + destruct Hout as [[=] | [=]].
  - rewrite (upsert_missing now t Hi Hsel) in *.
    destruct (constraints sch (complete sch (next_id t) now values)); simpl in *.
    + destruct Hout as [[= <-] | [=]].
      unfold select_by_key; simpl. rewrite find_app_none by exact Hsel.
      simpl. assert (F : has_key sch k (complete sch (next_id t) now values) = true)
        by (apply has_key_spec; apply values_key).
      rewrite F. reflexivity.
    + destruct Hout as [[=] | [=]].
Qed.

(** Whether the statement passes the column constraints is decided by
    the values the upsert brings. *)
Variable ok : bool.
Hypothesis insert_ok :
  forall i now, constraints sch (complete sch i now values) = ok.
Hypothesis update_ok :
  forall now r, constraints sch r = true -> unique_key sch r = Some k ->
    constraints sch (before_update sch now (set r)) = ok.

Lemma upsert_accepts (now : timestamp) (t : table Row) :
  consistent sch t -> ok = true ->
  exists r',
    select_by_key sch k (fst (upsert sch now k values set t)) = Some r'
    /\ ((select_by_key sch k t = None
         /\ snd (upsert sch now k values set t) = Inserted r'
         /\ row_id sch r' = next_id t
         /\ r' = complete sch (next_id t) now values)
        \/ (exists r, select_by_key sch k t = Some r
              /\ snd (upsert sch now k values set t) = Updated r'
              /\ row_id sch r' = row_id sch r
              /\ r' = before_update sch now (set r))).
Proof.
  intros Hc Hok. pose proof Hc as [Hs Hi].
  destruct (select_by_key sch k t) as [r |] eqn:Hsel.
  - destruct (upsert_found now t r Hs Hsel) as (b & a & Hrows & Hb & E).
    destruct (select_some _ _ _ Hsel) as [Hin Hk].
    pose proof (s_valid Hs) as Hv. unfold rows_valid in Hv.
    rewrite Forall_forall in Hv.
    rewrite (update_ok now r (Hv r Hin) Hk), Hok in E.
    exists (before_update sch now (set r)). split.
    + apply upsert_this; [exact Hc |]. right. rewrite E. reflexivity.
    + right. exists r. rewrite E. simpl.
      rewrite before_update_id, set_id. repeat split.
  - pose proof (upsert_missing now t Hi Hsel) as E.
    rewrite insert_ok, Hok in E.
    exists (complete sch (next_id t) now values). split.
    + apply upsert_this; [exact Hc |]. left. rewrite E. reflexivity.
    + left. rewrite E. simpl. rewrite complete_id. repeat split.
Qed.

Lemma upsert_refuses (now : timestamp) (t : table Row) :
  consistent sch t -> ok = false ->
  snd (upsert sch now k values set t) = Rejected constraint_violation
  /\ rows (fst (upsert sch now k values set t)) = rows t.
Proof.
  intros [Hs Hi] Hok.
  destruct (select_by_key sch k t) as [r |] eqn:Hsel.
  - destruct (upsert_found now t r Hs Hsel) as (b & a & Hrows & Hb & E).
    destruct (select_some _ _ _ Hsel) as [Hin Hk].
    pose proof (s_valid Hs) as Hv. unfold rows_valid in Hv.
    rewrite Forall_forall in Hv.
    rewrite (update_ok now r (Hv r Hin) Hk), Hok in E.
    rewrite E. split; reflexivity.
  - pose proof (upsert_missing now t Hi Hsel) as E.
    rewrite insert_ok, Hok in E. rewrite E. split; reflexivity.
Qed.

(** A key that reads a row keeps reading a row, of the same id. *)
Lemma upsert_extends (now : timestamp) (t : table Row) (k' : Key) (r : Row) :
  consistent sch t -> select_by_key sch k' t = Some r ->
  exists r', select_by_key sch k' (fst (upsert sch now k values set t)) = Some r'
             /\ row_id sch r' = row_id sch r.
Proof.
  intros Hc Hsel. destruct (key_eqb sch k' k) eqn:Ek.
  - apply key_eqb_eq in Ek. subst k'.
    destruct (bool_dec ok true) as [Hok | Hok].
    + destruct (upsert_accepts now t Hc Hok)
        as (r' & Hsel' & [(Hnone & _) | (r0 & Hr0 & _ & Hid & _)]).
      * congruence.
      * exists r'. split; [exact Hsel' |]. congruence.
    + apply not_true_is_false in Hok.
      destruct (upsert_refuses now t Hc Hok) as [_ Hrows].
      exists r. split; [| reflexivity].
      unfold select_by_key in *. rewrite Hrows. exact Hsel.
  - exists r. split; [| reflexivity]. rewrite upsert_other; [exact Hsel | exact Hc |].
    intros ->. rewrite (proj2 (key_eqb_eq sch k k) eq_refl) in Ek. discriminate.
Qed.

Lemma upsert_next_id (now : timestamp) (t : table Row) :
  next_id t <= next_id (fst (upsert sch now k values set t)).
Proof.
  unfold upsert. destruct (select_by_key sch k t) as [r |].
  - unfold sql_update. destruct (split_at sch (row_id sch r) (rows t)) as [[[b x] a] |];
      [| simpl; lia].
    destruct (vet sch _ (b ++ a)); simpl; lia.
  - unfold sql_insert. destruct (vet sch _ (rows t)); simpl; lia.
Qed.

(** Every row after the upsert was there before, or is the row inserted,
    or is the one row rewritten. *)
Lemma upsert_rows_from (now : timestamp) (t : table Row) (x : Row) :
  In x (rows (fst (upsert sch now k values set t))) ->
  In x (rows t)
  \/ x = complete sch (next_id t) now values
  \/ exists r, In r (rows t) /\ x = before_update sch now (set r).
Proof.
  unfold upsert. destruct (select_by_key sch k t) as [r |].
  - destruct (sql_update_cases _ _ sch now (row_id sch r) set t)
      as [[-> _] | (b & r0 & a & Hrows & _ & _ & [(v & _ & ->) | (_ & ->)])];
      simpl; auto.
    intros Hin. rewrite Hrows. apply in_app_or in Hin.
    destruct Hin as [Hin | [<- | Hin]].
    + left. apply in_or_app. left. exact Hin.
    + right. right. exists r0. split; [apply in_elt | reflexivity].
    + left. apply in_or_app. right. right. exact Hin.
  - destruct (sql_insert_cases _ _ sch now values t) as [(v & _ & ->) | (_ & ->)];
      simpl; auto.
    intros Hin. apply in_app_or in Hin. destruct Hin as [Hin | [<- | []]]; auto.
Qed.

Lemma same_id_same_row (t : table Row) (x y : Row) :
  ids_unique sch t -> In x (rows t) -> In y (rows t) ->
  row_id sch x = row_id sch y -> x = y.
Proof.
  unfold ids_unique. induction (rows t) as [| a l IH]; simpl; intros Hnd Hx Hy E;
    [contradiction |].
  inversion Hnd as [| ? ? Ha Hnd']; subst.
  destruct Hx as [-> | Hx], Hy as [-> | Hy]; try reflexivity.
  - exfalso. apply Ha. rewrite E. apply in_map. exact Hy.
  - exfalso. apply Ha. rewrite <- E. apply in_map. exact Hx.
  - apply IH; assumption.
Qed.

Lemma select_same_rows (k' : Key) (t t' : table Row) :
  rows t' = rows t -> select_by_key sch k' t' = select_by_key sch k' t.
Proof. unfold select_by_key. intros ->. reflexivity. Qed.

End Upsert.
End SqlFacts.

(* --------------------------------------------------------------------- *)
(** ** The schema: natural keys and the status of a log row *)
(* --------------------------------------------------------------------- *)

Module SchemaFacts.
Import Sql SqlFacts.

Lemma one_of_in (allowed : list string) (s : string) :
  one_of allowed (Some s) = true -> In s allowed.
Proof.
  simpl. intros H. apply existsb_exists in H. destruct H as (x & Hx & E).
  apply String.eqb_eq in E. subst. exact Hx.
Qed.

(** The rows counted by [with_key] on auctions are those holding the
    house and the external id. *)
Lemma with_key_auctions (t : table Auctions.row) (h : nat) (e : string)
  (r : Auctions.row) :
  In r (with_key Auctions.schema (h, e) t) <->
  In r (rows t) /\ Auctions.house_id r = Some h /\ Auctions.external_id r = Some e.
Proof.
  unfold with_key. rewrite filter_In, has_key_spec. simpl.
  unfold Auctions.natural_key.
  destruct (Auctions.house_id r) as [h' |], (Auctions.external_id r) as [e' |];
    split; intros [Hin H]; split; try exact Hin;
    try discriminate; try (destruct H; discriminate).
  - injection H as -> ->. split; reflexivity.
  - destruct H as [[= ->] [= ->]]. reflexivity.
Qed.

Lemma with_key_lots (t : table Lots.row) (a : nat) (n : string) (r : Lots.row) :
  In r (with_key Lots.schema (a, n) t) <->
  In r (rows t) /\ Lots.auction_id r = Some a /\ Lots.lot_number r = Some n.
Proof.
  unfold with_key. rewrite filter_In, has_key_spec. simpl.
  unfold Lots.natural_key.
  destruct (Lots.auction_id r) as [a' |], (Lots.lot_number r) as [n' |];
    split; intros [Hin H]; split; try exact Hin;
    try discriminate; try (destruct H; discriminate).
  - injection H as -> ->. split; reflexivity.
  - destruct H as [[= ->] [= ->]]. reflexivity.
Qed.

(** C1: whatever INSERT and UPDATE statements reach the two tables, from
    however many runs and in whatever interleaving, at most one auction
    row holds a given (house id, external id) and at most one lot row a
    given (auction id, lot number).  The external id of the key is a
    value: UNIQUE does not compare NULLs. *)
Theorem natural_keys_stay_unique
  (on_auctions : list (timestamp * statement Auctions.row))
  (on_lots : list (timestamp * statement Lots.row))
  (house : nat) (external_id : string) (auction : nat) (lot_number : string) :
  List.length (with_key Auctions.schema (house, external_id)
                 (execute_all Auctions.schema on_auctions (empty Auctions.row))) <= 1
  /\ List.length (with_key Lots.schema (auction, lot_number)
                    (execute_all Lots.schema on_lots (empty Lots.row))) <= 1.
Proof.
  split.
  - apply (s_keys
             (execute_all_sound _ _ Auctions.schema on_auctions _
                (empty_sound _ _ Auctions.schema))).
  - apply (s_keys
             (execute_all_sound _ _ Lots.schema on_lots _
                (empty_sound _ _ Lots.schema))).
Qed.

(** Two auctions of one house without an external id are both stored, and
    a second one with the same external id is refused. *)
Example external_id_null_or_taken :
  let untitled :=
    {| Auctions.id := 0; Auctions.house_id := Some 1; Auctions.title := Some "Sale";
       Auctions.description := None; Auctions.start_date := None;
       Auctions.end_date := None; Auctions.exhibition_start := None;
       Auctions.exhibition_end := None; Auctions.status := None;
       Auctions.location := None; Auctions.auction_type := None;
       Auctions.slug := None; Auctions.external_id := None;
       Auctions.total_lots := None; Auctions.total_estimate_min := None;
       Auctions.total_estimate_max := None; Auctions.total_realized := None;
       Auctions.currency := None; Auctions.sale_rate := None;
       Auctions.created_at := None; Auctions.updated_at := None |} in
  let keyed :=
    Pipeline.auction_values
      {| Pipeline.house_id := 1; Pipeline.external_id := "101";
         Pipeline.title := "Spring Sale"; Pipeline.start_date := None;
         Pipeline.end_date := None; Pipeline.exhibition_start := None;
         Pipeline.exhibition_end := None; Pipeline.status := None;
         Pipeline.total_lots := None; Pipeline.total_estimate_min := None;
         Pipeline.total_estimate_max := None; Pipeline.total_realized := None |} in
  List.length (rows (execute_all Auctions.schema
                       [(0%Z, INSERT untitled); (1%Z, INSERT untitled)]
                       (empty Auctions.row))) = 2
  /\ snd (execute Auctions.schema 3%Z (INSERT keyed)
            (execute_all Auctions.schema [(2%Z, INSERT keyed)] (empty Auctions.row)))
     = Rejected unique_violation.
Proof. split; reflexivity. Qed.

(** C4, as the schema has it: whatever INSERT and UPDATE statements reach
    [scraping_logs], every row of it has a status, and that status is one
    of started, completed, failed and cancelled. *)
Theorem scraping_logs_status_checked
  (ss : list (timestamp * statement ScrapingLogs.row)) :
  Forall (fun r => exists s, ScrapingLogs.status r = Some s
                             /\ In s ScrapingLogs.statuses)
    (rows (execute_all ScrapingLogs.schema ss (empty ScrapingLogs.row))).
Proof.
  pose proof (s_valid
    (execute_all_sound _ _ ScrapingLogs.schema ss _
       (empty_sound _ _ ScrapingLogs.schema))) as Hvalid.
  unfold rows_valid in Hvalid. eapply Forall_impl; [| exact Hvalid].
  intros r Hr. simpl in Hr. unfold ScrapingLogs.constraints in Hr.
  repeat (apply andb_true_iff in Hr; destruct Hr as [Hr ?]).
  destruct (ScrapingLogs.status r) as [s |] eqn:Es; [| discriminate].
  exists s. split; [reflexivity |]. apply one_of_in. assumption.
Qed.

(** C4 as stated fails on the schema.  A job that starts is stored as
    started, which is not among pending, running, completed, failed and
    cancelled; pending and running are refused by the CHECK; and a row
    that is completed may be set back to started. *)
Lemma scraping_logs_states_differ :
  let insert s :=
    sql_insert ScrapingLogs.schema 0%Z
      (ScrapingLogs.started_values None "auctions" s) (empty ScrapingLogs.row) in
  (exists r, snd (insert "started") = Inserted r
             /\ ScrapingLogs.status r = Some "started"
             /\ ~ In "started" ScrapingLogs.spec_states)
  /\ snd (insert "running") = Rejected constraint_violation
  /\ snd (insert "pending") = Rejected constraint_violation
  /\ (exists r r', snd (insert "completed") = Inserted r
        /\ snd (sql_update ScrapingLogs.schema 9%Z (ScrapingLogs.id r)
                  (ScrapingLogs.set_status "started") (fst (insert "completed")))
           = Updated r'
        /\ ScrapingLogs.status r' = Some "started").
Proof.
  repeat split.
  - eexists. split; [reflexivity |]. split; [reflexivity |].
    unfold ScrapingLogs.spec_states. simpl.
    intros H. repeat (destruct H as [H | H]; [discriminate |]). exact H.
  - eexists. eexists. split; [reflexivity |]. split; reflexivity.
Qed.

End SchemaFacts.

(* --------------------------------------------------------------------- *)
(** ** Artist resolution and the upsert of auctions and lots *)
(* --------------------------------------------------------------------- *)

Module PipelineFacts.
Import Sql SqlFacts Pipeline.

Lemma empty_consistent (Row Key : Type) (sch : schema Row Key) :
  consistent sch (empty Row).
Proof. split; [apply empty_sound | constructor]. Qed.

(** C8: artist resolution first looks for a record whose name is the
    normalized name and returns it with the table untouched; only when no
    record has that name does it create one, and a record it creates has
    the normalized name and [verified] false. *)
Theorem resolve_artist_creates_unverified (normalize : string -> string)
  (now : timestamp) (raw : string) (t : table Artists.row) :
  match resolve_artist normalize now raw t with
  | (t', Resolved r) =>
      t' = t /\ In r (rows t) /\ Artists.name r = Some (normalize raw)
  | (t', Fresh r) =>
      (forall x, In x (rows t) -> Artists.name x <> Some (normalize raw))
      /\ rows t' = rows t ++ [r]
      /\ Artists.name r = Some (normalize raw)
      /\ Artists.verified r = Some false
  | (t', Refused v) =>
      (forall x, In x (rows t) -> Artists.name x <> Some (normalize raw))
      /\ rows t' = rows t
  end.
Proof.
  unfold resolve_artist.
  destruct (find (named (normalize raw)) (rows t)) as [r |] eqn:E.
  - apply find_some in E. destruct E as [Hin Hn]. repeat split; [exact Hin |].
    unfold named in Hn. destruct (Artists.name r) as [s |]; [| discriminate].
    apply String.eqb_eq in Hn. subst. reflexivity.
  - assert (Hno : forall x, In x (rows t) -> Artists.name x <> Some (normalize raw)).
    { intros x Hx Hn. pose proof (find_none _ _ E x Hx) as F.
      unfold named in F. rewrite Hn, String.eqb_refl in F. discriminate. }
    unfold sql_insert.
    destruct (vet Artists.schema _ (rows t)) as [v |]; simpl.
    + split; [exact Hno | reflexivity].
    + repeat split. exact Hno.
Qed.

(** On the seed data: a known painter is found, verified as seeded, and an
    unknown one is created unverified. *)
Example resolve_artist_on_seed :
  (exists r, resolve_artist (fun s => s) 7%Z "Frida Kahlo" seeded = (seeded, Resolved r)
             /\ Artists.id r = 2 /\ Artists.verified r = Some true)
  /\ (exists t' r, resolve_artist (fun s => s) 7%Z "Remedios Varo" seeded = (t', Fresh r)
             /\ Artists.id r = 9 /\ Artists.verified r = Some false
             /\ Artists.created_at r = Some 7%Z).
Proof.
  split.
  - eexists. split; [reflexivity |]. split; reflexivity.
  - eexists. eexists. split; [reflexivity |]. repeat split.
Qed.





#[local] Arguments Sql.varchar : simpl never.
#[local] Arguments Sql.numeric : simpl never.
#[local] Arguments Sql.integer : simpl never.
#[local] Arguments Sql.one_of : simpl never.

(** Checks on the values the DEFAULT clauses put in, and on NULL. *)
Ltac defaults_pass :=
  change (varchar 50 (Some "live")) with true;
  change (one_of ["live"; "online"; "hybrid"] (Some "live")) with true;
  change (varchar 3 (Some "USD")) with true;
  change (varchar 20 (Some "upcoming")) with true;
  change (one_of ["upcoming"; "active"; "completed"; "cancelled"] (Some "upcoming"))
    with true;
  change (integer (Some 0%Z)) with true;
  repeat match goal with
    | |- context [varchar ?n None] => change (varchar n None) with true
    | |- context [numeric ?n None] => change (numeric n None) with true
    | |- context [integer None] => change (integer None) with true
    | |- context [one_of ?l None] => change (one_of l None) with true
    end.

(** Checks on NULL. *)
Ltac nulls_pass :=
  repeat match goal with
    | |- context [varchar ?n None] => change (varchar n None) with true
    | |- context [numeric ?n None] => change (numeric n None) with true
    | |- context [integer None] => change (integer None) with true
    | |- context [one_of ?l None] => change (one_of l None) with true
    end.

(** The remaining checks, as boolean unknowns. *)
Ltac checks_as_unknowns :=
  repeat match goal with
    | |- context [varchar ?n ?x] => generalize (varchar n x); intro
    | |- context [numeric ?n ?x] => generalize (numeric n x); intro
    | |- context [integer ?x] => generalize (integer x); intro
    | |- context [one_of ?l ?x] => generalize (one_of l x); intro
    end.

(** Whether the database takes the row depends on the candidate alone. *)
Lemma auction_insert_constraints (i : nat) (now : timestamp) (c : auction_candidate) :
  Auctions.constraints (Auctions.complete i now (auction_values c))
  = auction_candidate_ok c.
Proof.
  unfold Auctions.constraints, auction_candidate_ok; simpl.
  destruct (status c), (total_lots c); simpl; defaults_pass;
    checks_as_unknowns; btauto.
Qed.

Lemma auction_update_constraints (now : timestamp) (c : auction_candidate)
  (r : Auctions.row) :
  Auctions.constraints r = true ->
  Auctions.natural_key r = Some (house_id c, external_id c) ->
  Auctions.constraints (Auctions.update_updated_at_column now (auction_set c r))
  = auction_candidate_ok c.
Proof.
  intros Hr Hk. unfold Auctions.natural_key in Hk.
  destruct (Auctions.house_id r) as [h |] eqn:Eh; [| discriminate].
  destruct (Auctions.external_id r) as [e |] eqn:Ee; [| discriminate].
  injection Hk as -> ->.
  unfold Auctions.constraints in Hr. rewrite Eh, Ee in Hr.
  repeat (apply andb_true_iff in Hr; destruct Hr as [Hr ?]).
  unfold Auctions.constraints, auction_candidate_ok; simpl. rewrite Eh, Ee.
  destruct (status c), (total_lots c), (total_estimate_min c),
    (total_estimate_max c), (total_realized c); cbn [carried];
    repeat match goal with H : _ = true |- _ => rewrite ?H; clear H end;
    simpl; nulls_pass; checks_as_unknowns; btauto.
Qed.

Lemma lot_insert_constraints (i : nat) (now : timestamp) (c : lot_candidate) :
  Lots.constraints (Lots.complete i now (lot_values c)) = lot_candidate_ok c.
Proof.
  unfold Lots.constraints, lot_candidate_ok; simpl. defaults_pass.
  checks_as_unknowns; btauto.
Qed.

Lemma lot_update_constraints (now : timestamp) (c : lot_candidate) (r : Lots.row) :
  Lots.constraints r = true ->
  Lots.natural_key r = Some (auction_id c, lot_number c) ->
  Lots.constraints (Lots.update_updated_at_column now (lot_set c r))
  = lot_candidate_ok c.
Proof.
  intros Hr Hk. unfold Lots.natural_key in Hk.
  destruct (Lots.auction_id r) as [h |] eqn:Eh; [| discriminate].
  destruct (Lots.lot_number r) as [e |] eqn:Ee; [| discriminate].
  injection Hk as -> ->.
  unfold Lots.constraints in Hr. rewrite Eh, Ee in Hr.
  repeat (apply andb_true_iff in Hr; destruct Hr as [Hr ?]).
  unfold Lots.constraints, lot_candidate_ok; simpl. rewrite Eh, Ee.
  destruct (estimated_price_min c), (estimated_price_max c); cbn [carried];
    repeat match goal with H : _ = true |- _ => rewrite ?H; clear H end;
    simpl; nulls_pass; checks_as_unknowns; btauto.
Qed.


Lemma upsert_auction_consistent (now : timestamp) (c : auction_candidate)
  (t : table Auctions.row) :
  consistent Auctions.schema t ->
  consistent Auctions.schema (fst (upsert_auction now c t)).
Proof.
  apply (upsert_consistent _ _ Auctions.schema (house_id c, external_id c)
           (auction_values c) (auction_set c)
           (fun _ _ => eq_refl) (fun _ => eq_refl) (fun _ => eq_refl)).
Qed.

Lemma upsert_lot_consistent (now : timestamp) (c : lot_candidate) (t : table Lots.row) :
  consistent Lots.schema t -> consistent Lots.schema (fst (upsert_lot now c t)).
Proof.
  apply (upsert_consistent _ _ Lots.schema (auction_id c, lot_number c)
           (lot_values c) (lot_set c)
           (fun _ _ => eq_refl) (fun _ => eq_refl) (fun _ => eq_refl)).
Qed.

Lemma upsert_auction_accepts (now : timestamp) (c : auction_candidate)
  (t : table Auctions.row) :
  consistent Auctions.schema t -> auction_candidate_ok c = true ->
  exists r',
    select_by_key Auctions.schema (house_id c, external_id c)
      (fst (upsert_auction now c t)) = Some r'
    /\ ((select_by_key Auctions.schema (house_id c, external_id c) t = None
         /\ snd (upsert_auction now c t) = Inserted r'
         /\ Auctions.id r' = next_id t
         /\ r' = Auctions.complete (next_id t) now (auction_values c))
        \/ (exists r,
              select_by_key Auctions.schema (house_id c, external_id c) t = Some r
              /\ snd (upsert_auction now c t) = Updated r'
              /\ Auctions.id r' = Auctions.id r
              /\ r' = Auctions.update_updated_at_column now (auction_set c r))).
Proof.
  apply (upsert_accepts _ _ Auctions.schema (house_id c, external_id c)
           (auction_values c) (auction_set c)
           (fun _ _ => eq_refl) (fun _ => eq_refl) (fun _ => eq_refl)
           (auction_candidate_ok c)
           (fun i now => auction_insert_constraints i now c)
           (fun now r => auction_update_constraints now c r)).
Qed.

Lemma upsert_auction_refuses (now : timestamp) (c : auction_candidate)
  (t : table Auctions.row) :
  consistent Auctions.schema t -> auction_candidate_ok c = false ->
  snd (upsert_auction now c t) = Rejected constraint_violation
  /\ rows (fst (upsert_auction now c t)) = rows t.
Proof.
  apply (upsert_refuses _ _ Auctions.schema (house_id c, external_id c)
           (auction_values c) (auction_set c)
           (fun _ _ => eq_refl) (fun _ => eq_refl) (fun _ => eq_refl)
           (auction_candidate_ok c)
           (fun i now => auction_insert_constraints i now c)
           (fun now r => auction_update_constraints now c r)).
Qed.

Lemma upsert_auction_extends (now : timestamp) (c : auction_candidate)
  (t : table Auctions.row) (k' : nat * string) (r : Auctions.row) :
  consistent Auctions.schema t -> select_by_key Auctions.schema k' t = Some r ->
  exists r', select_by_key Auctions.schema k' (fst (upsert_auction now c t)) = Some r'
             /\ Auctions.id r' = Auctions.id r.
Proof.
  apply (upsert_extends _ _ Auctions.schema (house_id c, external_id c)
           (auction_values c) (auction_set c)
           (fun _ _ => eq_refl) (fun _ => eq_refl) (fun _ => eq_refl)
           (auction_candidate_ok c)
           (fun i now => auction_insert_constraints i now c)
           (fun now r => auction_update_constraints now c r)).
Qed.

Lemma upsert_lot_accepts (now : timestamp) (c : lot_candidate) (t : table Lots.row) :
  consistent Lots.schema t -> lot_candidate_ok c = true ->
  exists r',
    select_by_key Lots.schema (auction_id c, lot_number c)
      (fst (upsert_lot now c t)) = Some r'
    /\ ((select_by_key Lots.schema (auction_id c, lot_number c) t = None
         /\ snd (upsert_lot now c t) = Inserted r'
         /\ Lots.id r' = next_id t
         /\ r' = Lots.complete (next_id t) now (lot_values c))
        \/ (exists r,
              select_by_key Lots.schema (auction_id c, lot_number c) t = Some r
              /\ snd (upsert_lot now c t) = Updated r'
              /\ Lots.id r' = Lots.id r
              /\ r' = Lots.update_updated_at_column now (lot_set c r))).
Proof.
  apply (upsert_accepts _ _ Lots.schema (auction_id c, lot_number c)
           (lot_values c) (lot_set c)
           (fun _ _ => eq_refl) (fun _ => eq_refl) (fun _ => eq_refl)
           (lot_candidate_ok c)
           (fun i now => lot_insert_constraints i now c)
           (fun now r => lot_update_constraints now c r)).
Qed.

Lemma upsert_lot_refuses (now : timestamp) (c : lot_candidate) (t : table Lots.row) :
  consistent Lots.schema t -> lot_candidate_ok c = false ->
  snd (upsert_lot now c t) = Rejected constraint_violation
  /\ rows (fst (upsert_lot now c t)) = rows t.
Proof.
  apply (upsert_refuses _ _ Lots.schema (auction_id c, lot_number c)
           (lot_values c) (lot_set c)
           (fun _ _ => eq_refl) (fun _ => eq_refl) (fun _ => eq_refl)
           (lot_candidate_ok c)
           (fun i now => lot_insert_constraints i now c)
           (fun now r => lot_update_constraints now c r)).
Qed.

Lemma upsert_lot_extends (now : timestamp) (c : lot_candidate) (t : table Lots.row)
  (k' : nat * string) (r : Lots.row) :
  consistent Lots.schema t -> select_by_key Lots.schema k' t = Some r ->
  exists r', select_by_key Lots.schema k' (fst (upsert_lot now c t)) = Some r'
             /\ Lots.id r' = Lots.id r.
Proof.
  apply (upsert_extends _ _ Lots.schema (auction_id c, lot_number c)
           (lot_values c) (lot_set c)
           (fun _ _ => eq_refl) (fun _ => eq_refl) (fun _ => eq_refl)
           (lot_candidate_ok c)
           (fun i now => lot_insert_constraints i now c)
           (fun now r => lot_update_constraints now c r)).
Qed.





End PipelineFacts.

(* --------------------------------------------------------------------- *)
(** ** The task: errors and the queue *)
(* --------------------------------------------------------------------- *)

Module TaskFacts.
Import Sql SqlFacts Tasks.

Lemma for_auction_data_app (now : timestamp) (adapter : ScrapingAdapter)
  (l1 l2 : list AuctionData) (j : job) :
  for_auction_data now adapter (l1 ++ l2) j
  = match for_auction_data now adapter l1 j with
    | (j1, None) => for_auction_data now adapter l2 j1
    | (j1, Some e) => (j1, Some e)
    end.
Proof.
  revert j. induction l1 as [| d l1 IH]; intros j; simpl; [reflexivity |].
  destruct (save_auction now (house adapter) d j) as [j1 [e | a]]; [reflexivity |].
  destruct (url d) as [u |]; [| reflexivity].
  destruct (scrape_lots adapter u) as [e | lots]; [reflexivity |].
  destruct (save_lots now (Auctions.id a) lots j1) as [j2 [e |]]; [reflexivity |].
  apply IH.
Qed.

Lemma for_auction_data_one_raises (now : timestamp) (adapter : ScrapingAdapter)
  (bad : AuctionData) (rest : list AuctionData) (j j' : job) (e : exn) :
  for_auction_data now adapter [bad] j = (j', Some e) ->
  for_auction_data now adapter (bad :: rest) j = (j', Some e).
Proof.
  simpl.
  destruct (save_auction now (house adapter) bad j) as [j1 [e1 | a]]; [trivial |].
  destruct (url bad) as [u |]; [| trivial].
  destruct (scrape_lots adapter u) as [e1 | lots]; [trivial |].
  destruct (save_lots now (Auctions.id a) lots j1) as [j2 [e1 |]]; [trivial |].
  discriminate.
Qed.

(** Without an exception the job ends in [log_scraping_success]. *)
Lemma no_error_is_success (now : timestamp) (registry : adapters)
  (house_name : string) (adapter : ScrapingAdapter) (w : world)
  (items : list AuctionData) (j : job) :
  get_adapter registry house_name = Some adapter ->
  scrape_auctions adapter = inr items ->
  for_auction_data now adapter items (starting (store w)) = (j, None) ->
  scrape_house_data now registry house_name w
  = ({| store := db j; log := log w ++ [log_scraping_success house_name] |},
     inr {| entry := log_scraping_success house_name;
            auctions_tally := auctions_count j;
            lots_tally := lots_count j |}).
Proof.
  intros Hget Hlist Hrun.
  unfold scrape_house_data, try_block. rewrite Hget, Hlist, Hrun. reflexivity.
Qed.

(** C3 as stated fails.  With five auctions of which the third has a lot
    page that does not parse, the job ends in [log_scraping_error] with
    the message of that exception as its one entry in the log, and the
    fourth and fifth auction are not in the store; with a third auction
    that has no title, what [save_auction] raises ends the job, and the
    first two alone are stored. *)
Lemma third_item_fails_job_fails :
  (exists w r,
     scrape_house_data 10%Z third_page_fails "bogota_auctions" fresh_world = (w, inr r)
     /\ entry r = log_scraping_error "bogota_auctions" "lot page"
     /\ log w = [log_scraping_error "bogota_auctions" "lot page"]
     /\ stored_ids (store w) = [Some "101"; Some "102"; Some "103"])
  /\ (exists w r,
     scrape_house_data 10%Z third_untitled "bogota_auctions" fresh_world = (w, inr r)
     /\ entry r = log_scraping_error "bogota_auctions" (str (ValidationError "title"))
     /\ log w = [entry r]
     /\ stored_ids (store w) = [Some "101"; Some "102"]).
Proof.
  split; eexists; eexists; (split; [reflexivity |]); repeat split.
Qed.

(** ** The queue *)

Lemma schedule_scraping_jobs_queue (registry : adapters) (b : broker) :
  queue (schedule_scraping_jobs registry b)
  = queue b ++ combine (seq (next_task b) (List.length registry)) (map fst registry)
  /\ next_task (schedule_scraping_jobs registry b)
     = next_task b + List.length registry.
Proof.
  unfold schedule_scraping_jobs. revert b.
  induction registry as [| p registry IH]; intros b.
  - simpl. rewrite app_nil_r. split; [reflexivity | lia].
  - cbn [fold_left]. destruct (IH (fst (delay (fst p) b))) as [Hq Hn].
    rewrite Hq, Hn. simpl.
    rewrite <- app_assoc. simpl. split; [reflexivity | lia].
Qed.

Lemma queued_for_new (house_name : string) (names : list string) (first : nat) :
  In house_name names -> NoDup names ->
  List.length
    (filter (fun m : nat * string => String.eqb (snd m) house_name)
       (combine (seq first (List.length names)) names)) = 1.
Proof.
  revert first. induction names as [| n names IH]; intros first Hin Hnd; simpl.
  - contradiction.
  - inversion Hnd as [| ? ? Hn Hnd']; subst.
    destruct (String.eqb n house_name) eqn:E; simpl.
    + apply String.eqb_eq in E. subst n. f_equal.
      rewrite filter_none; [reflexivity |].
      intros [i m] Hm. simpl. apply in_combine_r in Hm.
      destruct (String.eqb m house_name) eqn:E'; [| reflexivity].
      apply String.eqb_eq in E'. subst m. contradiction.
    + destruct Hin as [-> | Hin]; [rewrite String.eqb_refl in E; discriminate |].
      apply IH; assumption.
Qed.

(** C6, as the orchestrator has it: every call of
    [schedule_scraping_jobs] puts one task per registered adapter at the
    end of the queue, each under a new task id, whatever the queue holds
    already; so the tasks queued for a registered house grow by one with
    every call. *)
Theorem schedule_scraping_jobs_enqueues_all (registry : adapters) (b : broker)
  (house_name : string) :
  NoDup (map fst registry) -> In house_name (map fst registry) ->
  queue (schedule_scraping_jobs registry b)
  = queue b ++ combine (seq (next_task b) (List.length registry)) (map fst registry)
  /\ List.length (queued_for house_name (schedule_scraping_jobs registry b))
     = S (List.length (queued_for house_name b)).
Proof.
  intros Hnd Hin. destruct (schedule_scraping_jobs_queue registry b) as [Hq _].
  split; [exact Hq |]. unfold queued_for. rewrite Hq, filter_app, length_app.
  rewrite <- (length_map fst registry).
  rewrite (queued_for_new house_name (map fst registry) (next_task b) Hin Hnd). lia.
Qed.

Lemma plan_registry_names :
  NoDup (map fst plan_registry) /\ In "setdart" (map fst plan_registry).
Proof.
  split.
  - simpl. repeat constructor; simpl; intros H;
      repeat (destruct H as [H | H]; [discriminate |]); exact H.
  - simpl. auto.
Qed.

Lemma schedule_scraping_jobs_enqueues_all_witness :
  List.length (queued_for "setdart" (schedule_scraping_jobs plan_registry idle)) = 1.
Proof.
  destruct plan_registry_names as [Hnd Hin].
  exact (proj2 (schedule_scraping_jobs_enqueues_all plan_registry idle "setdart" Hnd Hin)).
Defined.

(** C6 as stated fails: a second call while the first task of a house is
    still queued is not refused, it queues a second task for the house,
    and a trigger of the task itself comes back with a new task id, not
    with the id of the task that is waiting. *)
Lemma second_trigger_enqueues_again :
  let once := schedule_scraping_jobs plan_registry idle in
  queued_for "bogota_auctions" once = [(0, "bogota_auctions")]
  /\ queued_for "bogota_auctions" (schedule_scraping_jobs plan_registry once)
     = [(0, "bogota_auctions"); (4, "bogota_auctions")]
  /\ snd (delay "bogota_auctions" once) = 4
  /\ queued_for "bogota_auctions" (fst (delay "bogota_auctions" once))
     = [(0, "bogota_auctions"); (4, "bogota_auctions")].
Proof. repeat split. Qed.

End TaskFacts.

(* --------------------------------------------------------------------- *)
(** ** What a run keeps and what it commits *)
(* --------------------------------------------------------------------- *)

Module RunFacts.
Import Sql SqlFacts Pipeline PipelineFacts Tasks.

Lemma extends_refl (d : database) : extends d d.
Proof. split; intros k r H; exists r; (split; [exact H | reflexivity]). Qed.

Lemma extends_trans (d1 d2 d3 : database) :
  extends d1 d2 -> extends d2 d3 -> extends d1 d3.
Proof.
  intros [Ha Hl] [Ha' Hl']. split; intros k r H.
  - destruct (Ha k r H) as (r' & H' & E). destruct (Ha' k r' H') as (r'' & H'' & E').
    exists r''. split; [exact H'' | congruence].
  - destruct (Hl k r H) as (r' & H' & E). destruct (Hl' k r' H') as (r'' & H'' & E').
    exists r''. split; [exact H'' | congruence].
Qed.

(** The normalizer stamps the candidate with the source it is given. *)
Lemma normalize_auction_house (h : nat) (d : AuctionData) (c : auction_candidate) :
  normalize_auction h d = inr c -> house_id c = h.
Proof.
  unfold normalize_auction.
  destruct (Tasks.external_id d), (Tasks.title d); intros [=]; subst; reflexivity.
Qed.

Lemma normalize_lot_auction (a : nat) (d : LotData) (c : lot_candidate) :
  normalize_lot a d = inr c -> auction_id c = a.
Proof.
  unfold normalize_lot.
  destruct (Tasks.lot_number d), (Tasks.lot_title d); intros [=]; subst; reflexivity.
Qed.

(** Whatever [save_auction] answers, the store stays consistent, loses no
    row and keeps its lots. *)
Lemma save_auction_keeps (now : timestamp) (h : nat) (d : AuctionData) (j : job) :
  db_consistent (db j) ->
  db_consistent (db (fst (save_auction now h d j)))
  /\ extends (db j) (db (fst (save_auction now h d j)))
  /\ lots (db (fst (save_auction now h d j))) = lots (db j)
  /\ lots_count (fst (save_auction now h d j)) = lots_count j.
Proof.
  intros Hj. pose proof Hj as [Ha Hl]. unfold save_auction.
  destruct (normalize_auction h d) as [e | c]; simpl.
  { split; [exact Hj |]. split; [apply extends_refl |]. split; reflexivity. }
  pose proof (upsert_auction_consistent now c _ Ha) as Hc.
  pose proof (fun k r => upsert_auction_extends now c _ k r Ha) as He.
  destruct (upsert_auction now c (auctions (db j))) as [t' o]. simpl in Hc, He.
  assert (G : db_consistent {| auctions := t'; lots := lots (db j) |}
              /\ extends (db j) {| auctions := t'; lots := lots (db j) |}).
  { split; [split; assumption |]. split; simpl.
    - exact He.
    - intros k r H; exists r; auto. }
  destruct G as [G1 G2].
  destruct o; simpl; (split; [exact G1 |]); (split; [exact G2 |]); split; reflexivity.
Qed.

Lemma save_lot_keeps (now : timestamp) (a : nat) (d : LotData) (j : job) :
  db_consistent (db j) ->
  db_consistent (db (fst (save_lot now a d j)))
  /\ extends (db j) (db (fst (save_lot now a d j)))
  /\ auctions (db (fst (save_lot now a d j))) = auctions (db j)
  /\ auctions_count (fst (save_lot now a d j)) = auctions_count j.
Proof.
  intros Hj. pose proof Hj as [Ha Hl]. unfold save_lot.
  destruct (normalize_lot a d) as [e | c]; simpl.
  { split; [exact Hj |]. split; [apply extends_refl |]. split; reflexivity. }
  pose proof (upsert_lot_consistent now c _ Hl) as Hc.
  pose proof (fun k r => upsert_lot_extends now c _ k r Hl) as He.
  destruct (upsert_lot now c (lots (db j))) as [t' o]. simpl in Hc, He.
  assert (G : db_consistent {| auctions := auctions (db j); lots := t' |}
              /\ extends (db j) {| auctions := auctions (db j); lots := t' |}).
  { split; [split; assumption |]. split; simpl.
    - intros k r H; exists r; auto.
    - exact He. }
  destruct G as [G1 G2].
  destruct o; simpl; (split; [exact G1 |]); (split; [exact G2 |]); split; reflexivity.
Qed.

Lemma save_lots_keeps (now : timestamp) (a : nat) (ls : list LotData) (j : job) :
  db_consistent (db j) ->
  db_consistent (db (fst (save_lots now a ls j)))
  /\ extends (db j) (db (fst (save_lots now a ls j)))
  /\ auctions (db (fst (save_lots now a ls j))) = auctions (db j)
  /\ auctions_count (fst (save_lots now a ls j)) = auctions_count j.
Proof.
  revert j. induction ls as [| d ls IH]; intros j Hj; simpl.
  { split; [exact Hj |]. split; [apply extends_refl |]. split; reflexivity. }
  destruct (save_lot_keeps now a d j Hj) as (H1 & H2 & H3 & H4).
  destruct (save_lot now a d j) as [j' [e |]]; simpl in *.
  - split; [exact H1 |]. split; [exact H2 |]. split; assumption.
  - destruct (IH j' H1) as (G1 & G2 & G3 & G4).
    split; [exact G1 |]. split; [apply (extends_trans _ _ _ H2 G2) |].
    split; congruence.
Qed.

Lemma for_auction_data_keeps (now : timestamp) (ad : ScrapingAdapter)
  (l : list AuctionData) (j : job) :
  db_consistent (db j) ->
  db_consistent (db (fst (for_auction_data now ad l j)))
  /\ extends (db j) (db (fst (for_auction_data now ad l j))).
Proof.
  revert j. induction l as [| d l IH]; intros j Hj; simpl.
  { split; [exact Hj | apply extends_refl]. }
  destruct (save_auction_keeps now (house ad) d j Hj) as (H1 & H2 & _).
  destruct (save_auction now (house ad) d j) as [j1 [e | a]]; simpl in *.
  { split; assumption. }
  destruct (url d) as [u |]; [| split; assumption].
  destruct (scrape_lots ad u) as [e | ls]; [split; assumption |].
  destruct (save_lots_keeps now (Auctions.id a) ls j1 H1) as (G1 & G2 & _).
  destruct (save_lots now (Auctions.id a) ls j1) as [j2 [e |]]; simpl in *.
  { split; [exact G1 | apply (extends_trans _ _ _ H2 G2)]. }
  destruct (IH j2 G1) as (K1 & K2).
  split; [exact K1 |].
  apply (extends_trans _ _ _ H2). apply (extends_trans _ _ _ G2 K2).
Qed.

(** A lot that went through was valid, is now in the store, and was
    counted. *)
Lemma save_lot_first (now : timestamp) (a : nat) (d : LotData) (j j' : job) :
  db_consistent (db j) -> save_lot now a d j = (j', None) ->
  exists c r,
    normalize_lot a d = inr c /\ lot_candidate_ok c = true
    /\ select_by_key Lots.schema (a, Pipeline.lot_number c) (lots (db j')) = Some r
    /\ processed (lots_count j') = S (processed (lots_count j)).
Proof.
  intros [_ Hl] E. unfold save_lot in E.
  destruct (normalize_lot a d) as [e | c] eqn:En; [discriminate |].
  pose proof (normalize_lot_auction a d c En) as Ha.
  destruct (lot_candidate_ok c) eqn:Hok.
  - destruct (upsert_lot_accepts now c _ Hl Hok) as (r' & Hsel & Hcase).
    destruct (upsert_lot now c (lots (db j))) as [t' o]. simpl in Hsel, Hcase.
    exists c, r'. split; [reflexivity |]. split; [exact Hok |].
    rewrite Ha in Hsel.
    destruct Hcase as [(_ & -> & _) | (r & _ & -> & _)];
      simpl in E; injection E as <-; simpl; split; auto.
  - destruct (upsert_lot_refuses now c _ Hl Hok) as [Hr _].
    destruct (upsert_lot now c (lots (db j))) as [t' o]. simpl in Hr. subst o.
    discriminate.
Qed.

Lemma save_auction_first (now : timestamp) (h : nat) (d : AuctionData) (j j' : job)
  (a : Auctions.row) :
  db_consistent (db j) -> save_auction now h d j = (j', inr a) ->
  exists c,
    normalize_auction h d = inr c /\ auction_candidate_ok c = true
    /\ select_by_key Auctions.schema (h, Pipeline.external_id c) (auctions (db j'))
       = Some a
    /\ processed (auctions_count j') = S (processed (auctions_count j)).
Proof.
  intros [Ha _] E. unfold save_auction in E.
  destruct (normalize_auction h d) as [e | c] eqn:En; [discriminate |].
  pose proof (normalize_auction_house h d c En) as Hh.
  destruct (auction_candidate_ok c) eqn:Hok.
  - destruct (upsert_auction_accepts now c _ Ha Hok) as (r' & Hsel & Hcase).
    destruct (upsert_auction now c (auctions (db j))) as [t' o]. simpl in Hsel, Hcase.
    exists c. split; [reflexivity |]. split; [exact Hok |].
    rewrite Hh in Hsel.
    destruct Hcase as [(_ & -> & _) | (r & _ & -> & _)];
      simpl in E; injection E as <- <-; simpl; split; auto.
  - destruct (upsert_auction_refuses now c _ Ha Hok) as [Hr _].
    destruct (upsert_auction now c (auctions (db j))) as [t' o]. simpl in Hr. subst o.
    discriminate.
Qed.

Lemma no_data_consistent : db_consistent no_data.
Proof. split; apply empty_consistent. Qed.

(** ** What a job that fails has written *)

Lemma lot_committed_extends (a : Auctions.row) (s s' : database) (l : LotData) :
  extends s s' -> lot_committed a s l -> lot_committed a s' l.
Proof.
  intros [_ Hl] (c & r & En & Hsel).
  destruct (Hl _ _ Hsel) as (r' & Hsel' & _).
  exists c, r'. split; assumption.
Qed.

Lemma committed_extends (ad : ScrapingAdapter) (s s' : database) (d : AuctionData) :
  extends s s' -> committed ad s d -> committed ad s' d.
Proof.
  intros Hext (c & a & u & ls & En & Hsel & Hu & Hls & Hall).
  destruct (proj1 Hext _ _ Hsel) as (a' & Hsel' & Hid).
  exists c, a', u, ls. repeat (split; [assumption |]).
  eapply Forall_impl; [| exact Hall].
  intros l Hl. destruct (lot_committed_extends a s s' l Hext Hl) as (lc & r & En' & Hr).
  exists lc, r. rewrite Hid. split; assumption.
Qed.

(** The lots [save_lots] went through are in the store. *)
Lemma save_lots_commits (now : timestamp) (a : Auctions.row) (ls : list LotData)
  (j j' : job) :
  db_consistent (db j) -> save_lots now (Auctions.id a) ls j = (j', None) ->
  Forall (lot_committed a (db j')) ls.
Proof.
  revert j. induction ls as [| d ls IH]; intros j Hj E; simpl in E.
  { constructor. }
  destruct (save_lot now (Auctions.id a) d j) as [j1 [e |]] eqn:E1; [discriminate |].
  destruct (save_lot_first now (Auctions.id a) d j j1 Hj E1) as (c & r & En & _ & Hsel & _).
  pose proof (save_lot_keeps now (Auctions.id a) d j Hj) as K1.
  rewrite E1 in K1. simpl in K1. destruct K1 as (Hj1 & _).
  pose proof (save_lots_keeps now (Auctions.id a) ls j1 Hj1) as K2.
  rewrite E in K2. simpl in K2. destruct K2 as (_ & Hext & _).
  constructor.
  - apply (lot_committed_extends a (db j1) (db j') d Hext).
    exists c, r. split; assumption.
  - exact (IH j1 Hj1 E).
Qed.

(** The items the loop went through are in the store. *)
Lemma for_auction_data_commits (now : timestamp) (ad : ScrapingAdapter)
  (l : list AuctionData) (j j' : job) :
  db_consistent (db j) -> for_auction_data now ad l j = (j', None) ->
  Forall (committed ad (db j')) l.
Proof.
  revert j. induction l as [| d l IH]; intros j Hj E; simpl in E.
  { constructor. }
  destruct (save_auction now (house ad) d j) as [j1 [e | a]] eqn:E1; [discriminate |].
  destruct (url d) as [u |] eqn:Hu; [| discriminate].
  destruct (scrape_lots ad u) as [e | ls] eqn:Hls; [discriminate |].
  destruct (save_lots now (Auctions.id a) ls j1) as [j2 [e |]] eqn:E2; [discriminate |].
  destruct (save_auction_first now (house ad) d j j1 a Hj E1) as (c & En & _ & Hsel & _).
  pose proof (save_auction_keeps now (house ad) d j Hj) as K1.
  rewrite E1 in K1. simpl in K1. destruct K1 as (Hj1 & _).
  pose proof (save_lots_keeps now (Auctions.id a) ls j1 Hj1) as K2.
  rewrite E2 in K2. simpl in K2. destruct K2 as (Hj2 & Hext12 & _).
  pose proof (for_auction_data_keeps now ad l j2 Hj2) as K3.
  rewrite E in K3. simpl in K3. destruct K3 as (_ & Hext2').
  constructor.
  - apply (committed_extends ad (db j2) (db j') d Hext2').
    destruct (proj1 Hext12 _ _ Hsel) as (a2 & Hsel2 & Hid2).
    exists c, a2, u, ls. repeat (split; [assumption |]).
    pose proof (save_lots_commits now a ls j1 j2 Hj1 E2) as Hall.
    eapply Forall_impl; [| exact Hall].
    intros x (lc & r & En' & Hr). exists lc, r. rewrite Hid2. split; assumption.
  - exact (IH j2 Hj2 E).
Qed.

(** C3, as the task has it: its one try block surrounds the whole loop,
    so the first item whose processing raises ends the job.  The job
    ends in [log_scraping_error] with [str] of that exception, which is
    its one entry in the log.  No later item is looked at: the store is
    what the loop left at the exception, whatever [rest] holds.  What
    was written up to there stays committed: every row the store held
    before the job is still found under its key and id, and every item
    before the failing one is in the store, its auction and each lot of
    its lot page. *)
Theorem first_error_ends_the_job (now : timestamp) (registry : adapters)
  (house_name : string) (adapter : ScrapingAdapter) (w : world)
  (done rest : list AuctionData) (bad : AuctionData) (j1 j2 : job) (e : exn) :
  db_consistent (store w) ->
  get_adapter registry house_name = Some adapter ->
  scrape_auctions adapter = inr (done ++ bad :: rest) ->
  for_auction_data now adapter done (starting (store w)) = (j1, None) ->
  for_auction_data now adapter [bad] j1 = (j2, Some e) ->
  exists w' r,
    scrape_house_data now registry house_name w = (w', inr r)
    /\ entry r = log_scraping_error house_name (str e)
    /\ log w' = log w ++ [log_scraping_error house_name (str e)]
    /\ store w' = db j2
    /\ extends (store w) (store w')
    /\ Forall (committed adapter (store w')) done.
Proof.
  intros Hw Hget Hlist Hdone Hbad.
  unfold scrape_house_data, try_block. rewrite Hget, Hlist.
  rewrite TaskFacts.for_auction_data_app, Hdone.
  rewrite (TaskFacts.for_auction_data_one_raises now adapter bad rest j1 j2 e Hbad).
  eexists. eexists. split; [reflexivity |]. simpl.
  split; [reflexivity |]. split; [reflexivity |]. split; [reflexivity |].
  pose proof (for_auction_data_keeps now adapter done (starting (store w)) Hw) as K1.
  rewrite Hdone in K1. simpl in K1. destruct K1 as (Hj1 & Hext1).
  pose proof (for_auction_data_keeps now adapter [bad] j1 Hj1) as K2.
  rewrite Hbad in K2. simpl in K2. destruct K2 as (_ & Hext2).
  split; [exact (extends_trans _ _ _ Hext1 Hext2) |].
  pose proof (for_auction_data_commits now adapter done (starting (store w)) j1
                Hw Hdone) as Hall.
  eapply Forall_impl; [| exact Hall].
  intros d Hd. exact (committed_extends adapter (db j1) (db j2) d Hext2 Hd).
Qed.

Lemma first_error_ends_the_job_witness :
  exists w r,
    scrape_house_data 10%Z third_page_fails "bogota_auctions" fresh_world = (w, inr r)
    /\ entry r = log_scraping_error "bogota_auctions" "lot page"
    /\ log w = [log_scraping_error "bogota_auctions" "lot page"]
    /\ Forall (committed (listing 1 five_auctions (Some "/s/103")) (store w))
         [auction_data "101" "Spring Sale" "/s/101";
          auction_data "102" "Summer Sale" "/s/102"].
Proof.
  destruct (first_error_ends_the_job 10%Z third_page_fails "bogota_auctions"
              (listing 1 five_auctions (Some "/s/103")) fresh_world
              [auction_data "101" "Spring Sale" "/s/101";
               auction_data "102" "Summer Sale" "/s/102"]
              [auction_data "104" "Winter Sale" "/s/104";
               auction_data "105" "Online Sale" "/s/105"]
              (auction_data "103" "Autumn Sale" "/s/103")
              _ _ (ScrapeError "lot page")
              no_data_consistent eq_refl eq_refl eq_refl eq_refl)
    as (w & r & E & Hentry & Hlog & _ & _ & Hall).
  exists w, r. repeat (split; [assumption |]). exact Hall.
Defined.

End RunFacts.

(* --------------------------------------------------------------------- *)
(** ** One source's task and the data of another *)
(* --------------------------------------------------------------------- *)

Module IsolationFacts.
Import Sql SqlFacts Pipeline PipelineFacts Tasks RunFacts.

Lemma upsert_auction_other (now : timestamp) (c : auction_candidate)
  (t : table Auctions.row) (k' : nat * string) :
  consistent Auctions.schema t -> k' <> (house_id c, Pipeline.external_id c) ->
  select_by_key Auctions.schema k' (fst (upsert_auction now c t))
  = select_by_key Auctions.schema k' t.
Proof.
  apply (upsert_other _ _ Auctions.schema (house_id c, Pipeline.external_id c)
           (auction_values c) (auction_set c)
           (fun _ _ => eq_refl) (fun _ => eq_refl) (fun _ => eq_refl)).
Qed.

Lemma upsert_lot_other (now : timestamp) (c : lot_candidate) (t : table Lots.row)
  (k' : nat * string) :
  consistent Lots.schema t -> k' <> (auction_id c, Pipeline.lot_number c) ->
  select_by_key Lots.schema k' (fst (upsert_lot now c t))
  = select_by_key Lots.schema k' t.
Proof.
  apply (upsert_other _ _ Lots.schema (auction_id c, Pipeline.lot_number c)
           (lot_values c) (lot_set c)
           (fun _ _ => eq_refl) (fun _ => eq_refl) (fun _ => eq_refl)).
Qed.

Lemma same_for_refl (h : nat) (d : database) : same_for h d d.
Proof. split; reflexivity. Qed.

Lemma same_for_sym (h : nat) (d d' : database) : same_for h d d' -> same_for h d' d.
Proof. intros [Ha Hl]. split; intros; symmetry; auto. Qed.

Lemma same_for_trans (h : nat) (d1 d2 d3 : database) :
  same_for h d1 d2 -> same_for h d2 d3 -> same_for h d1 d3.
Proof.
  intros [Ha Hl] [Ha' Hl']. split; intros.
  - rewrite Ha. apply Ha'.
  - rewrite Hl. apply Hl'.
Qed.

Lemma auction_of_some (h : nat) (d : database) (e : string) (a : Auctions.row) :
  auction_of h d e = Some a ->
  In a (rows (auctions d))
  /\ Auctions.house_id a = Some h /\ Auctions.external_id a = Some e.
Proof.
  unfold auction_of. intros H.
  destruct (select_some _ _ Auctions.schema _ _ _ H) as [Hin Hk].
  split; [exact Hin |]. simpl in Hk. unfold Auctions.natural_key in Hk.
  destruct (Auctions.house_id a), (Auctions.external_id a); try discriminate.
  injection Hk as -> ->. split; reflexivity.
Qed.

(** Two auctions read under different keys have different ids. *)
Lemma auction_of_ids (d : database) (h h' : nat) (e e' : string)
  (a a' : Auctions.row) :
  db_consistent d ->
  auction_of h d e = Some a -> auction_of h' d e' = Some a' ->
  Auctions.id a = Auctions.id a' -> h = h' /\ e = e'.
Proof.
  intros [[[Hids _ _] _] _] Ha Ha' E.
  destruct (auction_of_some _ _ _ _ Ha) as (Hin & Hh & He).
  destruct (auction_of_some _ _ _ _ Ha') as (Hin' & Hh' & He').
  pose proof (same_id_same_row _ _ Auctions.schema (auctions d) a a' Hids Hin Hin' E).
  subst a'. split; congruence.
Qed.

(** No lot hangs on the id the sequence of auctions gives out next. *)
Lemma no_lot_ahead (d : database) (i : nat) (n : string) :
  refers_back d -> next_id (auctions d) <= i ->
  select_by_key Lots.schema (i, n) (lots d) = None.
Proof.
  intros Hr Hi.
  destruct (select_by_key Lots.schema (i, n) (lots d)) as [l |] eqn:E; [| reflexivity].
  destruct (select_some _ _ Lots.schema _ _ _ E) as [Hin Hk].
  unfold refers_back in Hr. rewrite Forall_forall in Hr. specialize (Hr l Hin).
  simpl in Hk. unfold Lots.natural_key in Hk.
  destruct (Lots.auction_id l) as [a |]; [| discriminate].
  destruct (Lots.lot_number l); [| discriminate].
  injection Hk as -> ->. specialize (Hr i eq_refl). lia.
Qed.

(** [save_auction] and [save_lot] keep the store in order. *)
Lemma save_auction_ok (now : timestamp) (h : nat) (d : AuctionData) (j : job) :
  db_ok (db j) -> db_ok (db (fst (save_auction now h d j))).
Proof.
  intros [Hc Hr]. split; [apply save_auction_keeps; exact Hc |].
  unfold save_auction. destruct (normalize_auction h d) as [e | c]; [exact Hr |].
  pose proof (upsert_next_id _ _ Auctions.schema (house_id c, Pipeline.external_id c)
                (auction_values c) (auction_set c) now (auctions (db j))) as Hn.
  fold (upsert_auction now c (auctions (db j))) in Hn.
  destruct (upsert_auction now c (auctions (db j))) as [t' o]. simpl in Hn.
  assert (G : refers_back {| auctions := t'; lots := lots (db j) |}).
  { unfold refers_back in *. simpl. eapply Forall_impl; [| exact Hr].
    simpl. intros l Hl a Ha. specialize (Hl a Ha). lia. }
  destruct o; exact G.
Qed.

Lemma save_lot_ok (now : timestamp) (aid : nat) (d : LotData) (j : job) :
  db_ok (db j) -> aid < next_id (auctions (db j)) ->
  db_ok (db (fst (save_lot now aid d j))).
Proof.
  intros [Hc Hr] Haid. split; [apply save_lot_keeps; exact Hc |].
  unfold save_lot. destruct (normalize_lot aid d) as [e | c] eqn:En; [exact Hr |].
  pose proof (normalize_lot_auction aid d c En) as Hca.
  pose proof (upsert_rows_from _ _ Lots.schema (auction_id c, Pipeline.lot_number c)
                (lot_values c) (lot_set c) now (lots (db j))) as Hfrom.
  fold (upsert_lot now c (lots (db j))) in Hfrom.
  destruct (upsert_lot now c (lots (db j))) as [t' o]. simpl in Hfrom.
  assert (G : refers_back {| auctions := auctions (db j); lots := t' |}).
  { unfold refers_back in *. simpl. rewrite Forall_forall in *.
    intros l Hl a Ha.
    destruct (Hfrom l Hl) as [Hin | [-> | (r & Hin & ->)]].
    - exact (Hr l Hin a Ha).
    - simpl in Ha. injection Ha as <-. rewrite Hca. exact Haid.
    - simpl in Ha. exact (Hr r Hin a Ha). }
  destruct o; exact G.
Qed.

Lemma stored_id_issued (d : database) (a : Auctions.row) :
  db_consistent d -> In a (rows (auctions d)) ->
  Auctions.id a < next_id (auctions d).
Proof.
  intros [[_ Hi] _] Hin. unfold ids_issued in Hi. rewrite Forall_forall in Hi.
  exact (Hi a Hin).
Qed.

(** *** The task of one house leaves the data of another as it is *)

Lemma save_auction_frame (now : timestamp) (h h' : nat) (d : AuctionData) (j : job) :
  db_ok (db j) -> h' <> h ->
  same_for h (db j) (db (fst (save_auction now h' d j))).
Proof.
  intros [[Ha _] _] Hne. unfold save_auction.
  destruct (normalize_auction h' d) as [e | c] eqn:En; [apply same_for_refl |].
  pose proof (normalize_auction_house h' d c En) as Hh.
  assert (Hsel : forall e, select_by_key Auctions.schema (h, e)
                             (fst (upsert_auction now c (auctions (db j))))
                           = select_by_key Auctions.schema (h, e) (auctions (db j))).
  { intros e. apply upsert_auction_other; [exact Ha |]. intros [= E _]. congruence. }
  destruct (upsert_auction now c (auctions (db j))) as [t' o]. simpl in Hsel.
  assert (G : same_for h (db j) {| auctions := t'; lots := lots (db j) |}).
  { split; intros; unfold auction_view, lot_view, auction_of; simpl;
      rewrite Hsel; reflexivity. }
  destruct o; exact G.
Qed.

Lemma save_lot_frame (now : timestamp) (h h' : nat) (e' : string)
  (a' : Auctions.row) (d : LotData) (j : job) :
  db_ok (db j) -> auction_of h' (db j) e' = Some a' -> h' <> h ->
  same_for h (db j) (db (fst (save_lot now (Auctions.id a') d j))).
Proof.
  intros [Hc _] Ha' Hne. pose proof Hc as [_ Hl]. unfold save_lot.
  destruct (normalize_lot (Auctions.id a') d) as [e | c] eqn:En;
    [apply same_for_refl |].
  pose proof (normalize_lot_auction _ d c En) as Hca.
  assert (Hsel : forall e a n, auction_of h (db j) e = Some a ->
            select_by_key Lots.schema (Auctions.id a, n)
              (fst (upsert_lot now c (lots (db j))))
            = select_by_key Lots.schema (Auctions.id a, n) (lots (db j))).
  { intros e a n Ha. apply upsert_lot_other; [exact Hl |]. intros [= E _].
    rewrite Hca in E.
    destruct (auction_of_ids (db j) h h' e e' a a' Hc Ha Ha' E). congruence. }
  destruct (upsert_lot now c (lots (db j))) as [t' o]. simpl in Hsel.
  assert (G : same_for h (db j) {| auctions := auctions (db j); lots := t' |}).
  { split; intros; unfold auction_view, lot_view, auction_of; simpl; [reflexivity |].
    destruct (select_by_key Auctions.schema (h, e) (auctions (db j))) as [a |] eqn:Ea;
      [| reflexivity].
    rewrite (Hsel e a n Ea). reflexivity. }
  destruct o; exact G.
Qed.

Lemma save_lots_frame (now : timestamp) (h h' : nat) (e' : string)
  (a' : Auctions.row) (ls : list LotData) :
  forall j,
    db_ok (db j) -> auction_of h' (db j) e' = Some a' -> h' <> h ->
    same_for h (db j) (db (fst (save_lots now (Auctions.id a') ls j)))
    /\ db_ok (db (fst (save_lots now (Auctions.id a') ls j))).
Proof.
  induction ls as [| d ls IH]; intros j Hj Ha' Hne; simpl.
  { split; [apply same_for_refl | exact Hj]. }
  pose proof (save_lot_frame now h h' e' a' d j Hj Ha' Hne) as F.
  assert (Hid : Auctions.id a' < next_id (auctions (db j))).
  { apply stored_id_issued; [apply Hj |]. apply (auction_of_some _ _ _ _ Ha'). }
  pose proof (save_lot_ok now (Auctions.id a') d j Hj Hid) as O.
  destruct (save_lot_keeps now (Auctions.id a') d j (ok_consistent Hj))
    as (_ & _ & Hsame & _).
  destruct (save_lot now (Auctions.id a') d j) as [j1 [e |]]; simpl in *.
  - split; assumption.
  - assert (Ha1 : auction_of h' (db j1) e' = Some a').
    { unfold auction_of in *. rewrite Hsame. exact Ha'. }
    destruct (IH j1 O Ha1 Hne) as [F' O'].
    split; [apply (same_for_trans _ _ _ _ F F') | exact O'].
Qed.

Lemma for_auction_data_frame (now : timestamp) (h : nat) (ad : ScrapingAdapter)
  (l : list AuctionData) :
  forall j,
    db_ok (db j) -> house ad <> h ->
    same_for h (db j) (db (fst (for_auction_data now ad l j)))
    /\ db_ok (db (fst (for_auction_data now ad l j))).
Proof.
  induction l as [| d l IH]; intros j Hj Hne; simpl.
  { split; [apply same_for_refl | exact Hj]. }
  pose proof (save_auction_frame now h (house ad) d j Hj Hne) as F.
  pose proof (save_auction_ok now (house ad) d j Hj) as O.
  pose proof (save_auction_first now (house ad) d j) as First.
  destruct (save_auction now (house ad) d j) as [j1 [e | a]]; simpl in *.
  { split; assumption. }
  destruct (url d) as [u |]; [| split; assumption].
  destruct (scrape_lots ad u) as [e | ls]; [split; assumption |].
  destruct (First j1 a (ok_consistent Hj) eq_refl) as (c & _ & _ & Hsel & _).
  destruct (save_lots_frame now h (house ad) (Pipeline.external_id c) a ls j1 O Hsel Hne)
    as [F2 O2].
  destruct (save_lots now (Auctions.id a) ls j1) as [j2 [e |]]; simpl in *.
  { split; [apply (same_for_trans _ _ _ _ F F2) | exact O2]. }
  destruct (IH j2 O2 Hne) as [F3 O3].
  split; [| exact O3].
  apply (same_for_trans _ _ _ _ F). apply (same_for_trans _ _ _ _ F2 F3).
Qed.

(** *** What one call does to the data of its own house *)

Lemma save_auction_result (now : timestamp) (h : nat) (d : AuctionData) (j : job)
  (c : auction_candidate) :
  db_ok (db j) -> normalize_auction h d = inr c ->
  lots (db (fst (save_auction now h d j))) = lots (db j)
  /\ if auction_candidate_ok c
     then exists a,
       snd (save_auction now h d j) = inr a
       /\ auction_of h (db (fst (save_auction now h d j))) (Pipeline.external_id c)
          = Some a
       /\ (forall e, e <> Pipeline.external_id c ->
             auction_of h (db (fst (save_auction now h d j))) e = auction_of h (db j) e)
       /\ ((auction_of h (db j) (Pipeline.external_id c) = None
            /\ a = Auctions.complete (next_id (auctions (db j))) now (auction_values c)
            /\ auctions_count (fst (save_auction now h d j))
               = count (Inserted a) (auctions_count j))
           \/ (exists a0,
                 auction_of h (db j) (Pipeline.external_id c) = Some a0
                 /\ a = Auctions.update_updated_at_column now (auction_set c a0)
                 /\ auctions_count (fst (save_auction now h d j))
                    = count (Updated a) (auctions_count j)))
     else snd (save_auction now h d j) = inl (IntegrityError constraint_violation)
          /\ (forall e, auction_of h (db (fst (save_auction now h d j))) e
                        = auction_of h (db j) e)
          /\ auctions_count (fst (save_auction now h d j)) = auctions_count j.
Proof.
  intros [Hc _] En. pose proof Hc as [Ha _].
  split; [apply save_auction_keeps; exact Hc |].
  pose proof (normalize_auction_house h d c En) as Hh.
  unfold save_auction, auction_of. rewrite En.
  destruct (auction_candidate_ok c) eqn:Hok.
  - destruct (upsert_auction_accepts now c _ Ha Hok) as (a & Hsel & Hcase).
    pose proof (fun e (Hne : e <> Pipeline.external_id c) =>
                  upsert_auction_other now c (auctions (db j)) (h, e) Ha
                    (fun E => Hne (f_equal snd E))) as Hother.
    rewrite Hh in Hsel, Hcase.
    destruct (upsert_auction now c (auctions (db j))) as [t' o].
    simpl in Hsel, Hcase, Hother. exists a.
    destruct Hcase as [(Hnone & -> & _ & Ea) | (a0 & Ha0 & -> & _ & Ea)]; simpl.
    + split; [reflexivity |]. split; [exact Hsel |]. split; [exact Hother |].
      left. repeat split; assumption.
    + split; [reflexivity |]. split; [exact Hsel |]. split; [exact Hother |].
      right. exists a0. repeat split; assumption.
  - destruct (upsert_auction_refuses now c _ Ha Hok) as [Hr Hrows].
    destruct (upsert_auction now c (auctions (db j))) as [t' o].
    simpl in Hr, Hrows. subst o. simpl. split; [reflexivity |]. split; [| reflexivity].
    intros e. apply (select_same_rows _ _ Auctions.schema). exact Hrows.
Qed.

Lemma save_lot_result (now : timestamp) (aid : nat) (d : LotData) (j : job)
  (c : lot_candidate) :
  db_ok (db j) -> normalize_lot aid d = inr c ->
  auctions (db (fst (save_lot now aid d j))) = auctions (db j)
  /\ if lot_candidate_ok c
     then exists l,
       snd (save_lot now aid d j) = None
       /\ select_by_key Lots.schema (aid, Pipeline.lot_number c)
            (lots (db (fst (save_lot now aid d j)))) = Some l
       /\ (forall k, k <> (aid, Pipeline.lot_number c) ->
             select_by_key Lots.schema k (lots (db (fst (save_lot now aid d j))))
             = select_by_key Lots.schema k (lots (db j)))
       /\ ((select_by_key Lots.schema (aid, Pipeline.lot_number c) (lots (db j)) = None
            /\ l = Lots.complete (next_id (lots (db j))) now (lot_values c)
            /\ lots_count (fst (save_lot now aid d j))
               = count (Inserted l) (lots_count j))
           \/ (exists l0,
                 select_by_key Lots.schema (aid, Pipeline.lot_number c) (lots (db j))
                 = Some l0
                 /\ l = Lots.update_updated_at_column now (lot_set c l0)
                 /\ lots_count (fst (save_lot now aid d j))
                    = count (Updated l) (lots_count j)))
     else snd (save_lot now aid d j) = Some (IntegrityError constraint_violation)
          /\ (forall k, select_by_key Lots.schema k
                          (lots (db (fst (save_lot now aid d j))))
                        = select_by_key Lots.schema k (lots (db j)))
          /\ lots_count (fst (save_lot now aid d j)) = lots_count j.
Proof.
  intros [Hc _] En. pose proof Hc as [Ha Hl].
  split; [apply save_lot_keeps; exact Hc |].
  pose proof (normalize_lot_auction aid d c En) as Hca.
  unfold save_lot. rewrite En.
  destruct (lot_candidate_ok c) eqn:Hok.
  - destruct (upsert_lot_accepts now c _ Hl Hok) as (l & Hsel & Hcase).
    pose proof (fun k (Hne : k <> (aid, Pipeline.lot_number c)) =>
                  upsert_lot_other now c (lots (db j)) k Hl
                    (fun E => Hne (eq_trans E (f_equal (fun a => (a, Pipeline.lot_number c)) Hca))))
      as Hother.
    rewrite Hca in Hsel, Hcase.
    destruct (upsert_lot now c (lots (db j))) as [t' o].
    simpl in Hsel, Hcase, Hother. exists l.
    destruct Hcase as [(Hnone & -> & _ & El) | (l0 & Hl0 & -> & _ & El)]; simpl.
    + split; [reflexivity |]. split; [exact Hsel |]. split; [exact Hother |].
      left. repeat split; assumption.
    + split; [reflexivity |]. split; [exact Hsel |]. split; [exact Hother |].
      right. exists l0. repeat split; assumption.
  - destruct (upsert_lot_refuses now c _ Hl Hok) as [Hr Hrows].
    destruct (upsert_lot now c (lots (db j))) as [t' o].
    simpl in Hr, Hrows. subst o. simpl. split; [reflexivity |]. split; [| reflexivity].
    intros k. apply (select_same_rows _ _ Lots.schema). exact Hrows.
Qed.

(** *** The task of a house on two stores that hold the same for it *)

Lemma some_eq {A : Type} (x y : A) : Some x = Some y -> x = y.
Proof. intros H. injection H as H. exact H. Qed.

Lemma auction_content_updated (now now' : timestamp) (c : auction_candidate)
  (r r' : Auctions.row) :
  auction_content r = auction_content r' ->
  auction_content (Auctions.update_updated_at_column now (auction_set c r))
  = auction_content (Auctions.update_updated_at_column now' (auction_set c r')).
Proof.
  intros H. destruct r, r'. unfold auction_content in *. simpl in *.
  injection H as ?; intros; subst. reflexivity.
Qed.

Lemma lot_content_updated (now now' : timestamp) (a : nat) (c : lot_candidate)
  (r r' : Lots.row) :
  lot_content r = lot_content r' ->
  lot_content (Lots.update_updated_at_column now (lot_set c r))
  = lot_content (Lots.update_updated_at_column now' (lot_set (lot_under a c) r')).
Proof.
  intros H. destruct r, r'. unfold lot_content in *. simpl in *.
  injection H as ?; intros; subst.
  repeat match goal with
         | H : option_map _ _ = option_map _ _ |- _ => rewrite H; clear H
         end.
  reflexivity.
Qed.

Lemma normalize_lot_under (a a' : nat) (d : LotData) :
  normalize_lot a' d
  = match normalize_lot a d with
    | inl e => inl e
    | inr c => inr (lot_under a' c)
    end.
Proof.
  unfold normalize_lot. destruct (Tasks.lot_number d), (Tasks.lot_title d); reflexivity.
Qed.

Lemma save_auction_alike (now1 now2 : timestamp) (h : nat) (d : AuctionData)
  (j1 j2 : job) :
  alike h (db j1) (db j2) -> auctions_count j1 = auctions_count j2 ->
  alike h (db (fst (save_auction now1 h d j1))) (db (fst (save_auction now2 h d j2)))
  /\ auctions_count (fst (save_auction now1 h d j1))
     = auctions_count (fst (save_auction now2 h d j2))
  /\ match snd (save_auction now1 h d j1), snd (save_auction now2 h d j2) with
     | inl e1, inl e2 => e1 = e2
     | inr a1, inr a2 =>
         exists e,
           auction_of h (db (fst (save_auction now1 h d j1))) e = Some a1
           /\ auction_of h (db (fst (save_auction now2 h d j2))) e = Some a2
     | _, _ => False
     end.
Proof.
  intros (O1 & O2 & [Hav Hlv]) Hcount.
  pose proof (save_auction_ok now1 h d j1 O1) as O1'.
  pose proof (save_auction_ok now2 h d j2 O2) as O2'.
  destruct (normalize_auction h d) as [e | c] eqn:En.
  { unfold save_auction. rewrite En. simpl.
    split; [split; [exact O1 |]; split; [exact O2 |]; split; assumption |].
    split; [exact Hcount | reflexivity]. }
  destruct (save_auction_result now1 h d j1 c O1 En) as [Hl1 R1].
  destruct (save_auction_result now2 h d j2 c O2 En) as [Hl2 R2].
  destruct (auction_candidate_ok c).
  - destruct R1 as (a1 & S1 & A1 & Oth1 & Case1).
    destruct R2 as (a2 & S2 & A2 & Oth2 & Case2).
    rewrite S1, S2.
    assert (G : auction_content a1 = auction_content a2
                /\ auctions_count (fst (save_auction now1 h d j1))
                   = auctions_count (fst (save_auction now2 h d j2))
                /\ forall n,
                     option_map lot_content
                       (select_by_key Lots.schema (Auctions.id a1, n) (lots (db j1)))
                     = option_map lot_content
                         (select_by_key Lots.schema (Auctions.id a2, n) (lots (db j2)))).
    { pose proof (Hav (Pipeline.external_id c)) as Hv. unfold auction_view in Hv.
      pose proof (Hlv (Pipeline.external_id c)) as Hw. unfold lot_view in Hw.
      destruct Case1 as [(N1 & E1 & C1) | (a01 & N1 & E1 & C1)];
        destruct Case2 as [(N2 & E2 & C2) | (a02 & N2 & E2 & C2)];
        rewrite N1, N2 in Hv, Hw; cbn [option_map] in Hv; try discriminate.
      - subst a1 a2. split; [reflexivity |].
        split; [rewrite C1, C2; cbn [count]; congruence |].
        intros n. cbn [Auctions.complete Auctions.id].
        rewrite !no_lot_ahead; [reflexivity | apply O2 | lia | apply O1 | lia].
      - apply some_eq in Hv. subst a1 a2.
        split; [apply auction_content_updated; exact Hv |].
        split; [rewrite C1, C2; cbn [count]; congruence |].
        intros n. apply Hw. }
    destruct G as (Gc & Gn & Gl).
    split; [| split; [exact Gn | exists (Pipeline.external_id c); split; assumption]].
    split; [exact O1' |]. split; [exact O2' |]. split.
    + intros e. unfold auction_view.
      destruct (string_dec e (Pipeline.external_id c)) as [-> | Hne].
      * rewrite A1, A2. simpl. f_equal. exact Gc.
      * rewrite Oth1, Oth2 by exact Hne. apply Hav.
    + intros e n. unfold lot_view.
      destruct (string_dec e (Pipeline.external_id c)) as [-> | Hne].
      * rewrite A1, A2, Hl1, Hl2. apply Gl.
      * rewrite Oth1, Oth2, Hl1, Hl2 by exact Hne. apply Hlv.
  - destruct R1 as (S1 & Same1 & C1). destruct R2 as (S2 & Same2 & C2).
    rewrite S1, S2.
    split; [| split; [congruence | reflexivity]].
    split; [exact O1' |]. split; [exact O2' |]. split.
    + intros e. unfold auction_view. rewrite Same1, Same2. apply Hav.
    + intros e n. unfold lot_view. rewrite Same1, Same2, Hl1, Hl2. apply Hlv.
Qed.

Lemma save_lot_alike (now1 now2 : timestamp) (h : nat) (e : string)
  (a1 a2 : Auctions.row) (d : LotData) (j1 j2 : job) :
  alike h (db j1) (db j2) ->
  auction_of h (db j1) e = Some a1 -> auction_of h (db j2) e = Some a2 ->
  lots_count j1 = lots_count j2 ->
  alike h (db (fst (save_lot now1 (Auctions.id a1) d j1)))
    (db (fst (save_lot now2 (Auctions.id a2) d j2)))
  /\ lots_count (fst (save_lot now1 (Auctions.id a1) d j1))
     = lots_count (fst (save_lot now2 (Auctions.id a2) d j2))
  /\ snd (save_lot now1 (Auctions.id a1) d j1)
     = snd (save_lot now2 (Auctions.id a2) d j2)
  /\ auction_of h (db (fst (save_lot now1 (Auctions.id a1) d j1))) e = Some a1
  /\ auction_of h (db (fst (save_lot now2 (Auctions.id a2) d j2))) e = Some a2.
Proof.
  intros (O1 & O2 & [Hav Hlv]) A1 A2 Hcount.
  assert (I1 : Auctions.id a1 < next_id (auctions (db j1))).
  { apply stored_id_issued; [apply O1 | apply (auction_of_some _ _ _ _ A1)]. }
  assert (I2 : Auctions.id a2 < next_id (auctions (db j2))).
  { apply stored_id_issued; [apply O2 | apply (auction_of_some _ _ _ _ A2)]. }
  pose proof (save_lot_ok now1 _ d j1 O1 I1) as O1'.
  pose proof (save_lot_ok now2 _ d j2 O2 I2) as O2'.
  pose proof (normalize_lot_under (Auctions.id a1) (Auctions.id a2) d) as En2.
  destruct (normalize_lot (Auctions.id a1) d) as [e0 | c] eqn:En1.
  { unfold save_lot. rewrite En1, En2. simpl.
    split; [split; [exact O1 |]; split; [exact O2 |]; split; assumption |].
    repeat split; assumption. }
  destruct (save_lot_result now1 _ d j1 c O1 En1) as [Hau1 R1].
  destruct (save_lot_result now2 _ d j2 _ O2 En2) as [Hau2 R2].
  change (lot_candidate_ok (lot_under (Auctions.id a2) c))
    with (lot_candidate_ok c) in R2.
  change (Pipeline.lot_number (lot_under (Auctions.id a2) c))
    with (Pipeline.lot_number c) in R2.
  assert (A1' : auction_of h (db (fst (save_lot now1 (Auctions.id a1) d j1))) e = Some a1)
    by (unfold auction_of in *; rewrite Hau1; exact A1).
  assert (A2' : auction_of h (db (fst (save_lot now2 (Auctions.id a2) d j2))) e = Some a2)
    by (unfold auction_of in *; rewrite Hau2; exact A2).
  assert (Hav' : forall e', auction_view h (db (fst (save_lot now1 (Auctions.id a1) d j1))) e'
                            = auction_view h (db (fst (save_lot now2 (Auctions.id a2) d j2))) e').
  { intros e'. unfold auction_view, auction_of. rewrite Hau1, Hau2. apply Hav. }
  (* the lots of the other auctions of the house, and the other lots of this one *)
  assert (Hkey : forall e' n' b1 b2,
            auction_of h (db j1) e' = Some b1 -> auction_of h (db j2) e' = Some b2 ->
            (e' <> e \/ n' <> Pipeline.lot_number c) ->
            (Auctions.id b1, n') <> (Auctions.id a1, Pipeline.lot_number c)
            /\ (Auctions.id b2, n') <> (Auctions.id a2, Pipeline.lot_number c)).
  { intros e' n' b1 b2 B1 B2 Hne. split; intros [= Ei En]; destruct Hne as [Hne | Hne];
      try (apply Hne; exact En).
    - apply Hne. apply (auction_of_ids (db j1) h h e' e b1 a1 (ok_consistent O1) B1 A1 Ei).
    - apply Hne. apply (auction_of_ids (db j2) h h e' e b2 a2 (ok_consistent O2) B2 A2 Ei). }
  pose proof (Hlv e (Pipeline.lot_number c)) as Hthis.
  unfold lot_view in Hthis. rewrite A1, A2 in Hthis.
  destruct (lot_candidate_ok c).
  - destruct R1 as (l1 & S1 & Sel1 & Oth1 & Case1).
    destruct R2 as (l2 & S2 & Sel2 & Oth2 & Case2).
    assert (G : lot_content l1 = lot_content l2
                /\ lots_count (fst (save_lot now1 (Auctions.id a1) d j1))
                   = lots_count (fst (save_lot now2 (Auctions.id a2) d j2))).
    { destruct Case1 as [(N1 & E1 & C1) | (l01 & N1 & E1 & C1)];
        destruct Case2 as [(N2 & E2 & C2) | (l02 & N2 & E2 & C2)];
        rewrite N1, N2 in Hthis; cbn [option_map] in Hthis; try discriminate.
      - subst l1 l2. split; [reflexivity |]. rewrite C1, C2; cbn [count]; congruence.
      - apply some_eq in Hthis. subst l1 l2.
        split; [apply lot_content_updated; exact Hthis |].
        rewrite C1, C2; cbn [count]; congruence. }
    destruct G as [Gc Gn].
    split; [| repeat split; try assumption; congruence].
    split; [exact O1' |]. split; [exact O2' |]. split; [exact Hav' |].
    intros e' n'. unfold lot_view, auction_of. rewrite Hau1, Hau2.
    pose proof (Hav e') as Hv. unfold auction_view, auction_of in Hv.
    pose proof (Hlv e' n') as Hw. unfold lot_view, auction_of in Hw.
    destruct (select_by_key Auctions.schema (h, e') (auctions (db j1))) as [b1 |] eqn:B1;
      destruct (select_by_key Auctions.schema (h, e') (auctions (db j2))) as [b2 |] eqn:B2;
      cbn [option_map] in Hv; try discriminate; [| reflexivity].
    destruct (string_dec e' e) as [-> | He].
    + unfold auction_of in A1, A2. rewrite A1 in B1. rewrite A2 in B2.
      injection B1 as <-. injection B2 as <-.
      destruct (string_dec n' (Pipeline.lot_number c)) as [-> | Hn].
      * rewrite Sel1, Sel2. cbn [option_map]. f_equal. exact Gc.
      * rewrite Oth1, Oth2; [exact Hw | |]; intros [= En]; apply Hn; exact En.
    + destruct (Hkey e' n' b1 b2 B1 B2 (or_introl He)) as [K1 K2].
      rewrite Oth1, Oth2 by assumption. exact Hw.
  - destruct R1 as (S1 & Same1 & C1). destruct R2 as (S2 & Same2 & C2).
    split; [| repeat split; try assumption; congruence].
    split; [exact O1' |]. split; [exact O2' |]. split; [exact Hav' |].
    intros e' n'. unfold lot_view, auction_of. rewrite Hau1, Hau2.
    pose proof (Hlv e' n') as Hw. unfold lot_view, auction_of in Hw.
    destruct (select_by_key Auctions.schema (h, e') (auctions (db j1)));
      destruct (select_by_key Auctions.schema (h, e') (auctions (db j2)));
      try rewrite Same1; try rewrite Same2; exact Hw.
Qed.

Lemma save_lots_alike (now1 now2 : timestamp) (h : nat) (e : string)
  (a1 a2 : Auctions.row) (ls : list LotData) :
  forall j1 j2,
    alike h (db j1) (db j2) ->
    auction_of h (db j1) e = Some a1 -> auction_of h (db j2) e = Some a2 ->
    lots_count j1 = lots_count j2 ->
    alike h (db (fst (save_lots now1 (Auctions.id a1) ls j1)))
      (db (fst (save_lots now2 (Auctions.id a2) ls j2)))
    /\ lots_count (fst (save_lots now1 (Auctions.id a1) ls j1))
       = lots_count (fst (save_lots now2 (Auctions.id a2) ls j2))
    /\ snd (save_lots now1 (Auctions.id a1) ls j1)
       = snd (save_lots now2 (Auctions.id a2) ls j2).
Proof.
  induction ls as [| d ls IH]; intros j1 j2 R A1 A2 Hcount; simpl.
  { split; [exact R |]. split; [exact Hcount | reflexivity]. }
  destruct (save_lot_alike now1 now2 h e a1 a2 d j1 j2 R A1 A2 Hcount)
    as (R' & Hc' & Hs & A1' & A2').
  destruct (save_lot now1 (Auctions.id a1) d j1) as [j1' o1].
  destruct (save_lot now2 (Auctions.id a2) d j2) as [j2' o2].
  simpl in *. subst o2. destruct o1 as [x |]; simpl.
  - split; [exact R' |]. split; [exact Hc' | reflexivity].
  - apply IH; assumption.
Qed.

Lemma for_auction_data_alike (now1 now2 : timestamp) (ad : ScrapingAdapter)
  (l : list AuctionData) :
  forall j1 j2,
    alike (house ad) (db j1) (db j2) ->
    auctions_count j1 = auctions_count j2 -> lots_count j1 = lots_count j2 ->
    alike (house ad) (db (fst (for_auction_data now1 ad l j1)))
      (db (fst (for_auction_data now2 ad l j2)))
    /\ auctions_count (fst (for_auction_data now1 ad l j1))
       = auctions_count (fst (for_auction_data now2 ad l j2))
    /\ lots_count (fst (for_auction_data now1 ad l j1))
       = lots_count (fst (for_auction_data now2 ad l j2))
    /\ snd (for_auction_data now1 ad l j1) = snd (for_auction_data now2 ad l j2).
Proof.
  induction l as [| d l IH]; intros j1 j2 R Ha Hl; simpl.
  { split; [exact R |]. split; [exact Ha |]. split; [exact Hl | reflexivity]. }
  destruct (save_auction_alike now1 now2 (house ad) d j1 j2 R Ha) as (R1 & Ha1 & Hs).
  pose proof R as (O1 & O2 & _).
  destruct (save_auction_keeps now1 (house ad) d j1 (ok_consistent O1))
    as (_ & _ & _ & Hl1).
  destruct (save_auction_keeps now2 (house ad) d j2 (ok_consistent O2))
    as (_ & _ & _ & Hl2).
  destruct (save_auction now1 (house ad) d j1) as [k1 [e1 | a1]];
    destruct (save_auction now2 (house ad) d j2) as [k2 [e2 | a2]];
    simpl in *; try contradiction.
  { subst e2. split; [exact R1 |]. split; [exact Ha1 |].
    split; [congruence | reflexivity]. }
  destruct Hs as (e & A1 & A2).
  assert (Hlk : lots_count k1 = lots_count k2) by congruence.
  destruct (url d) as [u |];
    [| split; [exact R1 |]; split; [exact Ha1 |]; split; [exact Hlk | reflexivity]].
  destruct (scrape_lots ad u) as [err | ls];
    [split; [exact R1 |]; split; [exact Ha1 |]; split; [exact Hlk | reflexivity] |].
  destruct (save_lots_alike now1 now2 (house ad) e a1 a2 ls k1 k2 R1 A1 A2 Hlk)
    as (R2 & Hl2' & Hs2).
  pose proof R1 as (P1 & P2 & _).
  destruct (save_lots_keeps now1 (Auctions.id a1) ls k1 (ok_consistent P1))
    as (_ & _ & _ & Hac1).
  destruct (save_lots_keeps now2 (Auctions.id a2) ls k2 (ok_consistent P2))
    as (_ & _ & _ & Hac2).
  destruct (save_lots now1 (Auctions.id a1) ls k1) as [m1 o1].
  destruct (save_lots now2 (Auctions.id a2) ls k2) as [m2 o2].
  simpl in *. subst o2. destruct o1 as [x |]; simpl.
  - split; [exact R2 |]. split; [congruence |]. split; [exact Hl2' | reflexivity].
  - apply IH; [exact R2 | congruence | exact Hl2'].
Qed.

(** The task of a house, run on two stores that hold the same for the
    house, gives the same result and leaves them holding the same. *)
Lemma scrape_house_data_alike (now1 now2 : timestamp) (reg1 reg2 : adapters)
  (name : string) (ad : ScrapingAdapter) (w1 w2 : world) :
  get_adapter reg1 name = Some ad -> get_adapter reg2 name = Some ad ->
  alike (house ad) (store w1) (store w2) ->
  log_of name w1 = log_of name w2 ->
  snd (scrape_house_data now1 reg1 name w1) = snd (scrape_house_data now2 reg2 name w2)
  /\ alike (house ad) (store (fst (scrape_house_data now1 reg1 name w1)))
       (store (fst (scrape_house_data now2 reg2 name w2)))
  /\ log_of name (fst (scrape_house_data now1 reg1 name w1))
     = log_of name (fst (scrape_house_data now2 reg2 name w2)).
Proof.
  intros G1 G2 R Hlog. unfold scrape_house_data. rewrite G1, G2.
  unfold try_block. destruct (scrape_auctions ad) as [e | l]; simpl.
  { split; [reflexivity |]. split; [exact R |].
    unfold log_of in *. simpl. rewrite !filter_app. congruence. }
  destruct (for_auction_data_alike now1 now2 ad l (starting (store w1))
              (starting (store w2)) R eq_refl eq_refl) as (R' & Ha & Hl & Hs).
  destruct (for_auction_data now1 ad l (starting (store w1))) as [k1 o1].
  destruct (for_auction_data now2 ad l (starting (store w2))) as [k2 o2].
  simpl in *. subst o2. rewrite Ha, Hl.
  split; [reflexivity |]. split; [exact R' |].
  unfold log_of in *. simpl. rewrite !filter_app. congruence.
Qed.

(** The task of another house leaves the data, the log entries and the
    order of the store as they are for this one. *)
Lemma scrape_house_data_frame (now : timestamp) (reg : adapters) (name b : string)
  (h : nat) (w : world) :
  db_ok (store w) -> name <> b ->
  (forall ad, get_adapter reg name = Some ad -> house ad <> h) ->
  same_for h (store w) (store (fst (scrape_house_data now reg name w)))
  /\ db_ok (store (fst (scrape_house_data now reg name w)))
  /\ log_of b (fst (scrape_house_data now reg name w)) = log_of b w.
Proof.
  intros O Hne Hh. unfold scrape_house_data.
  destruct (get_adapter reg name) as [ad |]; simpl.
  2: { split; [apply same_for_refl |]. split; [exact O | reflexivity]. }
  specialize (Hh ad eq_refl).
  assert (Hb : String.eqb name b = false) by (apply String.eqb_neq; exact Hne).
  unfold try_block. destruct (scrape_auctions ad) as [e | l]; simpl.
  { split; [apply same_for_refl |]. split; [exact O |].
    unfold log_of. simpl. rewrite filter_app. simpl. rewrite Hb. apply app_nil_r. }
  destruct (for_auction_data_frame now h ad l (starting (store w)) O Hh) as [F O'].
  destruct (for_auction_data now ad l (starting (store w))) as [k o]. simpl in *.
  split; [exact F |]. split; [exact O' |].
  unfold log_of. simpl. rewrite filter_app.
  destruct o; simpl; rewrite Hb; apply app_nil_r.
Qed.

(** *** The worker *)

Section Worker.
Variables clock1 clock2 : nat -> timestamp.
Variables reg1 reg2 : adapters.
Variable b : string.
Variable adapter_b : ScrapingAdapter.

(** Both registries hold the same adapter for [b], and every other
    adapter in either of them belongs to another house. *)
Hypothesis same_adapter_1 : get_adapter reg1 b = Some adapter_b.
Hypothesis same_adapter_2 : get_adapter reg2 b = Some adapter_b.
Hypothesis other_houses :
  forall name ad, name <> b ->
    get_adapter reg1 name = Some ad \/ get_adapter reg2 name = Some ad ->
    house ad <> house adapter_b.

Lemma work_undisturbed (s1 s2 : system) :
  undisturbed b (house adapter_b) s1 s2 ->
  undisturbed b (house adapter_b) (work clock1 reg1 s1) (work clock2 reg2 s2).
Proof.
  intros (Hm & R & Hlog & Hres). unfold work. rewrite <- Hm.
  destruct (queue (messages s1)) as [| [tid name] rest].
  { repeat split; try assumption; apply R. }
  destruct (string_dec name b) as [-> | Hne].
  - destruct (scrape_house_data_alike (clock1 tid) (clock2 tid) reg1 reg2 b adapter_b
                (state s1) (state s2) same_adapter_1 same_adapter_2 R Hlog)
      as (Hs & R' & Hlog').
    destruct (scrape_house_data (clock1 tid) reg1 b (state s1)) as [w1 r1].
    destruct (scrape_house_data (clock2 tid) reg2 b (state s2)) as [w2 r2].
    simpl in *. subst r2.
    split; [reflexivity |]. split; [exact R' |]. split; [exact Hlog' |].
    unfold results_of in *. simpl. rewrite !filter_app. congruence.
  - destruct R as (O1 & O2 & F).
    destruct (scrape_house_data_frame (clock1 tid) reg1 name b (house adapter_b)
                (state s1) O1 Hne
                (fun ad H => other_houses name ad Hne (or_introl H)))
      as (F1 & O1' & L1).
    destruct (scrape_house_data_frame (clock2 tid) reg2 name b (house adapter_b)
                (state s2) O2 Hne
                (fun ad H => other_houses name ad Hne (or_intror H)))
      as (F2 & O2' & L2).
    destruct (scrape_house_data (clock1 tid) reg1 name (state s1)) as [w1 r1].
    destruct (scrape_house_data (clock2 tid) reg2 name (state s2)) as [w2 r2].
    simpl in *.
    assert (Hb : String.eqb name b = false) by (apply String.eqb_neq; exact Hne).
    split; [reflexivity |]. split; [| split; [simpl; congruence |]].
    + split; [exact O1' |]. split; [exact O2' |].
      apply (same_for_trans _ _ _ _ (same_for_sym _ _ _ F1)).
      apply (same_for_trans _ _ _ _ F F2).
    + unfold results_of in *. simpl. rewrite !filter_app. simpl. rewrite Hb.
      rewrite !app_nil_r. exact Hres.
Qed.

Lemma drain_undisturbed (n : nat) (s1 s2 : system) :
  undisturbed b (house adapter_b) s1 s2 ->
  undisturbed b (house adapter_b) (drain n clock1 reg1 s1) (drain n clock2 reg2 s2).
Proof.
  revert s1 s2. induction n as [| n IH]; intros s1 s2 H; simpl; [exact H |].
  apply IH. apply work_undisturbed. exact H.
Qed.

End Worker.

(** Whatever the adapters do, the worker takes the tasks in the order of
    the queue and records a result for each. *)
Lemma drain_takes_every_task (clock : nat -> timestamp) (reg : adapters) (n : nat) :
  forall s,
    map fst (results (drain n clock reg s))
    = map fst (results s) ++ firstn n (queue (messages s))
    /\ queue (messages (drain n clock reg s)) = skipn n (queue (messages s)).
Proof.
  induction n as [| n IH]; intros s; simpl.
  { rewrite app_nil_r. split; reflexivity. }
  destruct (IH (work clock reg s)) as [Hr Hq]. rewrite Hr, Hq. unfold work.
  destruct (queue (messages s)) as [| [tid name] rest] eqn:E.
  - rewrite E. rewrite firstn_nil, skipn_nil. split; reflexivity.
  - destruct (scrape_house_data (clock tid) reg name (state s)) as [w r]. simpl.
    rewrite map_app, <- app_assoc. split; reflexivity.
Qed.

Lemma fresh_world_ok : db_ok (store fresh_world).
Proof. split; [apply no_data_consistent | constructor]. Qed.

(** C7: let two runs of the worker start from the same queue and store and
    differ in the adapters of other sources only, in particular by an
    adapter of source A that fails fatally in the second of them.  Then
    after any number of tasks the same messages wait in both queues,
    every task taken from the queue has its result in the second run as
    well, the tasks of source B have run with the same results (log
    entry and counts), the log says the same of B, and the store holds
    the same auctions and lots for B. *)
Theorem other_source_runs_the_same (clock1 clock2 : nat -> timestamp)
  (reg1 reg2 : adapters) (b : string) (adapter_b : ScrapingAdapter)
  (s : system) (n : nat) :
  db_ok (store (state s)) ->
  get_adapter reg1 b = Some adapter_b ->
  get_adapter reg2 b = Some adapter_b ->
  (forall name ad, name <> b ->
     get_adapter reg1 name = Some ad \/ get_adapter reg2 name = Some ad ->
     house ad <> house adapter_b) ->
  messages (drain n clock1 reg1 s) = messages (drain n clock2 reg2 s)
  /\ map fst (results (drain n clock2 reg2 s))
     = map fst (results s) ++ firstn n (queue (messages s))
  /\ results_of b (drain n clock1 reg1 s) = results_of b (drain n clock2 reg2 s)
  /\ log_of b (state (drain n clock1 reg1 s)) = log_of b (state (drain n clock2 reg2 s))
  /\ same_for (house adapter_b)
       (store (state (drain n clock1 reg1 s)))
       (store (state (drain n clock2 reg2 s))).
Proof.
  intros O G1 G2 Hoth.
  assert (H0 : undisturbed b (house adapter_b) s s).
  { split; [reflexivity |]. split; [| split; reflexivity].
    split; [exact O |]. split; [exact O | apply same_for_refl]. }
  destruct (drain_undisturbed clock1 clock2 reg1 reg2 b adapter_b G1 G2 Hoth n s s H0)
    as (Hm & (_ & _ & F) & Hl & Hr).
  split; [exact Hm |].
  split; [apply (drain_takes_every_task clock2 reg2 n s) |].
  split; [exact Hr |]. split; [exact Hl | exact F].
Qed.

Lemma only_a_differs (name : string) (ad : ScrapingAdapter) :
  name <> "b" ->
  get_adapter two_houses name = Some ad \/ get_adapter first_house_down name = Some ad ->
  house ad <> 2.
Proof.
  intros Hne H. unfold get_adapter, two_houses, first_house_down in H.
  cbn [find fst] in H.
  destruct (String.eqb "a" name).
  - cbn [snd] in H. destruct H as [H | H]; apply some_eq in H; subst ad; simpl; lia.
  - destruct (String.eqb "b" name) eqn:E.
    + apply String.eqb_eq in E. congruence.
    + destruct H as [H | H]; discriminate H.
Qed.

Lemma other_source_runs_the_same_witness :
  results_of "b" (drain 2 (fun _ => 5%Z) two_houses both_scheduled)
  = results_of "b" (drain 2 (fun i => Z.of_nat i) first_house_down both_scheduled)
  /\ log_of "b" (state (drain 2 (fun _ => 5%Z) two_houses both_scheduled))
     = log_of "b" (state (drain 2 (fun i => Z.of_nat i) first_house_down both_scheduled)).
Proof.
  destruct (other_source_runs_the_same (fun _ => 5%Z) (fun i => Z.of_nat i)
              two_houses first_house_down "b"
              (listing 2 [auction_data "101" "Spring Sale" "/b/101";
                          auction_data "102" "Summer Sale" "/b/102"] None)
              both_scheduled 2 fresh_world_ok eq_refl eq_refl only_a_differs)
    as (_ & _ & Hr & Hl & _).
  split; assumption.
Defined.

(** With the adapter of house a down, the task of a ends in an error and
    the task of b, next in the queue, runs and ends in success with its
    two auctions created. *)
Example first_house_down_second_completes :
  map snd (results (run_all (fun i => Z.of_nat i) first_house_down both_scheduled))
  = [inr {| entry := log_scraping_error "a" "connection refused";
            auctions_tally := no_tally; lots_tally := no_tally |};
     inr {| entry := log_scraping_success "b";
            auctions_tally := {| processed := 2; created := 2; updated := 0 |};
            lots_tally := no_tally |}]
  /\ stored_ids (store (state (run_all (fun i => Z.of_nat i) first_house_down
                                 both_scheduled)))
     = [Some "101"; Some "102"].
Proof. split; vm_compute; reflexivity. Qed.

End IsolationFacts.

(* --------------------------------------------------------------------- *)
(** ** The other hooks of the three files *)
(* --------------------------------------------------------------------- *)

Module MoreHooksFacts.
Import Js Hooks.

(** X1: with options that carry no [enabled] entry, [useLotsByAuction] and
    [useHouseStats] call nothing for a falsy id ([0], [-0], [NaN]) and
    make their one call for every other id; [useAuctionBySlug] calls
    nothing for the empty slug only, one character is enough for it to
    call [api.auctions.getBySlug]. *)
Theorem by_auction_stats_and_slug_need_argument (id : number) (slug : string)
  (params : option page_params) (options : option use_query_options) :
  leaves_enabled options ->
  (truthy_number id = false ->
     requests_on_mount (useLotsByAuction id params options) = []
     /\ requests_on_mount (useHouseStats id options) = [])
  /\ (truthy_number id = true ->
     requests_on_mount (useLotsByAuction id params options)
     = [lots_getByAuction id params]
     /\ requests_on_mount (useHouseStats id options) = [houses_getStats id])
  /\ (slug = "" -> requests_on_mount (useAuctionBySlug slug options) = [])
  /\ (1 <= Js.length slug ->
     requests_on_mount (useAuctionBySlug slug options) = [auctions_getBySlug slug]).
Proof.
  intros H. unfold useLotsByAuction, useHouseStats, useAuctionBySlug.
  rewrite !HooksFacts.requests_of_own by exact H.
  split; [intros ->; split; reflexivity |].
  split; [intros ->; split; reflexivity |].
  split; [intros ->; reflexivity |].
  intros Hlen. apply HooksFacts.truthy_string_length in Hlen. rewrite Hlen. reflexivity.
Qed.

Lemma by_auction_stats_and_slug_need_argument_witness :
  requests_on_mount (useHouseStats (of_Z 0) None) = []
  /\ requests_on_mount (useLotsByAuction (of_Z 3) None None)
     = [lots_getByAuction (of_Z 3) None]
  /\ requests_on_mount (useAuctionBySlug "a" None) = [auctions_getBySlug "a"].
Proof.
  split; [| split].
  - apply (proj1 (by_auction_stats_and_slug_need_argument (of_Z 0) "" None None I)).
    reflexivity.
  - apply (proj1 (proj2 (by_auction_stats_and_slug_need_argument (of_Z 3) "" None None I))).
    reflexivity.
  - apply (proj2 (proj2 (proj2
      (by_auction_stats_and_slug_need_argument (of_Z 3) "a" None None I)))).
    simpl; lia.
Defined.

End MoreHooksFacts.

Module ListHooksFacts.
Import Js ListHooks.

Lemma requests_of_list_hook key fn own options :
  requests_on_mount (with_options key fn own options)
  = if switched_off options then [] else [fn tt].
Proof.
  destruct options as [o |]; [| reflexivity].
  unfold requests_on_mount, is_enabled, switched_off; simpl.
  destruct (Hooks.opt_enabled o) as [| | []]; reflexivity.
Qed.

(** X2: the seven list hooks have no gate of their own.  Whatever
    filters or page parameters they are given, [undefined] included, they
    make their one call when they mount, unless the caller's options say
    [enabled: false]; then they call nothing. *)
Theorem list_hooks_fetch_unless_switched_off
  (lot_filters : option lot_filters) (auction_filters : option auction_filters)
  (house_params : option house_params) (params : option Hooks.page_params)
  (options : option Hooks.use_query_options) :
  let calls c := if switched_off options then [] else [c] in
  requests_on_mount (useLots lot_filters options) = calls (lots_getAll lot_filters)
  /\ requests_on_mount (useRecentLots params options) = calls (lots_getRecent params)
  /\ requests_on_mount (useAuctions auction_filters options)
     = calls (auctions_getAll auction_filters)
  /\ requests_on_mount (useUpcomingAuctions params options)
     = calls (auctions_getUpcoming params)
  /\ requests_on_mount (useLiveAuctions params options) = calls (auctions_getLive params)
  /\ requests_on_mount (useRecentAuctions params options)
     = calls (auctions_getRecent params)
  /\ requests_on_mount (useHouses house_params options)
     = calls (houses_getAll house_params).
Proof.
  intros calls. unfold calls, useLots, useRecentLots, useAuctions, useUpcomingAuctions,
    useLiveAuctions, useRecentAuctions, useHouses.
  rewrite !requests_of_list_hook. repeat split.
Qed.

(** X3: [useLiveAuctions] asks for a refetch every 30000 ms whenever the
    caller's options have no [refetchInterval] entry; an entry of the
    caller replaces the interval, and one holding [undefined] leaves the
    query without any.  The other hooks that take page parameters never
    set an interval themselves. *)
Theorem useLiveAuctions_refetches (params : option Hooks.page_params)
  (options : option Hooks.use_query_options) :
  ((options = None \/ exists o, options = Some o /\ Hooks.opt_refetchInterval o = Absent) ->
     refetchInterval (useLiveAuctions params options) = Some (of_Z 30000))
  /\ (forall o n, options = Some o -> Hooks.opt_refetchInterval o = Value n ->
        refetchInterval (useLiveAuctions params options) = Some n)
  /\ (forall o, options = Some o -> Hooks.opt_refetchInterval o = Undefined ->
        refetchInterval (useLiveAuctions params options) = None)
  /\ refetchInterval (useUpcomingAuctions params None) = None
  /\ refetchInterval (useRecentAuctions params None) = None
  /\ refetchInterval (useRecentLots params None) = None.
Proof.
  split; [| split; [| split]].
  - intros [-> | (o & -> & H)]; simpl; [reflexivity | rewrite H; reflexivity].
  - intros o n -> H. simpl. rewrite H. reflexivity.
  - intros o -> H. simpl. rewrite H. reflexivity.
  - repeat split.
Qed.

End ListHooksFacts.

(* --------------------------------------------------------------------- *)
(** ** The pages *)
(* --------------------------------------------------------------------- *)

Module PagesFacts.
Import Js React.

Lemma map_cards_total {A : Type} (card : A -> option child) (l : list A) :
  (forall a, card a <> None) ->
  exists cs, map_cards card l = Some cs /\ List.length cs = List.length l.
Proof.
  intros Hc. induction l as [| a l IH]; simpl.
  - exists []. split; reflexivity.
  - destruct (card a) as [c |] eqn:E; [| exfalso; exact (Hc a E)].
    destruct IH as (cs & -> & Hlen). exists (c :: cs). simpl. rewrite Hlen.
    split; reflexivity.
Qed.

Lemma list_page_lists {A : Type} (loading failed none : string)
  (card : A -> option child) :
  (forall a, card a <> None) ->
  lists_its_items (list_page loading failed none card).
Proof.
  intros Hc r. unfold list_page.
  destruct (isLoading r).
  { eexists. split; [reflexivity |]. split; [split |].
    - intros [cs H]; discriminate.
    - intros [H _]; discriminate.
    - intros cs d H; discriminate. }
  destruct (error r) as [m |].
  { eexists. split; [reflexivity |]. split; [split |].
    - intros [cs H]; discriminate.
    - intros (_ & H & _); discriminate.
    - intros cs d H; discriminate. }
  destruct (data r) as [d |].
  2: { eexists. split; [reflexivity |]. split; [split |].
       - intros [cs H]; discriminate.
       - intros (_ & _ & d & H & _); discriminate.
       - intros cs d H; discriminate. }
  destruct (items d) as [| a l] eqn:E.
  { eexists. split; [reflexivity |]. split; [split |].
    - intros [cs H]; discriminate.
    - intros (_ & _ & d' & [= <-] & H). rewrite E in H. exfalso. apply H. reflexivity.
    - intros cs d' H; discriminate. }
  destruct (map_cards_total card (a :: l) Hc) as (cs & Hcs & Hlen).
  rewrite Hcs. simpl. eexists. split; [reflexivity |]. split; [split |].
  - intros _. split; [reflexivity |]. split; [reflexivity |].
    exists d. split; [reflexivity |]. rewrite E. discriminate.
  - intros _. exists cs. reflexivity.
  - intros cs' d' [= <-] [= <-]. rewrite E. exact Hlen.
Qed.

Section Browser.
Variable digits : number -> string.
Variable toLocaleString : number -> string.
Variable toLocaleDateString : string -> string.

Lemma text_cell_renders (x : option string) :
  exists v, LotsPage.text_cell digits x = Some v.
Proof.
  unfold LotsPage.text_cell, and_. destruct (truthy (str_field x)); eauto.
Qed.

Lemma estimate_cell_renders (lot : LotsPage.Lot) :
  exists v, LotsPage.estimate_cell toLocaleString lot = Some v.
Proof.
  unfold LotsPage.estimate_cell, and_, call.
  destruct (LotsPage.estimated_price_min lot) as [low |]; simpl; [| eauto].
  destruct (truthy_number low) eqn:Tl; simpl; [| rewrite Tl; eauto].
  destruct (LotsPage.estimated_price_max lot) as [high |]; simpl; [| eauto].
  destruct (truthy_number high); eauto.
Qed.

Lemma final_price_cell_renders (lot : LotsPage.Lot) :
  exists v, LotsPage.final_price_cell toLocaleString lot = Some v.
Proof.
  unfold LotsPage.final_price_cell, and_, call.
  destruct (LotsPage.final_price lot) as [price |]; simpl; [| eauto].
  destruct (truthy_number price); eauto.
Qed.

Lemma lots_card_renders (lot : LotsPage.Lot) :
  LotsPage.card digits toLocaleString lot <> None.
Proof.
  unfold LotsPage.card.
  destruct (text_cell_renders (LotsPage.artist_name lot)) as [? ->].
  destruct (text_cell_renders (LotsPage.dimensions lot)) as [? ->].
  destruct (text_cell_renders (LotsPage.description lot)) as [? ->].
  destruct (estimate_cell_renders lot) as [? ->].
  destruct (final_price_cell_renders lot) as [? ->].
  unfold LotsPage.medium_cell, and_.
  destruct (truthy (str_field (LotsPage.medium lot))); discriminate.
Qed.

Lemma auctions_card_renders (auction : AuctionsPage.Auction) :
  AuctionsPage.card digits toLocaleString toLocaleDateString auction <> None.
Proof.
  unfold AuctionsPage.card, AuctionsPage.text_cell, AuctionsPage.date_cell,
    AuctionsPage.location_cell, AuctionsPage.total_lots_cell,
    AuctionsPage.total_realized_cell, and_, call.
  destruct (AuctionsPage.house_name auction) as [[| ? ?] |],
           (AuctionsPage.start_date auction) as [[| ? ?] |],
           (AuctionsPage.location auction) as [[| ? ?] |],
           (AuctionsPage.description auction) as [[| ? ?] |]; simpl;
    destruct (AuctionsPage.positive (AuctionsPage.total_lots auction)); simpl;
    destruct (AuctionsPage.total_realized auction) as [total |]; simpl;
    try destruct (truthy_number total); simpl; discriminate.
Qed.

Lemma houses_card_renders (house : HousesPage.House) :
  HousesPage.card digits toLocaleDateString house <> None.
Proof.
  unfold HousesPage.card, HousesPage.website_cell, HousesPage.description_cell,
    HousesPage.last_scrape_cell, and_, call.
  destruct (HousesPage.website house) as [[| ? ?] |],
           (HousesPage.description house) as [[| ? ?] |],
           (HousesPage.last_scrape house) as [[| ? ?] |]; simpl; discriminate.
Qed.

(** X4: the three list pages render whatever their query holds, without
    a TypeError from an optional field.  Each shows cards exactly when
    the query is not loading, reports no error and holds at least one
    item, and then one card for each item; so the items a query still
    holds are not shown while its error is set. *)
Theorem list_pages_list_their_items :
  lists_its_items (LotsPage.LotsPage digits toLocaleString)
  /\ lists_its_items (AuctionsPage.AuctionsPage digits toLocaleString toLocaleDateString)
  /\ lists_its_items (HousesPage.HousesPage digits toLocaleDateString).
Proof.
  split; [| split].
  - apply list_page_lists. apply lots_card_renders.
  - apply list_page_lists. apply auctions_card_renders.
  - apply list_page_lists. apply houses_card_renders.
Qed.

(** X5: the price cells of a lot card never throw, and show their line
    exactly when the prices they test are truthy.  A price of zero is not
    left out like a missing one: with an estimated minimum of [0] the
    estimate cell shows the text 0, also with a minimum that is set and
    a maximum of [0], and with a final price of [0] the final price cell
    shows the text 0. *)
Theorem zero_price_shows_as_text (lot : LotsPage.Lot) :
  exists estimate final,
    LotsPage.estimate_cell toLocaleString lot = Some estimate
    /\ LotsPage.final_price_cell toLocaleString lot = Some final
    /\ ((exists c, estimate = jsx c)
        <-> exists low high,
              LotsPage.estimated_price_min lot = Some low
              /\ LotsPage.estimated_price_max lot = Some high
              /\ truthy_number low = true /\ truthy_number high = true)
    /\ ((exists c, final = jsx c)
        <-> exists price, LotsPage.final_price lot = Some price
                          /\ truthy_number price = true)
    /\ (LotsPage.estimated_price_min lot = None -> as_child digits estimate = nothing)
    /\ (forall s, LotsPage.estimated_price_min lot = Some (S754_zero s) ->
          as_child digits estimate = text "0")
    /\ (forall low s, LotsPage.estimated_price_min lot = Some low ->
          truthy_number low = true ->
          LotsPage.estimated_price_max lot = Some (S754_zero s) ->
          as_child digits estimate = text "0")
    /\ (LotsPage.final_price lot = None -> as_child digits final = nothing)
    /\ (forall s, LotsPage.final_price lot = Some (S754_zero s) ->
          as_child digits final = text "0").
Proof.
  unfold LotsPage.estimate_cell, LotsPage.final_price_cell, and_, call.
  destruct (LotsPage.estimated_price_min lot) as [low |]; simpl;
    [destruct (truthy_number low) eqn:Tl; simpl; rewrite ?Tl |];
    (destruct (LotsPage.estimated_price_max lot) as [high |]; simpl;
       [destruct (truthy_number high) eqn:Th; simpl; rewrite ?Th |]);
    (destruct (LotsPage.final_price lot) as [price |]; simpl;
       [destruct (truthy_number price) eqn:Tp; simpl |]);
    (eexists; eexists; split; [reflexivity |]; split; [reflexivity |]);
    repeat match goal with
      | |- _ /\ _ => split
      | |- _ <-> _ => split
      | |- _ -> _ => intro
      | |- forall _, _ => intro
      end;
    repeat match goal with
      | H : exists _, _ |- _ => destruct H
      | H : _ /\ _ |- _ => destruct H
      | H : Some _ = Some _ |- _ => injection H as H; subst
      end;
    try discriminate; try congruence; try reflexivity;
    try (eexists; reflexivity);
    try (eexists; eexists; repeat split; eassumption);
    try (eexists; split; [reflexivity | assumption]).
Qed.

(** X6: on the auction card the cell of [total_lots], which tests
    [total_lots > 0], shows its line or nothing, never a bare number;
    the cell of [total_realized], which tests the number itself, shows
    the text 0 for a total of [0]. *)
Theorem total_lots_is_compared_total_realized_is_not (auction : AuctionsPage.Auction) :
  (exists lots,
     AuctionsPage.total_lots_cell digits auction = Some lots
     /\ (AuctionsPage.positive (AuctionsPage.total_lots auction) = true ->
           exists c, lots = jsx c)
     /\ (AuctionsPage.positive (AuctionsPage.total_lots auction) = false ->
           as_child digits lots = nothing))
  /\ (exists realized,
        AuctionsPage.total_realized_cell toLocaleString auction = Some realized
        /\ (AuctionsPage.total_realized auction = None ->
              as_child digits realized = nothing)
        /\ (forall s, AuctionsPage.total_realized auction = Some (S754_zero s) ->
              as_child digits realized = text "0")).
Proof.
  unfold AuctionsPage.total_lots_cell, AuctionsPage.total_realized_cell, and_, call.
  split.
  - simpl. destruct (AuctionsPage.positive (AuctionsPage.total_lots auction));
      eexists; (split; [reflexivity |]); split; intros H; try discriminate.
    + eexists; reflexivity.
    + reflexivity.
  - destruct (AuctionsPage.total_realized auction) as [total |]; simpl;
      [destruct (truthy_number total) eqn:T; simpl |];
      eexists; (split; [reflexivity |]); split; intros; try discriminate;
      try reflexivity.
    + match goal with H : Some _ = Some _ |- _ => injection H as -> end. discriminate.
    + match goal with H : Some _ = Some _ |- _ => injection H as -> end. reflexivity.
Qed.

End Browser.

(** The three pages call their hook without arguments: the list is
    fetched unfiltered when the page mounts. *)
Example pages_fetch_on_mount :
  ListHooks.requests_on_mount LotsPage.query = [ListHooks.lots_getAll None]
  /\ ListHooks.requests_on_mount AuctionsPage.query = [ListHooks.auctions_getAll None]
  /\ ListHooks.requests_on_mount HousesPage.query = [ListHooks.houses_getAll None].
Proof. repeat split. Qed.

Example zero_is_not_positive (s : bool) :
  AuctionsPage.positive (Some (S754_zero s)) = false
  /\ AuctionsPage.positive None = false
  /\ AuctionsPage.positive (Some S754_nan) = false
  /\ AuctionsPage.positive (Some (of_Z 12)) = true.
Proof. destruct s; repeat split. Qed.

End PagesFacts.

Module NavigationFacts.
Import Navigation.

Lemma desktop_class (b : bool) :
  String.eqb
    ("inline-flex items-center px-1 pt-1 border-b-2 text-sm font-medium "
     ++ (if b then "border-blue-500 text-gray-900"
         else "border-transparent text-gray-500 hover:border-gray-300 hover:text-gray-700"))
    desktop_current = b.
Proof. destruct b; vm_compute; reflexivity. Qed.

Lemma mobile_class (b : bool) :
  String.eqb
    ("block pl-3 pr-4 py-2 border-l-4 text-base font-medium "
     ++ (if b then "bg-blue-50 border-blue-500 text-blue-700"
         else "border-transparent text-gray-500 hover:bg-gray-50 hover:border-gray-300 hover:text-gray-700"))
    mobile_current = b.
Proof. destruct b; vm_compute; reflexivity. Qed.

Lemma filter_map_comm {A B : Type} (f : A -> B) (p : B -> bool) (l : list A) :
  filter p (map f l) = map f (filter (fun a => p (f a)) l).
Proof.
  induction l as [| a l IH]; simpl; [reflexivity |].
  destruct (p (f a)); simpl; rewrite IH; reflexivity.
Qed.

Lemma desktop_current_at (pathname : string) :
  map to (current desktop_current (desktop pathname)) = map href (at_path pathname).
Proof.
  unfold current, desktop, at_path. rewrite filter_map_comm, map_map. simpl to.
  f_equal. apply filter_ext. intros i. cbn [className]. apply desktop_class.
Qed.

Lemma mobile_current_at (pathname : string) :
  map to (current mobile_current (mobile pathname)) = map href (at_path pathname).
Proof.
  unfold current, mobile, at_path. rewrite filter_map_comm, map_map. simpl to.
  f_equal. apply filter_ext. intros i. cbn [className]. apply mobile_class.
Qed.

Lemma at_path_cases (pathname : string) :
  (In pathname (map href navigationItems) /\ map href (at_path pathname) = [pathname])
  \/ (~ In pathname (map href navigationItems) /\ at_path pathname = []).
Proof.
  unfold at_path, navigationItems. cbn [filter href map].
  destruct (String.eqb_spec pathname "/") as [-> | N1]; [left; split; [simpl; tauto | reflexivity] |].
  destruct (String.eqb_spec pathname "/houses") as [-> | N2]; [left; split; [simpl; tauto | reflexivity] |].
  destruct (String.eqb_spec pathname "/auctions") as [-> | N3]; [left; split; [simpl; tauto | reflexivity] |].
  destruct (String.eqb_spec pathname "/lots") as [-> | N4]; [left; split; [simpl; tauto | reflexivity] |].
  destruct (String.eqb_spec pathname "/search") as [-> | N5]; [left; split; [simpl; tauto | reflexivity] |].
  destruct (String.eqb_spec pathname "/analytics") as [-> | N6]; [left; split; [simpl; tauto | reflexivity] |].
  right. split; [| reflexivity].
  simpl. intros [H | [H | [H | [H | [H | [H | []]]]]]]; congruence.
Qed.

(** X8: for every path the bar marks at most one link as current, the
    same one in the desktop bar and in the mobile menu, and it is the
    link whose target is the path itself.  One of the six targets marks
    its link; any other path, such as the page of one lot, marks none. *)
Theorem navigation_marks_the_exact_path (pathname : string) :
  let on_desktop := map to (current desktop_current (desktop pathname)) in
  let on_mobile := map to (current mobile_current (mobile pathname)) in
  on_desktop = on_mobile
  /\ (In pathname (map href navigationItems) -> on_desktop = [pathname])
  /\ (~ In pathname (map href navigationItems) -> on_desktop = [])
  /\ forall id : string,
       map to (current desktop_current (desktop ("/lots/" ++ id))) = [].
Proof.
  intros on_desktop on_mobile. unfold on_desktop, on_mobile.
  rewrite desktop_current_at, mobile_current_at.
  split; [reflexivity |].
  destruct (at_path_cases pathname) as [[Hin E] | [Hout E]].
  - split; [intros _; exact E |]. split; [intros H; contradiction |].
    intros id. rewrite desktop_current_at.
    destruct (at_path_cases ("/lots/" ++ id)) as [[Hin' _] | [_ E']];
      [| rewrite E'; reflexivity].
    simpl in Hin'. exfalso.
    destruct Hin' as [H | [H | [H | [H | [H | [H | []]]]]]]; try discriminate.
  - split; [intros H; contradiction |]. split; [intros _; rewrite E; reflexivity |].
    intros id. rewrite desktop_current_at.
    destruct (at_path_cases ("/lots/" ++ id)) as [[Hin' _] | [_ E']];
      [| rewrite E'; reflexivity].
    simpl in Hin'. exfalso.
    destruct Hin' as [H | [H | [H | [H | [H | [H | []]]]]]]; try discriminate.
Qed.

End NavigationFacts.

(* --------------------------------------------------------------------- *)
(** ** Statements on a table: ids, stamps and lookups *)
(* --------------------------------------------------------------------- *)

Module StatementFacts.
Import Sql SqlFacts Statements.

Section Facts.
Variables Row Key : Type.
Variable sch : schema Row Key.

Lemma sql_insert_inserted (now : timestamp) (values r : Row) (t : table Row) :
  snd (sql_insert sch now values t) = Inserted r ->
  r = complete sch (next_id t) now values
  /\ vet sch r (rows t) = None
  /\ fst (sql_insert sch now values t)
     = {| rows := rows t ++ [r]; next_id := S (next_id t) |}.
Proof.
  destruct (sql_insert_cases _ _ sch now values t) as [(v & _ & ->) | (Hvet & ->)];
    simpl; [discriminate |].
  intros [= <-]. repeat split. exact Hvet.
Qed.

Lemma sql_update_updated (now : timestamp) (i : nat) (set : Row -> Row)
  (r' : Row) (t : table Row) :
  snd (sql_update sch now i set t) = Updated r' ->
  exists before r after,
    rows t = before ++ r :: after /\ row_id sch r = i
    /\ r' = before_update sch now (set r)
    /\ fst (sql_update sch now i set t)
       = {| rows := before ++ r' :: after; next_id := next_id t |}.
Proof.
  destruct (sql_update_cases _ _ sch now i set t)
    as [[-> _] | (b & r & a & Hrows & Hi & _ & [(v & _ & ->) | (_ & ->)])];
    simpl; try discriminate.
  intros [= <-]. exists b, r, a. repeat split; assumption.
Qed.





(** X13: a row an INSERT has stored under a UNIQUE key was not to be
    found under the key before, is the row a SELECT by the key gives
    afterwards, and makes the table refuse any later INSERT of a row
    with the same key, which leaves the rows as they are. *)
Theorem inserted_row_is_found_by_its_key (now : timestamp) (values r : Row)
  (k : Key) (t : table Row) :
  snd (sql_insert sch now values t) = Inserted r ->
  unique_key sch r = Some k ->
  let t' := fst (sql_insert sch now values t) in
  select_by_key sch k t = None
  /\ select_by_key sch k t' = Some r
  /\ forall now' values',
       unique_key sch (complete sch (next_id t') now' values') = Some k ->
       exists v,
         snd (sql_insert sch now' values' t') = Rejected v
         /\ rows (fst (sql_insert sch now' values' t')) = rows t'.
Proof.
  intros Hins Hk t'.
  destruct (sql_insert_inserted now values r t Hins) as (Hr & Hvet & Ht').
  apply vet_none in Hvet. destruct Hvet as (_ & _ & Hfree).
  assert (Hnone : select_by_key sch k t = None).
  { unfold select_by_key. destruct (find (has_key sch k) (rows t)) as [x |] eqn:E;
      [| reflexivity].
    apply find_some in E. destruct E as [Hin Hx]. apply has_key_spec in Hx.
    exfalso. exact (Hfree k Hk x Hin Hx). }
  assert (Hrows : rows t' = rows t ++ [r]) by (unfold t'; rewrite Ht'; reflexivity).
  split; [exact Hnone |]. split.
  - unfold select_by_key in *. rewrite Hrows, find_app_none by exact Hnone.
    simpl. rewrite (proj2 (has_key_spec _ _ sch k r) Hk). reflexivity.
  - intros now' values' Hk'.
    destruct (sql_insert_cases _ _ sch now' values' t') as [(v & _ & E) | (Hvet' & _)].
    + exists v. rewrite E. split; reflexivity.
    + exfalso. apply vet_none in Hvet'. destruct Hvet' as (_ & _ & Hfree').
      apply (Hfree' k Hk' r); [| exact Hk].
      rewrite Hrows. apply in_or_app. right. left. reflexivity.
Qed.

End Facts.


(** The first INSERT of the two above is refused by the CHECK on the
    status, and has used up the id 1. *)
Example refused_insert_leaves_a_gap :
  ids ScrapingLogs.schema
    (execute_all ScrapingLogs.schema
       [(0%Z, INSERT (ScrapingLogs.started_values None "full" "running"));
        (1%Z, INSERT (ScrapingLogs.started_values None "full" "started"))]
       (empty ScrapingLogs.row)) = [2].
Proof. reflexivity. Qed.

Lemma inserted_row_is_found_by_its_key_witness :
  let setdart := AuctionHouses.listed "Setdart" "España" "https://www.setdart.com" in
  let t' := fst (sql_insert AuctionHouses.schema 0%Z setdart (empty AuctionHouses.row)) in
  select_by_key AuctionHouses.schema ("Setdart", "España") t'
  = Some (AuctionHouses.complete 1 0%Z setdart)
  /\ exists v,
       snd (sql_insert AuctionHouses.schema 5%Z setdart t') = Rejected v
       /\ rows (fst (sql_insert AuctionHouses.schema 5%Z setdart t')) = rows t'.
Proof.
  intros setdart t'.
  pose proof (inserted_row_is_found_by_its_key _ _ AuctionHouses.schema 0%Z setdart
                (AuctionHouses.complete 1 0%Z setdart) ("Setdart", "España")
                (empty AuctionHouses.row) eq_refl eq_refl) as (_ & Hfound & Hagain).
  split; [exact Hfound |].
  exact (Hagain 5%Z setdart eq_refl).
Defined.

End StatementFacts.

(* --------------------------------------------------------------------- *)
(** ** The other tables, the trigger and the columns of a stored row *)
(* --------------------------------------------------------------------- *)

Module TableFacts.
Import Sql SqlFacts StatementFacts.

Lemma rows_of_statements_valid {Row Key : Type} (sch : schema Row Key)
  (ss : list (timestamp * statement Row)) (r : Row) :
  In r (rows (execute_all sch ss (empty Row))) -> constraints sch r = true.
Proof.
  intros Hin.
  pose proof (s_valid (execute_all_sound _ _ sch ss _ (empty_sound _ _ sch))) as Hv.
  unfold rows_valid in Hv. rewrite Forall_forall in Hv. exact (Hv r Hin).
Qed.

Lemma rows_of_statements_one_per_key {Row Key : Type} (sch : schema Row Key)
  (ss : list (timestamp * statement Row)) (k : Key) (r r' : Row) :
  In r (rows (execute_all sch ss (empty Row))) ->
  In r' (rows (execute_all sch ss (empty Row))) ->
  unique_key sch r = Some k -> unique_key sch r' = Some k -> r = r'.
Proof.
  intros Hr Hr' Hk Hk'.
  pose proof (s_keys (execute_all_sound _ _ sch ss _ (empty_sound _ _ sch)) k) as Hone.
  unfold with_key in Hone.
  apply (filter_at_most_one (has_key sch k) _ r r' Hone Hr Hr');
    apply has_key_spec; assumption.
Qed.

(** X9: whatever INSERT and UPDATE statements reach [auction_houses], no
    two of its rows have the same name and the same country.  Both
    columns are NOT NULL, so that no row escapes the UNIQUE clause by a
    NULL. *)
Theorem auction_houses_differ_in_name_or_country
  (ss : list (timestamp * statement AuctionHouses.row))
  (r r' : AuctionHouses.row) :
  In r (rows (execute_all AuctionHouses.schema ss (empty AuctionHouses.row))) ->
  In r' (rows (execute_all AuctionHouses.schema ss (empty AuctionHouses.row))) ->
  AuctionHouses.name r = AuctionHouses.name r' ->
  AuctionHouses.country r = AuctionHouses.country r' ->
  r = r'.
Proof.
  intros Hr Hr' Hn Hc.
  pose proof (rows_of_statements_valid AuctionHouses.schema ss r Hr) as Hv.
  simpl in Hv. unfold AuctionHouses.constraints in Hv.
  repeat (apply andb_true_iff in Hv; destruct Hv as [Hv ?]).
  destruct (AuctionHouses.name r) as [n |] eqn:En; [| discriminate].
  destruct (AuctionHouses.country r) as [c |] eqn:Ec; [| discriminate].
  apply (rows_of_statements_one_per_key AuctionHouses.schema ss (n, c) r r' Hr Hr');
    simpl; unfold AuctionHouses.natural_key.
  - rewrite En, Ec. reflexivity.
  - rewrite <- Hn, <- Hc. reflexivity.
Qed.

Lemma auction_houses_differ_in_name_or_country_witness :
  let setdart := AuctionHouses.listed "Setdart" "España" "https://www.setdart.com" in
  let t := execute_all AuctionHouses.schema
             [(0%Z, INSERT setdart); (1%Z, INSERT setdart)]
             (empty AuctionHouses.row) in
  rows t = [AuctionHouses.complete 1 0%Z setdart]
  /\ nth_error (rows t) 0 = Some (AuctionHouses.complete 1 0%Z setdart)
  /\ AuctionHouses.complete 1 0%Z setdart = AuctionHouses.complete 1 0%Z setdart.
Proof.
  intros setdart t. split; [reflexivity |]. split; [reflexivity |].
  apply (auction_houses_differ_in_name_or_country
           [(0%Z, INSERT setdart); (1%Z, INSERT setdart)]);
    try reflexivity; simpl; left; reflexivity.
Defined.

Lemma insert_root (n : string) (now : timestamp) (t : table Categories.row) :
  String.length n <= 200 ->
  (forall x, In x (rows t) -> Categories.id x <> next_id t) ->
  sql_insert Categories.schema now (Categories.root n) t
  = ({| rows := rows t ++ [Categories.complete (next_id t) now (Categories.root n)];
        next_id := S (next_id t) |},
     Inserted (Categories.complete (next_id t) now (Categories.root n))).
Proof.
  intros Hlen Hids.
  destruct (sql_insert_cases _ _ Categories.schema now (Categories.root n) t)
    as [(v & Hvet & _) | (_ & E)]; [exfalso | exact E].
  assert (Hnone : vet Categories.schema
                    (complete Categories.schema (next_id t) now (Categories.root n))
                    (rows t) = None).
  { apply vet_none. split; [| split].
    - simpl. unfold Categories.constraints; simpl.
      apply Nat.leb_le in Hlen. rewrite Hlen. reflexivity.
    - intros x Hx. simpl. apply Hids. exact Hx.
    - simpl. intros k H. discriminate. }
  congruence.
Qed.

(** X10: whatever INSERT and UPDATE statements reach [categories], no two
    of its rows have the same name under the same parent.  The clause
    does not reach the categories without a parent: two of them with the
    same name are both stored. *)
Theorem categories_differ_in_name_under_a_parent :
  (forall (ss : list (timestamp * statement Categories.row))
          (r r' : Categories.row) (parent : nat),
     In r (rows (execute_all Categories.schema ss (empty Categories.row))) ->
     In r' (rows (execute_all Categories.schema ss (empty Categories.row))) ->
     Categories.parent_category_id r = Some parent ->
     Categories.parent_category_id r' = Some parent ->
     Categories.name r = Categories.name r' ->
     r = r')
  /\ (forall (n : string) (now now' : timestamp),
        String.length n <= 200 ->
        let t := execute_all Categories.schema
                   [(now, INSERT (Categories.root n)); (now', INSERT (Categories.root n))]
                   (empty Categories.row) in
        map Categories.name (rows t) = [Some n; Some n]
        /\ map Categories.parent_category_id (rows t) = [None; None]).
Proof.
  split.
  - intros ss r r' parent Hr Hr' Hp Hp' Hn.
    pose proof (rows_of_statements_valid Categories.schema ss r Hr) as Hv.
    simpl in Hv. unfold Categories.constraints in Hv.
    repeat (apply andb_true_iff in Hv; destruct Hv as [Hv ?]).
    destruct (Categories.name r) as [n |] eqn:En; [| discriminate].
    apply (rows_of_statements_one_per_key Categories.schema ss (parent, n) r r' Hr Hr');
      simpl; unfold Categories.natural_key.
    + rewrite Hp, En. reflexivity.
    + rewrite Hp', <- Hn. reflexivity.
  - intros n now now' Hlen t. unfold t. cbn [execute_all execute].
    rewrite (insert_root n now (empty Categories.row) Hlen) by (intros x []).
    cbn [fst]. rewrite insert_root; [split; reflexivity | exact Hlen |].
    simpl. intros x [<- | []]. simpl. discriminate.
Qed.

(** X11: the trigger tables stamp every UPDATE.  Whatever its SET clause
    writes, also to [updated_at] itself, the row an accepted UPDATE of
    [auction_houses], [auctions], [lots] or [artists] leaves has the time
    of the statement in [updated_at], and in [created_at] what the SET
    clause made of it.  An INSERT does not fire the trigger: an
    [updated_at] it supplies is stored as given. *)
Theorem update_stamps_updated_at (now : timestamp) (i : nat) :
  (forall set t r',
     snd (sql_update AuctionHouses.schema now i set t) = Updated r' ->
     AuctionHouses.updated_at r' = Some now
     /\ exists r, In r (rows t) /\ AuctionHouses.id r = i
                  /\ AuctionHouses.created_at r' = AuctionHouses.created_at (set r))
  /\ (forall set t r',
        snd (sql_update Auctions.schema now i set t) = Updated r' ->
        Auctions.updated_at r' = Some now
        /\ exists r, In r (rows t) /\ Auctions.id r = i
                     /\ Auctions.created_at r' = Auctions.created_at (set r))
  /\ (forall set t r',
        snd (sql_update Lots.schema now i set t) = Updated r' ->
        Lots.updated_at r' = Some now
        /\ exists r, In r (rows t) /\ Lots.id r = i
                     /\ Lots.created_at r' = Lots.created_at (set r))
  /\ (forall set t r',
        snd (sql_update Artists.schema now i set t) = Updated r' ->
        Artists.updated_at r' = Some now
        /\ exists r, In r (rows t) /\ Artists.id r = i
                     /\ Artists.created_at r' = Artists.created_at (set r))
  /\ (forall values t r stamp,
        snd (sql_insert Auctions.schema now values t) = Inserted r ->
        Auctions.updated_at values = Some stamp ->
        Auctions.updated_at r = Some stamp).
Proof.
  split; [| split; [| split; [| split]]].
  - intros set t r' H.
    destruct (sql_update_updated _ _ _ now i set r' t H) as (b & r & a & Hrows & Hi & -> & _).
    split; [reflexivity |]. exists r. split; [| split; [exact Hi | reflexivity]].
    rewrite Hrows. apply in_elt.
  - intros set t r' H.
    destruct (sql_update_updated _ _ _ now i set r' t H) as (b & r & a & Hrows & Hi & -> & _).
    split; [reflexivity |]. exists r. split; [| split; [exact Hi | reflexivity]].
    rewrite Hrows. apply in_elt.
  - intros set t r' H.
    destruct (sql_update_updated _ _ _ now i set r' t H) as (b & r & a & Hrows & Hi & -> & _).
    split; [reflexivity |]. exists r. split; [| split; [exact Hi | reflexivity]].
    rewrite Hrows. apply in_elt.
  - intros set t r' H.
    destruct (sql_update_updated _ _ _ now i set r' t H) as (b & r & a & Hrows & Hi & -> & _).
    split; [reflexivity |]. exists r. split; [| split; [exact Hi | reflexivity]].
    rewrite Hrows. apply in_elt.
  - intros values t r stamp H Hs.
    destruct (sql_insert_inserted _ _ _ now values r t H) as (-> & _ & _).
    simpl. rewrite Hs. reflexivity.
Qed.

(** An UPDATE at time 9 that sets [updated_at] to 0 leaves 9 in it. *)
Example set_updated_at_is_overwritten :
  let t := execute_all AuctionHouses.schema
             [(0%Z, INSERT (AuctionHouses.listed "Setdart" "España"
                              "https://www.setdart.com"))]
             (empty AuctionHouses.row) in
  exists r', snd (sql_update AuctionHouses.schema 9%Z 1
                    (AuctionHouses.set_updated_at 0%Z) t) = Updated r'
             /\ AuctionHouses.updated_at r' = Some 9%Z
             /\ AuctionHouses.created_at r' = Some 0%Z.
Proof. eexists. split; [reflexivity |]. split; reflexivity. Qed.

(** X14: whatever INSERT and UPDATE statements reach [auctions] and
    [lots], every auction stored has a house and a title, and an auction
    type that is NULL or one of live, online and hybrid; every lot
    stored has an auction, a lot number and a title. *)
Theorem stored_rows_have_their_required_columns
  (on_auctions : list (timestamp * statement Auctions.row))
  (on_lots : list (timestamp * statement Lots.row)) :
  Forall (fun r => (exists h t, Auctions.house_id r = Some h
                                /\ Auctions.title r = Some t)
                   /\ forall a, Auctions.auction_type r = Some a ->
                                In a ["live"; "online"; "hybrid"])
    (rows (execute_all Auctions.schema on_auctions (empty Auctions.row)))
  /\ Forall (fun r => exists a n t, Lots.auction_id r = Some a
                                    /\ Lots.lot_number r = Some n
                                    /\ Lots.title r = Some t)
       (rows (execute_all Lots.schema on_lots (empty Lots.row))).
Proof.
  split; apply Forall_forall; intros r Hr.
  - pose proof (rows_of_statements_valid Auctions.schema on_auctions r Hr) as Hv.
    simpl in Hv. unfold Auctions.constraints in Hv.
    repeat (apply andb_true_iff in Hv; destruct Hv as [Hv ?]).
    destruct (Auctions.house_id r) as [h |]; [| discriminate].
    destruct (Auctions.title r) as [t |]; [| discriminate].
    split.
    + exists h, t. split; reflexivity.
    + intros a Ha. rewrite Ha in *. apply SchemaFacts.one_of_in. assumption.
  - pose proof (rows_of_statements_valid Lots.schema on_lots r Hr) as Hv.
    simpl in Hv. unfold Lots.constraints in Hv.
    repeat (apply andb_true_iff in Hv; destruct Hv as [Hv ?]).
    destruct (Lots.auction_id r) as [a |]; [| discriminate].
    destruct (Lots.lot_number r) as [n |]; [| discriminate].
    destruct (Lots.title r) as [t |]; [| discriminate].
    exists a, n, t. repeat split.
Qed.

(** X7: the badge of the auctions page over the statuses the schema
    admits.  Whatever INSERT and UPDATE statements reach [auctions], a
    status stored is upcoming, active, completed or cancelled; the page
    shows the first three in Spanish, coloured primary, success and
    secondary, and shows a cancelled auction under its raw status, in the
    colour of a completed one. *)
Theorem stored_status_on_the_badge
  (ss : list (timestamp * statement Auctions.row)) :
  Forall (fun r => forall s, Auctions.status r = Some s ->
            let badge := (AuctionsPage.getStatusColor s, AuctionsPage.getStatusText s) in
            (s = "upcoming" /\ badge = ("primary", "Próxima"))
            \/ (s = "active" /\ badge = ("success", "En vivo"))
            \/ (s = "completed" /\ badge = ("secondary", "Finalizada"))
            \/ (s = "cancelled" /\ badge = ("secondary", "cancelled")))
    (rows (execute_all Auctions.schema ss (empty Auctions.row))).
Proof.
  apply Forall_forall. intros r Hr s Hs badge. unfold badge.
  pose proof (rows_of_statements_valid Auctions.schema ss r Hr) as Hv.
  simpl in Hv. unfold Auctions.constraints in Hv.
  repeat (apply andb_true_iff in Hv; destruct Hv as [Hv ?]).
  rewrite Hs in *.
  match goal with
  | H : one_of ["upcoming"; _; _; _] (Some s) = true |- _ =>
      apply SchemaFacts.one_of_in in H;
      destruct H as [<- | [<- | [<- | [<- | []]]]]
  end.
  - left. split; reflexivity.
  - right; left. split; reflexivity.
  - right; right; left. split; reflexivity.
  - right; right; right. split; reflexivity.
Qed.

End TableFacts.

(* --------------------------------------------------------------------- *)
(** ** The adapter of Bogotá Auctions *)
(* --------------------------------------------------------------------- *)

Module AdapterFacts.
Import Sql Tasks BogotaAuctionsAdapter.

Lemma for_each_returns {A B : Type} (f : A -> exn + B) (l : list A) (bs : list B) :
  for_each f l = inr bs <-> Forall2 (fun a b => f a = inr b) l bs.
Proof.
  revert bs. induction l as [| a l IH]; intros bs; simpl.
  - split.
    + intros [= <-]. constructor.
    + intros H. inversion H. reflexivity.
  - destruct (f a) as [e | b] eqn:Ea.
    + split; [discriminate |]. intros H. inversion H; subst. congruence.
    + destruct (for_each f l) as [e | bs'] eqn:El.
      * split; [discriminate |]. intros H. inversion H as [| ? b' ? bs'' Hb Hrest]; subst.
        apply IH in Hrest. discriminate.
      * split.
        -- intros [= <-]. constructor; [exact Ea | apply IH; reflexivity].
        -- intros H. inversion H as [| ? b' ? bs'' Hb Hrest]; subst.
           apply IH in Hrest. congruence.
Qed.

Lemma for_each_raises {A B : Type} (f : A -> exn + B) (l : list A) :
  (exists e, for_each f l = inl e) <-> exists a e, In a l /\ f a = inl e.
Proof.
  induction l as [| a l IH]; simpl.
  - split; [intros [e H]; discriminate | intros (a & e & [] & _)].
  - destruct (f a) as [e | b] eqn:Ea.
    + split; [| eauto]. intros _. exists a, e. split; [left; reflexivity | exact Ea].
    + destruct (for_each f l) as [e | bs] eqn:El.
      * split; [| eauto]. intros _.
        destruct (proj1 IH (ex_intro _ e eq_refl)) as (a' & e' & Hin & He).
        exists a', e'. split; [right; exact Hin | exact He].
      * split; [intros [e H]; discriminate |].
        intros (a' & e' & [<- | Hin] & He); [congruence |].
        destruct (proj2 IH (ex_intro _ a' (ex_intro _ e' (conj Hin He)))) as [e H].
        discriminate.
Qed.

Section Site.
Variable Tag : Type.
Variable get : string -> exn + Tag.
Variable select : string -> Tag -> list Tag.
Variable get_text : Tag -> string.
Variable attribute : string -> Tag -> option string.
Variable _parse_auction_page : string -> exn + AuctionData.
Variable _parse_price : option Tag -> exn + option (decimal * decimal).
Variable _extract_images : Tag -> exn + option string.

Lemma lot_of_element_returns (e : Tag) (d : LotData) :
  lot_of_element select get_text _parse_price _extract_images e = inr d ->
  lot_number d = option_map get_text (select_one select "span.numero" e)
  /\ lot_title d = option_map get_text (select_one select "h3" e)
  /\ Tasks.description d = option_map get_text (select_one select ".descripcion" e)
  /\ lot_number d <> None /\ lot_title d <> None.
Proof.
  unfold lot_of_element, text_of.
  destruct (select_one select "span.numero" e) as [n |]; [| discriminate].
  destruct (select_one select "h3" e) as [t |]; [| discriminate].
  destruct (select_one select ".descripcion" e) as [x |]; [| discriminate].
  destruct (_parse_price (select_one select ".precio" e)) as [? | p]; [discriminate |].
  destruct (_extract_images e) as [? | i]; [discriminate |].
  intros [= <-]. simpl. repeat split; discriminate.
Qed.

Lemma lot_of_element_raises (e : Tag) :
  select "span.numero" e = [] \/ select "h3" e = [] \/ select ".descripcion" e = [] ->
  exists x, lot_of_element select get_text _parse_price _extract_images e = inl x.
Proof.
  unfold lot_of_element, text_of, select_one.
  intros [H | [H | H]].
  - rewrite H. simpl. eauto.
  - destruct (hd_error (select "span.numero" e)); [| eauto].
    rewrite H. simpl. eauto.
  - destruct (hd_error (select "span.numero" e)); [| eauto].
    destruct (hd_error (select "h3" e)); [| eauto].
    rewrite H. simpl. eauto.
Qed.

(** X15: [scrape_lots] on a page it could load.  It returns all or
    nothing: when it returns, there is one lot for each [div.lote] of
    the page, in the order of the page, with the texts of that element
    as number, title and description, neither number nor title missing;
    when one [div.lote] lacks its [span.numero], its [h3] or its
    [.descripcion], the call raises and returns no lot at all.  A page
    without any [div.lote], whatever else it holds, gives the empty list
    and no error. *)
Theorem scrape_lots_all_or_nothing (auction_url : string) (soup : Tag) :
  get auction_url = inr soup ->
  let result :=
    scrape_lots get select get_text _parse_price _extract_images auction_url in
  (forall lots, result = inr lots ->
     Forall2 (fun e d =>
                lot_number d = option_map get_text (select_one select "span.numero" e)
                /\ lot_title d = option_map get_text (select_one select "h3" e)
                /\ Tasks.description d
                   = option_map get_text (select_one select ".descripcion" e)
                /\ lot_number d <> None /\ lot_title d <> None)
       (select "div.lote" soup) lots)
  /\ (forall e, In e (select "div.lote" soup) ->
        select "span.numero" e = [] \/ select "h3" e = []
        \/ select ".descripcion" e = [] ->
        exists x, result = inl x)
  /\ (select "div.lote" soup = [] -> result = inr []).
Proof.
  intros Hget result. unfold result, scrape_lots. rewrite Hget.
  split; [| split].
  - intros lots H. apply for_each_returns in H.
    eapply Forall2_impl; [| exact H].
    intros e d Hd. apply lot_of_element_returns. exact Hd.
  - intros e Hin Hmissing. apply for_each_raises.
    destruct (lot_of_element_raises e Hmissing) as [x Hx].
    exists e, x. split; assumption.
  - intros ->. reflexivity.
Qed.

(** X16: [scrape_auctions] on an entry page it could load.  When it
    returns, there is one auction for each [a.titulo-subasta] link, in
    the order of the page, each as [_parse_auction_page] gives it for
    the [href] of the link; a link without [href], or a page
    [_parse_auction_page] fails on, makes the call raise and return no
    auction at all.  When the entry page cannot be loaded, what the
    request raised is raised. *)
Theorem scrape_auctions_all_or_nothing :
  let result := scrape_auctions get select attribute _parse_auction_page in
  (forall e, get "https://www.bogotaauctions.com/es/subastas-activas" = inl e ->
     result = inl e)
  /\ (forall soup, get "https://www.bogotaauctions.com/es/subastas-activas" = inr soup ->
        (forall auctions, result = inr auctions ->
           Forall2 (fun link d => exists href, attribute "href" link = Some href
                                               /\ _parse_auction_page href = inr d)
             (select "a.titulo-subasta" soup) auctions)
        /\ (forall link, In link (select "a.titulo-subasta" soup) ->
              attribute "href" link = None -> exists x, result = inl x)
        /\ (forall link href x, In link (select "a.titulo-subasta" soup) ->
              attribute "href" link = Some href ->
              _parse_auction_page href = inl x -> exists x', result = inl x')).
Proof.
  intros result. unfold result, scrape_auctions. split.
  - intros e ->. reflexivity.
  - intros soup ->. split; [| split].
    + intros auctions H. apply for_each_returns in H.
      eapply Forall2_impl; [| exact H].
      intros link d. unfold auction_of_link.
      destruct (attribute "href" link) as [href |]; [| discriminate].
      intros Hd. exists href. split; [reflexivity | exact Hd].
    + intros link Hin Hno. apply for_each_raises.
      exists link, (KeyError "href"). split; [exact Hin |].
      unfold auction_of_link. rewrite Hno. reflexivity.
    + intros link href x Hin Hhref Hx. apply for_each_raises.
      exists link, x. split; [exact Hin |].
      unfold auction_of_link. rewrite Hhref. exact Hx.
Qed.

End Site.

Lemma scrape_lots_all_or_nothing_witness :
  exists x,
    scrape_lots (fun _ => inr 0)
      (fun css tag => if (tag =? 0)%nat && String.eqb css "div.lote" then [1; 2] else [])
      (fun _ => "") (fun _ => inr None) (fun _ => inr None) "/s/101" = inl x.
Proof.
  apply (proj1 (proj2
    (scrape_lots_all_or_nothing nat (fun _ => inr 0)
       (fun css tag => if (tag =? 0)%nat && String.eqb css "div.lote" then [1; 2] else [])
       (fun _ => "") (fun _ => inr None) (fun _ => inr None) "/s/101" 0 eq_refl)) 1).
  - simpl. left. reflexivity.
  - left. reflexivity.
Defined.

End AdapterFacts.

(* --------------------------------------------------------------------- *)
(** ** A scheduling round and the log *)
(* --------------------------------------------------------------------- *)

Module LogFacts.
Import Sql Tasks Logs.

Lemma get_adapter_registered (registry : adapters) (p : string * ScrapingAdapter) :
  In p registry -> exists a, get_adapter registry (fst p) = Some a.
Proof.
  intros Hin. unfold get_adapter.
  destruct (find (fun q => String.eqb (fst q) (fst p)) registry) as [q |] eqn:E.
  - eauto.
  - exfalso. pose proof (find_none _ _ E p Hin) as H. simpl in H.
    rewrite String.eqb_refl in H. discriminate.
Qed.

Lemma scrape_house_data_logs_once (now : timestamp) (registry : adapters)
  (house_name : string) (w : world) (a : ScrapingAdapter) :
  get_adapter registry house_name = Some a ->
  exists e, log (fst (scrape_house_data now registry house_name w)) = log w ++ [e]
            /\ house_name_of e = house_name.
Proof.
  intros Ha. unfold scrape_house_data. rewrite Ha.
  destruct (try_block now a (starting (store w))) as [j raised].
  destruct raised as [x |]; simpl; eexists; split; reflexivity.
Qed.

Lemma drain_logs (clock : nat -> timestamp) (registry : adapters) :
  forall (q : list (nat * string)) (s : system),
    queue (messages s) = q ->
    (forall m, In m q -> exists a, get_adapter registry (snd m) = Some a) ->
    exists entries,
      log (state (drain (List.length q) clock registry s)) = log (state s) ++ entries
      /\ map house_name_of entries = map snd q
      /\ queue (messages (drain (List.length q) clock registry s)) = [].
Proof.
  induction q as [| [tid name] q IH]; intros s Hq Hreg.
  - simpl. exists []. rewrite app_nil_r. repeat split. exact Hq.
  - cbn [List.length drain].
    destruct (Hreg (tid, name) (or_introl eq_refl)) as [a Ha]. simpl in Ha.
    destruct (scrape_house_data_logs_once (clock tid) registry name (state s) a Ha)
      as (e & Hlog & He).
    assert (Hw : queue (messages (work clock registry s)) = q
                 /\ state (work clock registry s)
                    = fst (scrape_house_data (clock tid) registry name (state s))).
    { unfold work. rewrite Hq.
      destruct (scrape_house_data (clock tid) registry name (state s)) as [w r].
      split; reflexivity. }
    destruct Hw as [Hq' Hstate].
    destruct (IH (work clock registry s) Hq'
                (fun m Hm => Hreg m (or_intror Hm))) as (entries & Hlog' & Hnames & Hempty).
    exists (e :: entries). rewrite Hlog', Hstate, Hlog, <- app_assoc.
    simpl. rewrite He, Hnames. repeat split. exact Hempty.
Qed.

(** X17: one scheduling round and the worker that takes its tasks.  When
    the queue is empty again, the log holds what it held before, followed
    by exactly one entry, a success or an error, for each registered
    house, in the order of the registry; and every task of the round has
    its result, in the order it was queued.  No task ends without its
    entry, whatever its adapter raised. *)
Theorem every_scheduled_house_is_logged_once (clock : nat -> timestamp)
  (registry : adapters) (w : world) :
  let done := run_all clock registry (scheduled registry w) in
  exists entries,
    log (state done) = log w ++ entries
    /\ map house_name_of entries = map fst registry
    /\ map fst (results done) = queue (schedule_scraping_jobs registry idle)
    /\ queue (messages done) = [].
Proof.
  intros done. unfold done, run_all.
  destruct (TaskFacts.schedule_scraping_jobs_queue registry idle) as [Hq _].
  simpl in Hq.
  destruct (drain_logs clock registry
              (combine (seq 0 (List.length registry)) (map fst registry))
              (scheduled registry w) Hq) as (entries & Hlog & Hnames & Hempty).
  { intros [tid name] Hm. simpl. apply in_combine_r in Hm.
    apply in_map_iff in Hm. destruct Hm as (p & <- & Hp).
    apply get_adapter_registered. exact Hp. }
  cbn [scheduled messages]. rewrite Hq.
  exists entries. split; [exact Hlog |]. split; [| split; [| exact Hempty]].
  - rewrite Hnames. clear.
    assert (H : forall (names : list string) (n : nat),
              map snd (combine (seq n (List.length names)) names) = names).
    { induction names as [| x names IH]; intros n; simpl; [reflexivity |].
      rewrite IH. reflexivity. }
    rewrite <- (length_map fst registry). apply H.
  - destruct (IsolationFacts.drain_takes_every_task clock registry
                (List.length (combine (seq 0 (List.length registry)) (map fst registry)))
                (scheduled registry w)) as [Hres _].
    rewrite Hres. cbn [scheduled results messages map app]. rewrite Hq.
    apply firstn_all.
Qed.

End LogFacts.
